(** * Vortex: deployment worker, mod-removal orchestration and file validation

    A shallow embedding of
      - the link worker ([remoteCode]: [doFS], the [link-file] and
        [remove-link] handlers),
      - the orchestration handlers of the mod-management extension
        ([validateStagingTag], the purge chain of [onGameModeActivated],
        [undeploy], [onRemoveMod]),
      - [util/fileValidation.ts] ([readHashList], [validateFiles]),
      - [FileAssembler.ts], the session reducer of the rule editor and
        [onModsChanged].

    Promise chains are modelled as a state-and-error monad: a promise is a
    function from the current state to its settlement (fulfilled with a
    value or rejected with an error) and the state it leaves behind. A
    function that can throw before it returns its promise ([undeploy])
    is a [Call]: it throws, or it returns the run of a promise.
    Everything outside the program (file system, dialogs, timers, the
    deployment method, the game registry) is an oracle acting on an
    abstract world. *)

From Stdlib Require Import String Ascii List ZArith Lia Permutation.
From stdpp Require Import base option list strings gmap.
Import ListNotations.
Open Scope string_scope.

(* ===================================================================== *)
(** * Errors *)
(* ===================================================================== *)

(** The error classes the code tests with [instanceof] (util/CustomErrors),
    any other [Error], and the plain object the worker builds from an
    error's fields. *)
Inductive ErrorClass :=
| UserCanceled
| ProcessCanceled
| TemporaryError
| OtherError
| PlainObject.

Record JsError := mkError {
  err_class : ErrorClass;
  err_code : option string;      (* [err.code], [None] when undefined *)
  err_message : string;
}.

#[global] Instance ErrorClass_eq_dec : EqDecision ErrorClass.
Proof. solve_decision. Defined.

#[global] Instance JsError_eq_dec : EqDecision JsError.
Proof. solve_decision. Defined.

Definition new_UserCanceled : JsError :=
  mkError UserCanceled None "canceled by user".
Definition new_ProcessCanceled (msg : string) : JsError :=
  mkError ProcessCanceled None msg.

(** [err.code === c] *)
Definition code_is (c : string) (e : JsError) : bool :=
  bool_decide (err_code e = Some c).

(** [err instanceof C] *)
Definition instanceof (e : JsError) (c : ErrorClass) : bool :=
  bool_decide (err_class e = c).

(* ===================================================================== *)
(** * Promises as a state-and-error monad *)
(* ===================================================================== *)

Module Promise.

(** How a promise settles. *)
Definition Outcome (A : Type) : Type := (A + JsError)%type.

Definition M (S A : Type) : Type := S -> Outcome A * S.

Section Ops.
Context {S : Type}.

(** [Promise.resolve(a)] *)
Definition resolve {A} (a : A) : M S A := fun s => (inl a, s).

(** [Promise.reject(e)] *)
Definition reject {A} (e : JsError) : M S A := fun s => (inr e, s).

(** [m.then(f)] *)
Definition andThen {A B} (m : M S A) (f : A -> M S B) : M S B :=
  fun s =>
    match m s with
    | (inl a, s') => f a s'
    | (inr e, s') => (inr e, s')
    end.

(** [m.catch(h)] *)
Definition catch {A} (m : M S A) (h : JsError -> M S A) : M S A :=
  fun s =>
    match m s with
    | (inl a, s') => (inl a, s')
    | (inr e, s') => h e s'
    end.

(** bluebird's filtered [m.catch(Filter, h)]: the handler runs only for
    the errors the filter (an error class or an object pattern)
    matches. *)
Definition catchIf {A} (filter : JsError -> bool)
           (m : M S A) (h : JsError -> M S A) : M S A :=
  catch m (fun e => if filter e then h e else reject e).

(** bluebird's [m.tapCatch(h)]: runs [h] on a rejection and then
    rejects with the original error (or with the handler's own). *)
Definition tapCatch {A} (m : M S A) (h : JsError -> M S unit) : M S A :=
  fun s =>
    match m s with
    | (inl a, s') => (inl a, s')
    | (inr e, s') =>
        match h e s' with
        | (inl _, s'') => (inr e, s'')
        | (inr e', s'') => (inr e', s'')
        end
    end.

(** [m.finally(h)] *)
Definition finally {A} (m : M S A) (h : M S unit) : M S A :=
  fun s =>
    match m s with
    | (r, s') =>
        match h s' with
        | (inl _, s'') => (r, s'')
        | (inr e', s'') => (inr e', s'')
        end
    end.

(** A synchronous effect on the state. *)
Definition effect (f : S -> S) : M S unit := fun s => (inl tt, f s).

(** Reading the state. *)
Definition gets {A} (f : S -> A) : M S A := fun s => (inl (f s), s).
End Ops.


End Promise.

Import Promise.

Declare Scope promise_scope.
Delimit Scope promise_scope with promise.
Notation "'let*' x ':=' m 'in' k" := (andThen m (fun x => k))
  (at level 10, x name, m at level 100, k at level 200) : promise_scope.
Notation "m '>>' k" := (andThen m (fun _ => k))
  (at level 93, right associativity) : promise_scope.
Open Scope promise_scope.

(* ===================================================================== *)
(** * The link worker ([remoteCode]) *)
(* ===================================================================== *)

Module Worker.

(** [fs.lstat]'s result, as far as the worker looks at it. *)
Record Stats := { isSymbolicLink : bool }.

(** The file-system calls the worker makes. *)
Inductive FsCall :=
| CEnsureDir (dir : string)
| CWriteFile (file data : string)
| CRemove (target : string)
| CSymlink (source destination : string)
| CLstat (target : string).

(** Payloads of the messages sent over the IPC channel. *)
Inductive Payload :=
| PLog (level message : string) (meta : list (string * string))
| PCompleted (err : option JsError) (num : Z)
| PReport (what : string)
| PNone.

(** What the worker does that is visible from outside, in order. *)
Inductive Event :=
| EvFs (c : FsCall)
| EvDelay (ms : nat)
| EvSend (message : string) (payload : Payload).

#[global] Instance FsCall_eq_dec : EqDecision FsCall.
Proof. solve_decision. Defined.
#[global] Instance Payload_eq_dec : EqDecision Payload.
Proof. solve_decision. Defined.
#[global] Instance Event_eq_dec : EqDecision Event.
Proof. solve_decision. Defined.

(** The events of the steps before a handler answers: file-system calls,
    timers and log messages. *)
Definition is_step (ev : Event) : bool :=
  match ev with
  | EvFs _ => true
  | EvDelay _ => true
  | EvSend message (PLog _ _ _) => bool_decide (message = "log")
  | EvSend _ _ => false
  end.

(** The modules the worker obtains through [req] ('fs-extra', 'path'),
    the timer and the platform, over a world [W]. *)
Class Node (W : Type) := {
  fs_ensureDir : string -> W -> Outcome (option string) * W;
  fs_writeFile : string -> string -> W -> Outcome unit * W;
  fs_remove : string -> W -> Outcome unit * W;
  fs_symlink : string -> string -> W -> Outcome unit * W;
  fs_lstat : string -> W -> Outcome Stats * W;
  path_dirname : string -> string;
  path_join : string -> string -> string;
  (* what happens to the world while a timer of [ms] runs *)
  elapse : nat -> W -> W;
  platform_win32 : bool;
}.

Record St (W : Type) := mkSt {
  world : W;
  trace : list Event;
}.
Arguments mkSt {W}.
Arguments world {W}.
Arguments trace {W}.

Section Worker.
Context {W : Type} `{Node W}.

Local Abbreviation P := (M (St W)).

Definition record (ev : Event) (s : St W) : St W :=
  mkSt (world s) (trace s ++ [ev]).

(** One call into the file system: it is recorded and run on the
    world. *)
Definition fsCall {A} (c : FsCall) (op : W -> Outcome A * W) : P A :=
  fun s =>
    let '(r, w') := op (world s) in
    (r, mkSt w' (trace s ++ [EvFs c])).

Definition ensureDir (dir : string) : P (option string) :=
  fsCall (CEnsureDir dir) (fs_ensureDir dir).
Definition writeFile (file data : string) : P unit :=
  fsCall (CWriteFile file data) (fs_writeFile file data).
Definition remove (target : string) : P unit :=
  fsCall (CRemove target) (fs_remove target).
Definition symlink (source destination : string) : P unit :=
  fsCall (CSymlink source destination) (fs_symlink source destination).
Definition lstat (target : string) : P Stats :=
  fsCall (CLstat target) (fs_lstat target).

Definition RETRY_ERRORS : list string :=
  ["EPERM"; "EBUSY"; "EIO"; "EBADF"; "UNKNOWN"].

(** [RETRY_ERRORS.has(err.code)] *)
Definition RETRY_ERRORS_has (c : option string) : bool :=
  match c with
  | Some c => bool_decide (c ∈ RETRY_ERRORS)
  | None => false
  end.

(** [delayed(delay)]: a promise resolved by [setTimeout]. *)
Definition delayed (delay : nat) : P unit :=
  effect (fun s => mkSt (elapse delay (world s))
                        (trace s ++ [EvDelay delay])).

(** [doFS(op, tries)] *)
Fixpoint doFS {A} (op : P A) (tries : nat) : P A :=
  catch op (fun err =>
    match tries with
    | S tries' =>
        if RETRY_ERRORS_has (err_code err)
        then delayed 100 >> doFS op tries'
        else reject err
    | O => reject err
    end).

(** The default value of [tries]. *)
Definition default_tries : nat := 5.

(** [emit(message, payload)] *)
Definition emit (message : string) (payload : Payload) : P unit :=
  effect (record (EvSend message payload)).

Definition TAG_NAME : string :=
  if platform_win32 then "__folder_managed_by_vortex"
  else ".__folder_managed_by_vortex".

Definition TAG_TEXT : string :=
  "This directory was created by Vortex deployment and will be removed "
  ++ "during purging if it's empty".

(** The first step of ['link-file']: the directory of the destination is
    made; a new directory is tagged, in an old one whatever is at the
    destination is removed. *)
Definition prepare_destination (destination : string) : P unit :=
  let* created := ensureDir (path_dirname destination) in
  match created with
  | Some created =>
      emit "log" (PLog "debug" "created directory"
                    [("dirName", path_dirname destination)]) >>
      doFS (writeFile (path_join created TAG_NAME) TAG_TEXT) default_tries
  | None =>
      catch (doFS (remove destination) default_tries)
            (fun err => if code_is "ENOENT" err
                        then resolve tt else reject err)
  end.

(** The second step of ['link-file']: the link is made. *)
Definition create_link (source destination : string) : P unit :=
  catch (doFS (symlink source destination) default_tries)
        (fun err =>
           if negb (code_is "EEXIST" err)
           then reject err
           else doFS (remove destination) default_tries >>
                doFS (symlink source destination) default_tries).

(** The ['link-file'] handler. *)
Definition link_file (source destination : string) (num : Z) : P unit :=
  catch
    (prepare_destination destination >>
     create_link source destination >>
     emit "log" (PLog "debug" "installed"
                   [("source", source); ("destination", destination)]) >>
     emit "completed" (PCompleted None num))
    (fun err =>
       (if code_is "EISDIR" err
        then emit "report" (PReport "not-supported")
        else emit "log" (PLog "error" "failed to install symlink"
                           [("err", err_message err)])) >>
       emit "completed" (PCompleted (Some err) num)).

(** The ['remove-link'] handler. *)
Definition remove_link (destination : string) (num : Z) : P unit :=
  catch
    (let* stats := doFS (lstat destination) default_tries in
     (if isSymbolicLink stats
      then doFS (remove destination) default_tries
      else resolve tt) >>
     emit "completed" (PCompleted None num))
    (fun err =>
       emit "completed"
            (PCompleted
               (Some (mkError PlainObject (err_code err) (err_message err)))
               num)).

(** ** The retry schedule of [doFS], attempt by attempt *)

(** The state in which attempt number [k] (from 0) starts, when every
    earlier attempt was followed by the 100 ms timer. *)
Fixpoint before_attempt {A} (op : P A) (s : St W) (k : nat) : St W :=
  match k with
  | O => s
  | S k' => snd (delayed 100 (snd (op (before_attempt op s k'))))
  end.

(** How attempt number [k] settles, and the state it leaves. *)
Definition attempt {A} (op : P A) (s : St W) (k : nat)
  : Outcome A * St W :=
  op (before_attempt op s k).

(** The attempt failed with one of the codes [doFS] retries on. *)
Definition transient {A} (r : Outcome A) : bool :=
  match r with
  | inl _ => false
  | inr e => RETRY_ERRORS_has (err_code e)
  end.


End Worker.

(** The ['completed'] messages among the events. *)
Definition is_completed (ev : Event) : bool :=
  match ev with
  | EvSend message (PCompleted _ _) => bool_decide (message = "completed")
  | _ => false
  end.

(** The events of [n + 1] attempts at the call [c], each retry after a
    timer of 100 ms. *)
Fixpoint attempts_trace (c : FsCall) (n : nat) : list Event :=
  match n with
  | O => [EvFs c]
  | S n' => EvFs c :: EvDelay 100 :: attempts_trace c n'
  end.

End Worker.

(* ===================================================================== *)
(** * The orchestration handlers of the mod-management extension *)
(* ===================================================================== *)

Module Orchestrator.

(** ** The application state, as far as the handlers read it *)

Record IMod := mkMod {
  mod_id : string;
  mod_state : string;
  mod_type : option string;
  installationPath : option string;
}.

(** [settings.profiles.lastActiveProfile[gameId]]: a profile id, or an
    object carrying one. *)
Inductive LastActive :=
| LastActiveId (profileId : string)
| LastActiveObject (profileId : option string).

Record IDiscoveryResult := { discovery_path : option string }.

Record IState := mkState {
  app_instanceId : string;
  (* [persistent.mods]: the mod catalog, by game and by mod id *)
  persistent_mods : gmap string (gmap string IMod);
  (* [persistent.profiles[p].modState[m].enabled] *)
  profiles_enabled : gmap (option string * string) bool;
  lastActiveProfile : gmap string LastActive;
  discovered : gmap string IDiscoveryResult;
  (* [settings.mods.activator] *)
  settings_activator : gmap string string;
  (* [session.base.activity] *)
  session_activity : list (string * string);
}.

(** The store actions the modelled handlers dispatch. *)
Inductive Action :=
| setModEnabled (profileId : option string) (modId : string) (enabled : bool)
| startActivity (group activityId : string)
| stopActivity (group activityId : string)
| removeMod (gameId modId : string).

#[global] Instance Action_eq_dec : EqDecision Action.
Proof. solve_decision. Defined.

(** Modelled from the spec: the reducers behind the dispatched actions live
    in [actions/] and [reducers/], which are not among the files modelled
    here. [removeMod] removes
    the mod from the catalog of its game; [setModEnabled] sets the mod's
    flag in the profile; the activity actions keep the session's list of
    running activities. Only [removeMod] touches the catalog. *)
Definition reduce (a : Action) (st : IState) : IState :=
  match a with
  | setModEnabled profileId modId enabled =>
      mkState (app_instanceId st) (persistent_mods st)
              (<[(profileId, modId) := enabled]> (profiles_enabled st))
              (lastActiveProfile st) (discovered st) (settings_activator st)
              (session_activity st)
  | startActivity group activityId =>
      mkState (app_instanceId st) (persistent_mods st) (profiles_enabled st)
              (lastActiveProfile st) (discovered st) (settings_activator st)
              (session_activity st ++ [(group, activityId)])
  | stopActivity group activityId =>
      mkState (app_instanceId st) (persistent_mods st) (profiles_enabled st)
              (lastActiveProfile st) (discovered st) (settings_activator st)
              (List.filter (fun a => negb (bool_decide (a = (group, activityId))))
                           (session_activity st))
  | removeMod gameId modId =>
      mkState (app_instanceId st)
              (alter (delete modId) gameId (persistent_mods st))
              (profiles_enabled st)
              (lastActiveProfile st) (discovered st) (settings_activator st)
              (session_activity st)
  end.

(** [getSafe(state, ['persistent', 'mods', gameMode, modId], undefined)] *)
Definition catalog_lookup (st : IState) (gameMode modId : string)
  : option IMod :=
  match persistent_mods st !! gameMode with
  | Some mods => mods !! modId
  | None => None
  end.

(** ** What the handlers show and do *)

(** What the detail argument of [showErrorNotification] is. *)
Inductive Detail :=
| DetailMessage (message : string)
| DetailError (err : JsError).

Inductive Event :=
| EvDialog (type title text : string) (actions : list string)
| EvDispatch (a : Action)
| EvCallback (err : option JsError)
| EvErrorNotification (title : string) (detail : Detail)
                      (allowReport : option bool)
| EvEmit (event : string)
| EvRemoveAsync (target : string).

#[global] Instance Detail_eq_dec : EqDecision Detail.
Proof. solve_decision. Defined.
#[global] Instance Event_eq_dec : EqDecision Event.
Proof. solve_decision. Defined.

Definition is_dispatch (ev : Event) : bool :=
  match ev with
  | EvDispatch _ => true
  | _ => false
  end.

Definition is_dialog (ev : Event) : bool :=
  match ev with
  | EvDialog _ _ _ _ => true
  | _ => false
  end.

(** What [JSON.parse] of the tag file gives, as far as [validateStagingTag]
    looks at it: [null], whose property access throws, or any other value
    with its [instance] property ([None] unless that is a string). *)
Inductive ParsedTag :=
| TagNull
| TagValue (instance : option string).

(** ** The deployment method ([IDeploymentMethod]) *)

Section Method.
Context {W Manifest Normalize : Type}.

Record IDeploymentMethod := {
  act_id : string;
  prepare : string -> bool -> option Manifest -> Normalize ->
            W -> Outcome unit * W;
  deactivate : string -> string -> W -> Outcome unit * W;
  finalize : string -> string -> string -> W -> Outcome Manifest * W;
  cancel : option (string -> string -> string -> W -> Outcome unit * W);
  prePurge : string -> W -> Outcome unit * W;
  purge : string -> string -> W -> Outcome unit * W;
  postPurge : W -> Outcome unit * W;
}.

(** [IGame], with the mod paths in the order of their keys. *)
Record IGame := {
  getModPaths : string -> list (string * string);
}.

End Method.
Arguments IDeploymentMethod : clear implicits.

(** Everything the handlers consult in other modules, over a world [W]:
    the dialogs, [util/fs], [JSON], the game registry ([getGame] answers
    [undefined], here [None], for a game that is not registered), the
    activation store, the selectors and helpers. *)
Class Env (W Manifest Normalize : Type) := {
  showDialog_answer : string -> string -> string -> list string ->
                      W -> string * W;
  fs_readFileAsync : string -> W -> Outcome string * W;
  fs_removeAsync : string -> W -> Outcome unit * W;
  JSON_parse : string -> option ParsedTag;
  path_join : string -> string -> string;
  getGame : string -> option IGame;
  genSubDirFunc : IGame -> IMod -> string;
  getNormalizeFunc : string -> W -> Outcome Normalize * W;
  loadActivation : option string -> string -> string ->
                   IDeploymentMethod W Manifest Normalize ->
                   W -> Outcome (option Manifest) * W;
  saveActivation : option string -> string -> string -> string ->
                   Manifest -> string -> W -> Outcome unit * W;
  (* [undefined] ([None]) when the method supports all the types *)
  allTypesSupported : IDeploymentMethod W Manifest Normalize -> IState ->
                      string -> list string -> option string;
  installPathForGame : IState -> string -> string;
  (* the listeners of the ['deploy-mods'] event and the error they hand
      to the callback *)
  deploy_mods : W -> option JsError * W;
  truthy : option string -> bool;
}.

Record St (W : Type) := mkSt {
  store : IState;
  world : W;
  trace : list Event;
}.
Arguments mkSt {W}.
Arguments store {W}.
Arguments world {W}.
Arguments trace {W}.

(** What the call of a function that returns a promise comes to: the
    call throws before there is a promise, or it returns one, given here
    by how that promise settles and the state it leaves. *)
Inductive Call (S A : Type) :=
| Throws (e : JsError)
| Returns (run : Outcome A * S).
Arguments Throws {S A}.
Arguments Returns {S A}.

Section Handlers.
Context {W Manifest Normalize : Type} `{Env W Manifest Normalize}.

Local Abbreviation P := (M (St W)).
Local Abbreviation Method := (IDeploymentMethod W Manifest Normalize).

(** The promise a call returned, for the handlers attached to it. *)
Definition promised {A} (run : Outcome A * St W) : P A := fun _ => run.

Definition record (ev : Event) (s : St W) : St W :=
  mkSt (store s) (world s) (trace s ++ [ev]).

(** A call out of the program: it acts on the world alone. *)
Definition ext {A} (op : W -> Outcome A * W) : P A :=
  fun s => let '(r, w') := op (world s) in (r, mkSt (store s) w' (trace s)).

(** [store.getState()] *)
Definition getState : P IState := gets store.

(** [store.dispatch(action)] *)
Definition dispatch (a : Action) : P unit :=
  effect (fun s => mkSt (reduce a (store s)) (world s)
                        (trace s ++ [EvDispatch a])).

(** [api.showDialog(type, title, {text}, actions)], resolved with the
    label of the action the user chose. *)
Definition showDialog (type title text : string) (actions : list string)
  : P string :=
  fun s =>
    let '(answer, w') := showDialog_answer type title text actions (world s) in
    (inl answer,
     mkSt (store s) w' (trace s ++ [EvDialog type title text actions])).

(** [api.showErrorNotification(title, detail, {allowReport})] *)
Definition showErrorNotification (title : string) (detail : Detail)
           (allowReport : option bool) : P unit :=
  effect (record (EvErrorNotification title detail allowReport)).

(** [callback(err)] *)
Definition call_callback (err : option JsError) : P unit :=
  effect (record (EvCallback err)).

Definition readFileAsync (file : string) : P string :=
  ext (fs_readFileAsync file).

Definition removeAsync (target : string) : P unit :=
  fun s =>
    let '(r, w') := fs_removeAsync target (world s) in
    (r, mkSt (store s) w' (trace s ++ [EvRemoveAsync target])).

(** The errors the JavaScript runtime throws. *)
Definition SyntaxError : JsError :=
  mkError OtherError None "Unexpected token in JSON".
Definition TypeError (msg : string) : JsError :=
  mkError OtherError None msg.

(** The quotation mark and the line feed, for the dialog texts. *)
Definition QUOTE : string := String (Ascii.ascii_of_nat 34) EmptyString.
Definition LF : string := String (Ascii.ascii_of_nat 10) EmptyString.

(** The dialog texts. *)
Definition DIFFERENT_INSTANCE : string :=
  "This is a staging folder but it appears to belong to a different Vortex "
  ++ "instance. If you're using Vortex in shared and " ++ QUOTE ++ "regular"
  ++ QUOTE ++ " mod, do not use "
  ++ "the same staging folder for both!".

Definition NOT_MARKED : string :=
  "This directory is not marked as a staging folder. "
  ++ "Are you *sure* it's the right directory?".

(** [validateStagingTag(api, tagPath)] *)
Definition validateStagingTag (tagPath : string) : P unit :=
  catch
    (let* data := readFileAsync tagPath in
     let* state := getState in
     match JSON_parse data with
     | None => reject SyntaxError
     | Some TagNull => reject (TypeError "Cannot read property 'instance' of null")
     | Some (TagValue instance) =>
         if negb (bool_decide (instance = Some (app_instanceId state)))
         then
           let* result := showDialog "question" "Confirm" DIFFERENT_INSTANCE
                                     ["Cancel"; "Continue"] in
           if bool_decide (result = "Cancel")
           then reject new_UserCanceled
           else resolve tt
         else resolve tt
     end)
    (fun _ =>
       let* result := showDialog "question" "Confirm" NOT_MARKED
                                 ["Cancel"; "I'm sure"] in
       if bool_decide (result = "Cancel")
       then reject new_UserCanceled
       else resolve tt).

(** [Promise.mapSeries(items, f)], its results dropped. *)
Fixpoint mapSeries {A} (items : list A) (f : A -> P unit) : P unit :=
  match items with
  | [] => resolve tt
  | x :: rest => f x >> mapSeries rest f
  end.

(** [modPaths[typeId]] *)
Fixpoint modPath_of (modPaths : list (string * string)) (typeId : string)
  : option string :=
  match modPaths with
  | [] => None
  | (k, v) :: rest =>
      if bool_decide (k = typeId) then Some v else modPath_of rest typeId
  end.

(** [['ENOENT', 'ENOTFOUND'].indexOf(err.code) !== -1] *)
Definition code_listed (codes : list string) (err : JsError) : bool :=
  match err_code err with
  | Some c => bool_decide (c ∈ codes)
  | None => false
  end.

(** The handler at the end of the purge chain of [onGameModeActivated]. *)
Definition purge_failed (err : JsError) : P unit :=
  showErrorNotification "Purge failed" (DetailError err)
    (Some (code_listed ["ENOENT"; "ENOTFOUND"] err)).

(** The initialisation step [onGameModeActivated] installs when the
    configured deployment method is replaced: the old method purges every
    mod type. *)
Definition initProm_purge (oldInit : P unit) (oldActivator : Method)
           (instPath : string) (modPaths : list (string * string))
  : P unit :=
  finally
    (catchIf (fun e => instanceof e ProcessCanceled)
       (oldInit >>
        ext (prePurge oldActivator instPath) >>
        catch
          (catchIf (fun e => instanceof e TemporaryError)
             (catchIf (fun e => instanceof e ProcessCanceled)
                (mapSeries (map fst modPaths)
                   (fun typeId =>
                      match modPath_of modPaths typeId with
                      | Some p => ext (purge oldActivator instPath p)
                      | None => resolve tt
                      end) >>
                 resolve tt)
                (fun _ => resolve tt))
             (fun err =>
                showErrorNotification "Purge failed, please try again"
                  (DetailMessage (err_message err)) (Some false)))
          purge_failed)
       (fun _ => resolve tt))
    (ext (postPurge oldActivator)).

(** [activators.find(pred)] *)
Definition find_activator (pred : Method -> bool) (activators : list Method)
  : option Method :=
  List.find pred activators.

(** [mod.type || ''] *)
Definition type_or_default (m : IMod) : string :=
  match mod_type m with
  | Some t => t
  | None => ""
  end.

(** [undeploy(api, activators, gameMode, mod)]. Everything up to the
    first promise runs in the call: for a game that is discovered but not
    registered, [game.getModPaths] throws there. *)
Definition undeploy (activators : list Method) (gameMode : string)
           (m : IMod) (s : St W) : Call (St W) unit :=
  let state := store s in
  match discovered state !! gameMode with
  | None => Returns (resolve tt s)
  | Some discovery =>
      match discovery_path discovery with
      | None => Returns (resolve tt s)
      | Some discoveryPath =>
          match getGame gameMode with
          | None =>
              Throws (TypeError
                        "Cannot read property 'getModPaths' of undefined")
          | Some game =>
              let modPaths := getModPaths game discoveryPath in
              let modTypes := map fst modPaths in
              let activator :=
                match settings_activator state !! gameMode with
                | Some activatorId =>
                    find_activator
                      (fun act => bool_decide (act_id act = activatorId))
                      activators
                | None =>
                    find_activator
                      (fun act =>
                         match allTypesSupported act state gameMode
                                                 modTypes with
                         | None => true
                         | Some _ => false
                         end)
                      activators
                end in
              match activator with
              | None =>
                  Returns (reject (new_ProcessCanceled
                                     "No deployment method active") s)
              | Some activator =>
                  let stagingPath := installPathForGame state gameMode in
                  let subdir := genSubDirFunc game in
                  match modPath_of modPaths (type_or_default m) with
                  | None => Returns (resolve tt s)
                  | Some deployPath =>
                      Returns
                        ((let* newActivation :=
                            tapCatch
                              (let* normalize :=
                                 ext (getNormalizeFunc deployPath) in
                               let* lastActivation :=
                                 ext (loadActivation (mod_type m) deployPath
                                                     stagingPath activator) in
                               ext (prepare activator deployPath false
                                            lastActivation normalize) >>
                               match installationPath m with
                               | Some p =>
                                   ext (deactivate activator
                                          (path_join stagingPath p)
                                          (subdir m))
                               | None =>
                                   reject (TypeError "Path must be a string")
                               end)
                              (fun _ =>
                                 match cancel activator with
                                 | Some cancel =>
                                     (* the promise [cancel] returns is
                                        dropped *)
                                     fun s =>
                                       (inl tt,
                                        mkSt (store s)
                                             (snd (cancel gameMode deployPath
                                                     stagingPath (world s)))
                                             (trace s))
                                 | None => resolve tt
                                 end) >>
                            ext (finalize activator gameMode deployPath
                                          stagingPath) in
                          ext (saveActivation (mod_type m)
                                 (app_instanceId state) deployPath
                                 stagingPath newActivation
                                 (act_id activator))) s)
                  end
              end
          end
      end
  end.

Definition MOD_NOT_FOUND : string :=
  "The mod you're removing has already been deleted on disk." ++ LF
  ++ "This makes it impossible for Vortex to cleanly undeploy the mod "
  ++ "so you may be left with files left over in your game directory." ++ LF
  ++ "You should allow Vortex to do a full deployment now to try and "
  ++ "clean up as best as possible." ++ LF
  ++ "The mod will be removed after deployment is finished.".

(** [emit('deploy-mods', cb)] wrapped in a promise: rejected with the error
    the listeners hand to [cb], resolved when that is [null]. *)
Definition emit_deploy_mods : P unit :=
  fun s =>
    let '(deployErr, w') := deploy_mods (world s) in
    (match deployErr with
     | Some e => inr e
     | None => inl tt
     end,
     mkSt (store s) w' (trace s ++ [EvEmit "deploy-mods"])).

(** [undeployMod], the first step of the removal in [onRemoveMod]; it
    throws when [undeploy] does. *)
Definition undeployMod (activators : list Method) (gameMode : string)
           (m : IMod) (s : St W) : Call (St W) unit :=
  match installationPath m with
  | None => Returns (resolve tt s)
  | Some _ =>
      match undeploy activators gameMode m s with
      | Throws e => Throws e
      | Returns run =>
          Returns
            (catchIf (code_is "ENOTFOUND")
               (promised run)
               (fun _ =>
                  let* result := showDialog "error" "Mod not found"
                                            MOD_NOT_FOUND
                                            ["Ignore"; "Deploy"] in
                  if bool_decide (result = "Deploy")
                  then emit_deploy_mods
                  else resolve tt) s)
      end
  end.

(** The second step of the removal in [onRemoveMod]: the mod's staged files
    are deleted. *)
Definition removeModFiles (installPath : string) (m : IMod) : P unit :=
  if truthy (installationPath m)
  then
    match installationPath m with
    | Some p =>
        let fullModPath := path_join installPath p in
        catch
          (catchIf (code_is "ENOTEMPTY")
             (removeAsync fullModPath)
             (fun _ => removeAsync fullModPath))
          (fun err => if code_is "ENOENT" err
                      then resolve tt else reject err)
    | None => reject (TypeError "Path must be a string")
    end
  else resolve tt.

(** [callback !== undefined ? callback(err) : otherwise] *)
Definition callback_or (callback : bool) (err : option JsError)
           (otherwise : P unit) : P unit :=
  if callback then call_callback err else otherwise.

(** [onRemoveMod(api, activators, gameMode, modId, callback)]; [callback]
    says whether one was passed. The function returns nothing: the
    outcome is [inl tt] when the call returns and [inr e] when it throws
    [e], which it does when [undeployMod()], called before any handler is
    attached, throws. *)
Definition onRemoveMod (activators : list Method) (gameMode modId : string)
           (callback : bool) : P unit :=
  let* state := getState in
  let modState := mod_state <$> catalog_lookup state gameMode modId in
  if negb (bool_decide (modState ∈ [Some "downloaded"; Some "installed"]))
  then
    callback_or callback
      (Some (new_ProcessCanceled
               "Can't delete mod during download or install"))
      (resolve tt)
  else
    let profileId :=
      match lastActiveProfile state !! gameMode with
      | Some (LastActiveId p) => Some p
      | Some (LastActiveObject p) => p
      | None => None
      end in
    dispatch (setModEnabled profileId modId false) >>
    let installPath := installPathForGame state gameMode in
    match persistent_mods state !! gameMode with
    | None =>
        let err := TypeError "Cannot read property of undefined" in
        callback_or callback (Some err)
          (showErrorNotification "Failed to remove mod (not found)"
                                 (DetailError err) None)
    | Some mods =>
        match mods !! modId with
        | None => callback_or callback None (resolve tt)
        | Some m =>
            dispatch (startActivity "mods" ("removing_" ++ modId)) >>
            fun s0 =>
              match undeployMod activators gameMode m s0 with
              | Throws e => (inr e, s0)
              | Returns run =>
                  finally
                    (catch
                       (catchIf (fun e => instanceof e UserCanceled)
                          (catchIf (fun e => instanceof e ProcessCanceled)
                             (catchIf (fun e => instanceof e TemporaryError)
                                (promised run >>
                                 removeModFiles installPath m >>
                                 dispatch (removeMod gameMode (mod_id m)) >>
                                 callback_or callback None (resolve tt))
                                (fun err =>
                                   callback_or callback (Some err)
                                     (showErrorNotification
                                        "Failed to undeploy mod, please try again"
                                        (DetailMessage (err_message err))
                                        (Some false))))
                             (fun err =>
                                callback_or callback (Some err)
                                  (showErrorNotification
                                     "Failed to remove mod"
                                     (DetailError err) (Some false))))
                          (fun err =>
                             callback_or callback (Some err) (resolve tt)))
                       (fun err =>
                          callback_or callback (Some err)
                            (showErrorNotification "Failed to remove mod"
                               (DetailError err) None)))
                    (dispatch (stopActivity "mods" ("removing_" ++ modId)))
                    s0
              end
        end
    end.

(** The state in which the removal chain of [onRemoveMod] starts: the mod
    is disabled in the profile and the activity is running. *)
Definition removal_start (gameMode modId : string) (s : St W) : St W :=
  let state := store s in
  let profileId :=
    match lastActiveProfile state !! gameMode with
    | Some (LastActiveId p) => Some p
    | Some (LastActiveObject p) => p
    | None => None
    end in
  snd (dispatch (startActivity "mods" ("removing_" ++ modId))
         (snd (dispatch (setModEnabled profileId modId false) s))).

(** The two steps of the removal, from the state in which the chain of
    [onRemoveMod] starts: [undeployMod()] and, on the promise it returns,
    the deletion of the staged files. *)
Definition removal_steps (activators : list Method)
           (gameMode modId : string) (m : IMod) (s : St W)
  : Call (St W) unit :=
  let s0 := removal_start gameMode modId s in
  match undeployMod activators gameMode m s0 with
  | Throws e => Throws e
  | Returns run =>
      Returns ((promised run >>
                removeModFiles (installPathForGame (store s) gameMode) m) s0)
  end.

(** The events a run added to the trace. *)
Definition added (before after : St W) : list Event :=
  drop (length (trace before)) (trace after).

(** The promise leaves the store as it is and adds only events that are
    [allowed] to the trace. *)
Definition adds_only (allowed : Event -> bool) {A} (m : P A) : Prop :=
  forall s,
    store (snd (m s)) = store s /\
    exists evs, trace (snd (m s)) = (trace s ++ evs)%list /\
                forallb allowed evs = true.

(** The same of one run from the state [s], and of a call: when it
    returns a promise, that promise's run. *)
Definition run_adds_only (allowed : Event -> bool) {A} (s : St W)
           (run : Outcome A * St W) : Prop :=
  store (snd run) = store s /\
  exists evs, trace (snd run) = (trace s ++ evs)%list /\
              forallb allowed evs = true.

Definition call_adds_only (allowed : Event -> bool) {A}
           (c : St W -> Call (St W) A) : Prop :=
  forall s run, c s = Returns run -> run_adds_only allowed s run.

Definition not_dispatch (ev : Event) : bool := negb (is_dispatch ev).

Definition nothing (ev : Event) : bool := false.

(** What the [catch] handlers at the end of [onRemoveMod] do with an
    error: it goes to the callback, or, without one, into a notification
    (a [UserCanceled] is dropped). *)
Definition failure_events (callback : bool) (err : JsError) : list Event :=
  if callback then [EvCallback (Some err)]
  else
    match err_class err with
    | TemporaryError =>
        [EvErrorNotification "Failed to undeploy mod, please try again"
                             (DetailMessage (err_message err)) (Some false)]
    | ProcessCanceled =>
        [EvErrorNotification "Failed to remove mod" (DetailError err)
                             (Some false)]
    | UserCanceled => []
    | _ =>
        [EvErrorNotification "Failed to remove mod" (DetailError err) None]
    end.

(** The deletion of the staged files as the specification words it, over
    the outcomes of a first and a second [removeAsync] of the mod's
    directory: one retry on [ENOTEMPTY], [ENOENT] counts as done, any
    other error is the failure of the step. *)
Definition delete_staged_spec (target : string) (s : St W)
  : Outcome unit * St W :=
  let after w n :=
    mkSt (store s) w (trace s ++ repeat (EvRemoveAsync target) n) in
  let tolerate (r : Outcome unit) : Outcome unit :=
    match r with
    | inl _ => inl tt
    | inr e => if code_is "ENOENT" e then inl tt else inr e
    end in
  let '(r1, w1) := fs_removeAsync target (world s) in
  match r1 with
  | inr e1 =>
      if code_is "ENOTEMPTY" e1
      then let '(r2, w2) := fs_removeAsync target w1 in
           (tolerate r2, after w2 2)
      else (tolerate r1, after w1 1)
  | inl _ => (inl tt, after w1 1)
  end.

End Handlers.
End Orchestrator.

(* ===================================================================== *)
(** * Validation of the application's own files ([util/fileValidation.ts]) *)
(* ===================================================================== *)

Module FileValidation.

(** [s.split(sep)] for a one-character separator. *)
Fixpoint split (sep : ascii) (s : string) : list string :=
  match s with
  | EmptyString => [EmptyString]
  | String c rest =>
      if Ascii.eqb c sep
      then EmptyString :: split sep rest
      else match split sep rest with
           | first :: others => String c first :: others
           | [] => [String c EmptyString]
           end
  end.

Definition newline : ascii := Ascii.ascii_of_nat 10.
Definition colon : ascii := Ascii.ascii_of_nat 58.

(** The object [readHashList] builds: file name to recorded hash, the hash
    [undefined] ([None]) for a line without a colon. *)
Local Abbreviation HashList := (gmap string (option string)).

(** [prev[key] = hash] on an ordinary object: assigning a string or
    [undefined] to [__proto__] creates no property. *)
Definition obj_set (key : string) (hash : option string) (prev : HashList)
  : HashList :=
  if bool_decide (key = "__proto__") then prev else <[key := hash]> prev.

(** The reducer of [readHashList]: [const [key, hash] = line.split(':')]. *)
Definition add_line (prev : HashList) (line : string) : HashList :=
  match split colon line with
  | key :: rest => obj_set key (head rest) prev
  | [] => prev
  end.

(** [Object.keys(fileList)], in some order. *)
Definition Object_keys (fileList : HashList) : list string :=
  (map_to_list fileList).*1.

(** [result], the object the checks of the single files share. *)
Record Result := mkResult {
  missing : list string;
  changed : list string;
}.

#[global] Instance Result_eq_dec : EqDecision Result.
Proof. solve_decision. Defined.

(** The file system the validation reads, the hash and [path.join]. *)
Class Env := {
  fs_readFile : string -> Outcome string;
  md5_hex : string -> string;
  path_join : string -> string -> string;
}.

Section Validation.
Context `{Env}.

Local Abbreviation P := (M Result).

(** [readHashList(basePath)] *)
Definition readHashList (basePath : string) : Outcome HashList :=
  match fs_readFile (path_join basePath "md5sums.csv") with
  | inl data => inl (fold_left add_line (split newline data) ∅)
  | inr err => inr err
  end.

(** [hashFile(fullPath)] *)
Definition hashFile (fullPath : string) : P string :=
  fun s =>
    match fs_readFile fullPath with
    | inl fileData => (inl (md5_hex fileData), s)
    | inr err => (inr err, s)
    end.

Definition push_changed (fileName : string) : P unit :=
  effect (fun r => mkResult (missing r) (changed r ++ [fileName])).

Definition push_missing (fileName : string) : P unit :=
  effect (fun r => mkResult (missing r ++ [fileName]) (changed r)).

(** The check of one file, the function mapped over the keys. *)
Definition check_file (basePath : string) (fileList : HashList)
           (fileName : string) : P unit :=
  catch
    (let* hash := hashFile (path_join basePath fileName) in
     if negb (bool_decide (fileList !! fileName = Some (Some hash)))
     then push_changed fileName
     else resolve tt)
    (fun _ => push_missing fileName).

(** [Promise.all] over the checks, which complete in the order
    [completion]. *)
Fixpoint all_checks (basePath : string) (fileList : HashList)
         (completion : list string) : P unit :=
  match completion with
  | [] => resolve tt
  | fileName :: rest =>
      check_file basePath fileList fileName >>
      all_checks basePath fileList rest
  end.

(** The hash list [validateFiles] works with: the empty object when
    [readHashList] throws. *)
Definition fileList_of (basePath : string) : HashList :=
  match readHashList basePath with
  | inl fileList => fileList
  | inr _ => ∅
  end.

(** [validateFiles(basePath)]. The checks run concurrently; [completion],
    an ordering of the keys of the hash list, is the order in which they
    finish. *)
Definition validateFiles (basePath : string) (completion : list string)
  : Outcome Result :=
  let fileList := fileList_of basePath in
  match all_checks basePath fileList completion (mkResult [] []) with
  | (inl _, result) => inl result
  | (inr err, _) => inr err
  end.





End Validation.
End FileValidation.

(* ===================================================================== *)
(** * Concrete worlds *)
(* ===================================================================== *)

(** An in-memory file system with fault injection, for running the
    worker. *)
Module MemFs.
Import Worker.

Inductive FsNode :=
| NFile
| NDir
| NLink (target : string).

(** [faults]: what the next file-system calls do, one entry per call:
    [Some code] makes the call fail with that code, [None] lets it through. *)
Record MemW := mkMemW {
  nodes : gmap string FsNode;
  faults : list (option string);
}.

Definition fs_error (code : string) : JsError :=
  mkError OtherError (Some code) (code ++ ": operation failed").

Definition with_fault {A}
           (normal : gmap string FsNode -> Outcome A * gmap string FsNode)
           (w : MemW) : Outcome A * MemW :=
  match faults w with
  | Some code :: rest => (inr (fs_error code), mkMemW (nodes w) rest)
  | None :: rest =>
      let '(r, n) := normal (nodes w) in (r, mkMemW n rest)
  | [] =>
      let '(r, n) := normal (nodes w) in (r, mkMemW n [])
  end.

(** [path.dirname] of the posix flavour. [dirname_end] looks, from the
    end of the path down to its second character ([i] counts down with
    it), for the slash before the last segment, trailing slashes
    skipped. *)
Definition is_slash (c : Ascii.ascii) : bool :=
  Ascii.eqb c (Ascii.ascii_of_nat 47).

Fixpoint dirname_end (backwards : list Ascii.ascii) (i : nat)
         (matchedSlash : bool) : option nat :=
  match backwards with
  | [] => None
  | c :: rest =>
      if is_slash c
      then if matchedSlash
           then dirname_end rest (i - 1) true
           else Some i
      else dirname_end rest (i - 1) false
  end.

Definition dirname (p : string) : string :=
  match p with
  | EmptyString => "."
  | String c rest =>
      let hasRoot := is_slash c in
      match dirname_end (rev (list_ascii_of_string rest))
                        (String.length rest) true with
      | None => if hasRoot then "/" else "."
      | Some e =>
          if hasRoot && Nat.eqb e 1 then "//"
          else String.substring 0 e p
      end
  end.

#[global] Instance MemNode : Node MemW := {
  fs_ensureDir dir :=
    with_fault (fun n =>
      match n !! dir with
      | Some NDir => (inl None, n)
      | Some _ => (inr (fs_error "EEXIST"), n)
      | None => (inl (Some dir), <[dir := NDir]> n)
      end);
  fs_writeFile file data :=
    with_fault (fun n =>
      match n !! file with
      | Some NDir => (inr (fs_error "EISDIR"), n)
      | _ => (inl tt, <[file := NFile]> n)
      end);
  fs_remove target :=
    with_fault (fun n => (inl tt, delete target n));
  fs_symlink source destination :=
    with_fault (fun n =>
      match n !! destination with
      | Some _ => (inr (fs_error "EEXIST"), n)
      | None => (inl tt, <[destination := NLink source]> n)
      end);
  fs_lstat target :=
    with_fault (fun n =>
      match n !! target with
      | Some (NLink _) => (inl {| isSymbolicLink := true |}, n)
      | Some _ => (inl {| isSymbolicLink := false |}, n)
      | None => (inr (fs_error "ENOENT"), n)
      end);
  path_dirname := dirname;
  path_join a b := a ++ "/" ++ b;
  elapse _ w := w;
  platform_win32 := false;
}.

Definition start (n : gmap string FsNode) (f : list (option string))
  : St MemW :=
  mkSt (mkMemW n f) [].

End MemFs.

(** A scripted world for running the orchestration handlers: the user's
    answers to the dialogs, the files that can be read, and what the
    calls out of the program do. *)
Module Script.
Import Orchestrator.

Record ScriptW := mkScriptW {
  answers : list string;
  files : gmap string string;
  (* one entry per [removeAsync] call, as in [MemFs.faults] *)
  remove_faults : list (option string);
  (* the code [prepare] and [purge] fail with, if any *)
  method_fault : option string;
  deploy_error : option JsError;
}.

Definition fs_error (code : string) : JsError :=
  mkError OtherError (Some code) (code ++ ": operation failed").

(** The tag files of the scripted world are written [instance=<id>]; the
    text [null] stands for JSON's [null]. *)
Definition parse_tag (data : string) : option ParsedTag :=
  if bool_decide (data = "null") then Some TagNull
  else if String.prefix "instance=" data
       then Some (TagValue
                    (Some (String.substring 9 (String.length data - 9) data)))
       else if bool_decide (data = "{}") then Some (TagValue None)
            else None.

Definition scripted_method (id : string)
  : IDeploymentMethod ScriptW (list string) unit := {|
  act_id := id;
  prepare _ _ _ _ w :=
    (match method_fault w with
     | Some code => inr (fs_error code)
     | None => inl tt
     end, w);
  deactivate _ _ w := (inl tt, w);
  finalize _ _ _ w := (inl [], w);
  cancel := None;
  prePurge _ w := (inl tt, w);
  purge _ _ w :=
    (match method_fault w with
     | Some code => inr (fs_error code)
     | None => inl tt
     end, w);
  postPurge w := (inl tt, w);
|}.

#[global] Instance ScriptEnv : Env ScriptW (list string) unit := {
  showDialog_answer _ _ _ _ w :=
    match answers w with
    | a :: rest =>
        (a, mkScriptW rest (files w) (remove_faults w) (method_fault w)
                      (deploy_error w))
    | [] => ("Cancel", w)
    end;
  fs_readFileAsync file w :=
    (match files w !! file with
     | Some data => inl data
     | None => inr (fs_error "ENOENT")
     end, w);
  fs_removeAsync _ w :=
    match remove_faults w with
    | Some code :: rest =>
        (inr (fs_error code),
         mkScriptW (answers w) (files w) rest (method_fault w)
                   (deploy_error w))
    | None :: rest =>
        (inl tt,
         mkScriptW (answers w) (files w) rest (method_fault w)
                   (deploy_error w))
    | [] => (inl tt, w)
    end;
  JSON_parse := parse_tag;
  path_join a b := a ++ "/" ++ b;
  getGame gameId :=
    if bool_decide (gameId ∈ ["game1"; "game2"])
    then Some {| getModPaths p := [("", p ++ "/Data")] |}
    else None;
  genSubDirFunc _ _ := "";
  getNormalizeFunc _ w := (inl tt, w);
  loadActivation _ _ _ _ w := (inl None, w);
  saveActivation _ _ _ _ _ _ w := (inl tt, w);
  allTypesSupported _ _ _ _ := None;
  installPathForGame _ gameId := "/staging/" ++ gameId;
  deploy_mods w := (deploy_error w, w);
  truthy o := match o with
              | Some s => negb (bool_decide (s = ""))
              | None => false
              end;
}.

(** One game, [game1], discovered at [/game], with the mod [m1] in the
    catalog in the given state. The registry of the scripted world knows
    [game1] and [game2]. *)
Definition m1 (state : string) : IMod :=
  mkMod "m1" state None (Some "modA").

Definition app_state (modState : string) : IState :=
  mkState "instance-A"
          {[ "game1" := {[ "m1" := m1 modState ]} ]}
          ∅
          {[ "game1" := LastActiveId "profile1" ]}
          {[ "game1" := {| discovery_path := Some "/game" |} ]}
          {[ "game1" := "symlink" ]}
          [].

Definition start (modState : string) (w : ScriptW) : St ScriptW :=
  mkSt (app_state modState) w [].

Definition world0 : ScriptW := mkScriptW [] ∅ [] None None.

End Script.

(** A directory of three files and its hash list. *)
Module Files.
Import FileValidation.

Definition toy_hash (data : string) : string := "h(" ++ data ++ ")".

Definition hash_list : string :=
  String.concat (String newline EmptyString)
    ["good.dll:h(good)"; "bad.dll:h(original)"; "gone.dll:h(gone)"].

Definition disk (hashes : bool) (file : string) : Outcome string :=
  if bool_decide (file = "/app/md5sums.csv")
  then if hashes then inl hash_list
       else inr (mkError OtherError (Some "ENOENT") "no such file")
  else if bool_decide (file = "/app/good.dll") then inl "good"
  else if bool_decide (file = "/app/bad.dll") then inl "patched"
  else inr (mkError OtherError (Some "ENOENT") "no such file").

Definition env (hashes : bool) : Env := {|
  fs_readFile := disk hashes;
  md5_hex := toy_hash;
  path_join a b := a ++ "/" ++ b;
|}.

End Files.

(* ===================================================================== *)
(** * What the worker's handlers touch *)
(* ===================================================================== *)

Module WorkerFootprint.
Import Worker.

(** The time the timers among the events take, in ms. *)
Fixpoint total_delay (evs : list Event) : nat :=
  match evs with
  | [] => 0
  | EvDelay ms :: rest => ms + total_delay rest
  | _ :: rest => total_delay rest
  end.

(** The file-system calls among the events, in order. *)
Fixpoint fs_calls (evs : list Event) : list FsCall :=
  match evs with
  | [] => []
  | EvFs c :: rest => c :: fs_calls rest
  | _ :: rest => fs_calls rest
  end.

Section Footprint.
Context {W : Type} `{Node W}.

(** Every file-system call the promise makes is one of [allowed]. *)
Definition calls_within (allowed : FsCall -> Prop) {A} (m : M (St W) A)
  : Prop :=
  forall s, exists evs,
    trace (snd (m s)) = (trace s ++ evs)%list /\
    Forall allowed (fs_calls evs).

(** The calls of ['link-file']: the directory of the destination is made,
    a tag is written into a directory, the destination is removed, the
    link from the destination to the source is made. *)
Definition link_file_call (source destination : string) (c : FsCall)
  : Prop :=
  match c with
  | CEnsureDir dir => dir = path_dirname destination
  | CWriteFile file data =>
      (exists created, file = path_join created TAG_NAME) /\ data = TAG_TEXT
  | CRemove target => target = destination
  | CSymlink source' destination' =>
      source' = source /\ destination' = destination
  | CLstat _ => False
  end.

(** The calls of ['remove-link']: the destination is examined and
    removed. *)
Definition remove_link_call (destination : string) (c : FsCall) : Prop :=
  c = CLstat destination \/ c = CRemove destination.

End Footprint.
End WorkerFootprint.

(* ===================================================================== *)
(** * More of the orchestration handlers *)
(* ===================================================================== *)

Module OrchestratorMore.
Import Orchestrator.


(** The error notifications among the events. *)
Definition is_notification (ev : Event) : bool :=
  match ev with
  | EvErrorNotification _ _ _ => true
  | _ => false
  end.

(** What the two steps of a removal may add to the trace: dialogs, the
    ['deploy-mods'] event and deletions. *)
Definition is_removal_step (ev : Event) : bool :=
  match ev with
  | EvDialog _ _ _ _ => true
  | EvEmit _ => true
  | EvRemoveAsync _ => true
  | _ => false
  end.

Section Handlers.
Context {W Manifest Normalize : Type} `{Env W Manifest Normalize}.

Local Abbreviation P := (M (St W)).
Local Abbreviation Method := (IDeploymentMethod W Manifest Normalize).

(** The purge of every mod type, the [Promise.mapSeries] in the purge
    chain of [onGameModeActivated], before its [catch] handlers. *)
Definition purge_all (oldActivator : Method) (instPath : string)
           (modPaths : list (string * string)) : P unit :=
  mapSeries (map fst modPaths)
    (fun typeId =>
       match modPath_of modPaths typeId with
       | Some p => ext (purge oldActivator instPath p)
       | None => resolve tt
       end) >>
  resolve tt.

(** What the [catch] handlers of the purge chain show for an error of the
    purge. *)
Definition purge_notification (err : JsError) : list Event :=
  match err_class err with
  | ProcessCanceled => []
  | TemporaryError =>
      [EvErrorNotification "Purge failed, please try again"
                           (DetailMessage (err_message err)) (Some false)]
  | _ =>
      [EvErrorNotification "Purge failed" (DetailError err)
                           (Some (code_listed ["ENOENT"; "ENOTFOUND"] err))]
  end.

(** A promise that is fulfilled or rejected with [ProcessCanceled]. *)
Definition fulfilled_or_canceled {A} (r : Outcome A) : bool :=
  match r with
  | inl _ => true
  | inr e => instanceof e ProcessCanceled
  end.

(** The deployment method [undeploy] works with: the configured one, or,
    when none is configured, the first that supports all the mod types of
    the game. *)
Definition chosen_activator (activators : list Method) (state : IState)
           (gameMode : string) (modTypes : list string) : option Method :=
  match settings_activator state !! gameMode with
  | Some activatorId =>
      find_activator (fun act => bool_decide (act_id act = activatorId))
                     activators
  | None =>
      find_activator
        (fun act =>
           match allTypesSupported act state gameMode modTypes with
           | None => true
           | Some _ => false
           end)
        activators
  end.

(** The steps of [undeploy] that [tapCatch] guards: the normalize function
    and the last activation are fetched, the method prepares and
    deactivates the mod. *)
Definition deactivate_steps (activator : Method) (game : IGame)
           (deployPath stagingPath : string) (m : IMod) : P unit :=
  let* normalize := ext (getNormalizeFunc deployPath) in
  let* lastActivation :=
    ext (loadActivation (mod_type m) deployPath stagingPath activator) in
  ext (prepare activator deployPath false lastActivation normalize) >>
  match installationPath m with
  | Some p =>
      ext (deactivate activator (path_join stagingPath p)
                      (genSubDirFunc game m))
  | None => reject (TypeError "Path must be a string")
  end.

(** The world after [activator.cancel(gameMode, deployPath, stagingPath)],
    when the method has a [cancel]. *)
Definition canceled (activator : Method)
           (gameMode deployPath stagingPath : string) (w : W) : W :=
  match cancel activator with
  | Some cancel => snd (cancel gameMode deployPath stagingPath w)
  | None => w
  end.

(** The callback [onGameModeActivated] and [onPathsChanged] hand to
    [refreshMods] for the mods that are gone from the staging folder:
    [knownMods] is the catalog of the game when the handler started. *)
Fixpoint remove_missing (knownMods : gmap string IMod) (gameId : string)
         (modNames : list string) : P unit :=
  match modNames with
  | [] => resolve tt
  | name :: rest =>
      match knownMods !! name with
      | None => reject (TypeError "Cannot read property 'state' of undefined")
      | Some m =>
          (if bool_decide (mod_state m ∈ ["downloaded"; "installed"])
           then dispatch (removeMod gameId name)
           else resolve tt) >>
          remove_missing knownMods gameId rest
      end
  end.

(** The mods of [modNames] the callback removes. *)
Definition removable (knownMods : gmap string IMod) (name : string) : bool :=
  match knownMods !! name with
  | Some m => bool_decide (mod_state m ∈ ["downloaded"; "installed"])
  | None => false
  end.

End Handlers.
End OrchestratorMore.

(** More of the scripted world: a mod with nothing staged, and a catalog
    with mods in several states. *)
Module ScriptMore.
Import Orchestrator Script.

Definition bare_mod : IMod := mkMod "m1" "installed" None None.

Definition bare_state : IState :=
  mkState "instance-A"
          {[ "game1" := {[ "m1" := bare_mod ]} ]}
          ∅
          {[ "game1" := LastActiveId "profile1" ]}
          {[ "game1" := {| discovery_path := Some "/game" |} ]}
          {[ "game1" := "symlink" ]}
          [].

Definition known_mods : gmap string IMod :=
  {[ "old" := mkMod "old" "installed" None (Some "old");
     "fresh" := mkMod "fresh" "downloaded" None (Some "fresh");
     "busy" := mkMod "busy" "installing" None (Some "busy") ]}.

(** The catalog of [game3], a game that was discovered, at [/game3], but
    is not in the registry. *)
Definition unregistered_state : IState :=
  mkState "instance-A"
          {[ "game3" := {[ "m1" := m1 "installed" ]} ]}
          ∅
          {[ "game3" := LastActiveId "profile1" ]}
          {[ "game3" := {| discovery_path := Some "/game3" |} ]}
          {[ "game3" := "symlink" ]}
          [].

(** A mod of a type the game has no path for. *)
Definition enb_mod : IMod := mkMod "m1" "installed" (Some "enb") (Some "modA").

Definition tagged (instance : string) (answers : list string) : ScriptW :=
  mkScriptW answers
            {[ "/mods/__vortex_staging_folder" := "instance=" ++ instance ]}
            [] None None.

End ScriptMore.

(* ===================================================================== *)
(** * The assembly of a downloaded file ([FileAssembler.ts]) *)
(* ===================================================================== *)

From Stdlib Require Import DecimalString.

Module Assembler.

(** [fs.stat]'s result, as far as [create] looks at it. *)
Record Stats := { isDirectory : bool; size : Z }.

(** The calls into the file system; a descriptor is [None] where the code
    passes a [this.mFD] that is [undefined]. *)
Inductive FsCall :=
| CEnsureDir (dir : string)
| CStat (file : string)
| COpen (file flags : string)
| CClose (fd : option Z)
| CRename (from to : string)
| CWrite (fd : Z) (data : list Byte.byte) (offset : Z)
| CFsync (fd : option Z).

Inductive Event :=
| EvFs (c : FsCall)
| EvMessageBox (title : string) (buttons : list string).

(** The fields of a [FileAssembler]; [mWork], the queue of its work, is
    [None] when the promise is fulfilled and the error when it is
    rejected. *)
Record FileAssembler := mkAssembler {
  mFD : option Z;
  mFileName : string;
  mTotalSize : Z;
  mWork : option JsError;
  mWritten : Z;
  mLastFlushedTime : Z;
  mLastFlushedSize : Z;
}.

(** [util/fs], [fs-extra], the clock and the message box, over a world
    [W]. *)
Class Env (W : Type) := {
  fs_ensureDirAsync : string -> W -> Outcome unit * W;
  fs_statAsync : string -> W -> Outcome Stats * W;
  fs_openAsync : string -> string -> W -> Outcome Z * W;
  fs_closeAsync : option Z -> W -> Outcome unit * W;
  fs_renameAsync : string -> string -> W -> Outcome unit * W;
  (* [fsFast.write(fd, data, 0, data.length, offset)], the bytes written *)
  fsFast_write : Z -> list Byte.byte -> Z -> W -> Outcome Z * W;
  fs_fsyncAsync : option Z -> W -> Outcome unit * W;
  Date_now : W -> Z * W;
  (* [dialog.showMessageBox], the index of the button chosen *)
  showMessageBox : W -> Z * W;
  path_dirname : string -> string;
}.

(** The world and what was done to it, where there is no assembler yet. *)
Record Sys (W : Type) := mkSys {
  sys_world : W;
  sys_trace : list Event;
}.
Arguments mkSys {W}.
Arguments sys_world {W}.
Arguments sys_trace {W}.

(** The assembler ([this]) with the world. *)
Record St (W : Type) := mkSt {
  this : FileAssembler;
  world : W;
  trace : list Event;
}.
Arguments mkSt {W}.
Arguments this {W}.
Arguments world {W}.
Arguments trace {W}.

(** [MIN_FLUSH_SIZE]: flush at least every few megabytes *)
Definition MIN_FLUSH_SIZE : Z := 16 * 1024 * 1024.
(** [MIN_FLUSH_TIME]: flush at least once every few seconds *)
Definition MIN_FLUSH_TIME : Z := 5 * 1000.

(** [new FileAssembler(fileName, size, fd)] *)
Definition new_FileAssembler (fileName : string) (size fd : Z)
  : FileAssembler :=
  mkAssembler (Some fd) fileName size None 0 0 0.

(** [isClosed()] *)
Definition isClosed (a : FileAssembler) : bool :=
  match mFD a with
  | None => true
  | Some _ => false
  end.

Definition incomplete_write (bytesWritten length : Z) : JsError :=
  mkError OtherError None
          ("incomplete write "
           ++ NilZero.string_of_int (Z.to_int bytesWritten)
           ++ "/" ++ NilZero.string_of_int (Z.to_int length)).

(** How the promise [addChunk] returns is settled by its chain: resolved
    or rejected, or resolved with a new [addChunk] of the same chunk. *)
Inductive Settlement :=
| Settled (r : Outcome bool)
| Retry.

Section Assembler.
Context {W : Type} `{Env W}.

Local Abbreviation P := (M (St W)).

(** One call into the file system, before there is an assembler. *)
Definition sysCall {A} (c : FsCall) (op : W -> Outcome A * W)
  : M (Sys W) A :=
  fun s =>
    let '(r, w') := op (sys_world s) in
    (r, mkSys w' (sys_trace s ++ [EvFs c])).

(** One call into the file system. *)
Definition fsCall {A} (c : FsCall) (op : W -> Outcome A * W) : P A :=
  fun s =>
    let '(r, w') := op (world s) in
    (r, mkSt (this s) w' (trace s ++ [EvFs c])).

(** An assignment to fields of [this]. *)
Definition update (f : FileAssembler -> FileAssembler) : P unit :=
  effect (fun s => mkSt (f (this s)) (world s) (trace s)).

Definition set_mFD (fd : option Z) (a : FileAssembler) : FileAssembler :=
  mkAssembler fd (mFileName a) (mTotalSize a) (mWork a) (mWritten a)
              (mLastFlushedTime a) (mLastFlushedSize a).

Definition set_mFileName (name : string) (a : FileAssembler)
  : FileAssembler :=
  mkAssembler (mFD a) name (mTotalSize a) (mWork a) (mWritten a)
              (mLastFlushedTime a) (mLastFlushedSize a).

Definition set_mTotalSize (size : Z) (a : FileAssembler) : FileAssembler :=
  mkAssembler (mFD a) (mFileName a) size (mWork a) (mWritten a)
              (mLastFlushedTime a) (mLastFlushedSize a).

Definition set_mWork (work : option JsError) (a : FileAssembler)
  : FileAssembler :=
  mkAssembler (mFD a) (mFileName a) (mTotalSize a) work (mWritten a)
              (mLastFlushedTime a) (mLastFlushedSize a).

Definition set_mWritten (written : Z) (a : FileAssembler) : FileAssembler :=
  mkAssembler (mFD a) (mFileName a) (mTotalSize a) (mWork a) written
              (mLastFlushedTime a) (mLastFlushedSize a).

Definition set_flushed (size time : Z) (a : FileAssembler) : FileAssembler :=
  mkAssembler (mFD a) (mFileName a) (mTotalSize a) (mWork a) (mWritten a)
              time size.

(** The first part of [create]: whether the file is there, with its size;
    the [catch] turns every failure, the directory in the way included,
    into a file that is not there. *)
Definition probe (fileName : string) : M (Sys W) (option Z) :=
  catch
    (sysCall (CEnsureDir (path_dirname fileName))
             (fs_ensureDirAsync (path_dirname fileName)) >>
     let* stats := sysCall (CStat fileName) (fs_statAsync fileName) in
     if isDirectory stats
     then reject (mkError OtherError None "Download target is a directory")
     else resolve (Some (size stats)))
    (fun _ => resolve None).

(** [FileAssembler.create(fileName)] *)
Definition create (fileName : string) : M (Sys W) FileAssembler :=
  let* existing := probe fileName in
  let flags := match existing with Some _ => "r+" | None => "w" end in
  let size := match existing with Some size => size | None => 0%Z end in
  let* fd := sysCall (COpen fileName flags) (fs_openAsync fileName flags) in
  resolve (new_FileAssembler fileName size fd).

(** [this.mWork], as a promise. *)
Definition work : P unit :=
  fun s =>
    match mWork (this s) with
    | Some e => (inr e, s)
    | None => (inl tt, s)
    end.

(** [this.mWork = chain]: the queue becomes what the chain settles as. *)
Definition queue {A} (chain : P A) : P A :=
  fun s =>
    let '(r, s') := chain s in
    (r, mkSt (set_mWork (match r with inl _ => None | inr e => Some e end)
                        (this s'))
             (world s') (trace s')).

(** [setTotalSize(size)] *)
Definition setTotalSize (size : Z) : P unit :=
  queue (work >> update (set_mTotalSize size)).

(** [rename(newName)]; [newName], a string or a promise, by how it
    settles. *)
Definition rename (newName : Outcome string) : P unit :=
  queue
    (work >>
     let* resolved := (fun s => (newName, s)) in
     let* a := gets this in
     fsCall (CClose (mFD a)) (fs_closeAsync (mFD a)) >>
     let* a := gets this in
     fsCall (CRename (mFileName a) resolved)
            (fs_renameAsync (mFileName a) resolved) >>
     update (set_mFileName resolved) >>
     let* fd := fsCall (COpen resolved "r+") (fs_openAsync resolved "r+") in
     update (set_mFD (Some fd))).

(** The second [then] of [addChunk]: the bytes are counted, and the file
    is flushed when enough was written or enough time has passed since
    the last flush. The result is the bytes written and [synced]. *)
Definition count_and_flush (bytesWritten : Z) : P (Z * bool) :=
  let* a := gets this in
  let written := (mWritten a + bytesWritten)%Z in
  update (set_mWritten written) >>
  let* now := (fun s => let '(now, w') := Date_now (world s) in
                        (inl now, mkSt (this s) w' (trace s))) in
  if (MIN_FLUSH_SIZE <? written - mLastFlushedSize a)%Z
     || (MIN_FLUSH_TIME <? now - mLastFlushedTime a)%Z
  then
    update (set_flushed written now) >>
    fsCall (CFsync (mFD a)) (fs_fsyncAsync (mFD a)) >>
    resolve (bytesWritten, true)
  else resolve (bytesWritten, false).

(** The chain [addChunk] puts on the queue. *)
Definition addChunk_chain (offset : Z) (data : list Byte.byte)
  : P Settlement :=
  catch
    (catchIf (code_is "ENOSPC")
       (work >>
        let* a := gets this in
        let* bytesWritten :=
          match mFD a with
          | None => reject (new_ProcessCanceled "file already closed")
          | Some fd =>
              fsCall (CWrite fd data offset) (fsFast_write fd data offset)
          end in
        let* counted := count_and_flush bytesWritten in
        if negb (fst counted =? Z.of_nat (length data))%Z
        then resolve
               (Settled (inr (incomplete_write (fst counted)
                                               (Z.of_nat (length data)))))
        else resolve (Settled (inl (snd counted))))
       (fun _ =>
          fun s =>
            let '(button, w') := showMessageBox (world s) in
            (inl (if (button =? 1)%Z
                  then Retry
                  else Settled (inr new_UserCanceled)),
             mkSt (this s) w'
                  (trace s ++ [EvMessageBox "Disk is full"
                                            ["Cancel"; "Retry"]]))))
    (fun err => resolve (Settled (inr err))).

(** [addChunk(offset, data)]; how the promise it returns settles, within
    [fuel] attempts at the chunk. *)
Fixpoint addChunk (fuel : nat) (offset : Z) (data : list Byte.byte)
         (s : St W) : option (Outcome bool * St W) :=
  match fuel with
  | O => None
  | S fuel' =>
      match queue (addChunk_chain offset data) s with
      | (inl (Settled r), s') => Some (r, s')
      | (inl Retry, s') => addChunk fuel' offset data s'
      | (inr e, s') => Some (inr e, s')
      end
  end.

(** The state in which attempt number [k] (from 0) at a chunk starts,
    the earlier attempts having ended in a retry. *)
Fixpoint after_attempts (k : nat) (offset : Z) (data : list Byte.byte)
         (s : St W) : St W :=
  match k with
  | O => s
  | S k' =>
      after_attempts k' offset data
                     (snd (queue (addChunk_chain offset data) s))
  end.

(** [close()] *)
Definition close : P unit :=
  queue
    (work >>
     let* a := gets this in
     match mFD a with
     | Some fd =>
         update (set_mFD None) >>
         catchIf (code_is "ENOENT")
           (catchIf (code_is "EBADF")
              (fsCall (CFsync (Some fd)) (fs_fsyncAsync (Some fd)))
              (fun _ => resolve tt))
           (fun _ => resolve tt) >>
         fsCall (CClose (Some fd)) (fs_closeAsync (Some fd))
     | None => resolve tt
     end).

(** The events a run added to the trace. *)
Definition added (before after : St W) : list Event :=
  drop (length (trace before)) (trace after).

End Assembler.
End Assembler.

(** A scripted disk for running the assembler: the files with their sizes,
    the directories, faults as in [MemFs], the clock, and the buttons the
    user will press. *)
Module Disk.
Import Assembler.

Record DiskW := mkDiskW {
  file_sizes : gmap string Z;
  directories : list string;
  faults : list (option string);
  next_fd : Z;
  clock : Z;
  buttons : list Z;
}.

Definition fs_error (code : string) : JsError :=
  mkError OtherError (Some code) (code ++ ": operation failed").

Definition with_fault {A} (normal : DiskW -> Outcome A * DiskW) (w : DiskW)
  : Outcome A * DiskW :=
  let rest := tail (faults w) in
  let w' := mkDiskW (file_sizes w) (directories w) rest (next_fd w)
                    (clock w) (buttons w) in
  match faults w with
  | Some code :: _ => (inr (fs_error code), w')
  | _ => normal w'
  end.

#[global] Instance DiskEnv : Env DiskW := {
  fs_ensureDirAsync _ := with_fault (fun w => (inl tt, w));
  fs_statAsync file :=
    with_fault (fun w =>
      if bool_decide (file ∈ directories w)
      then (inl {| isDirectory := true; size := 0 |}, w)
      else match file_sizes w !! file with
           | Some n => (inl {| isDirectory := false; size := n |}, w)
           | None => (inr (fs_error "ENOENT"), w)
           end);
  fs_openAsync file _ :=
    with_fault (fun w =>
      if bool_decide (file ∈ directories w)
      then (inr (fs_error "EISDIR"), w)
      else (inl (next_fd w),
            mkDiskW (file_sizes w) (directories w) (faults w)
                    (next_fd w + 1) (clock w) (buttons w)));
  fs_closeAsync _ := with_fault (fun w => (inl tt, w));
  fs_renameAsync _ _ := with_fault (fun w => (inl tt, w));
  fsFast_write _ data _ :=
    with_fault (fun w => (inl (Z.of_nat (length data)), w));
  fs_fsyncAsync _ := with_fault (fun w => (inl tt, w));
  Date_now w := (clock w, w);
  showMessageBox w :=
    match buttons w with
    | b :: rest =>
        (b, mkDiskW (file_sizes w) (directories w) (faults w) (next_fd w)
                    (clock w) rest)
    | [] => (0%Z, w)
    end;
  path_dirname _ := "/downloads";
}.

Definition disk (fs : list (option string)) (bs : list Z) : DiskW :=
  mkDiskW {[ "/downloads/mod.7z" := 4096%Z ]} ["/downloads/dir"] fs 3
          1600000000000 bs.

(** An assembler of [/downloads/mod.7z], open on descriptor 3. *)
Definition opened (fs : list (option string)) (bs : list Z) : St DiskW :=
  mkSt (new_FileAssembler "/downloads/mod.7z" 4096 3) (disk fs bs) [].

Definition chunk : list Byte.byte := [Byte.x01; Byte.x02; Byte.x03].

End Disk.

(* ===================================================================== *)
(** * The session reducer of the rule editor ([sessionReducer]) *)
(* ===================================================================== *)

Module Session.

(** An [id] as the reducer tests it: [undefined], [null], or a value. *)
Inductive Id :=
| IdUndefined
| IdNull
| IdValue (id : string).

#[global] Instance Id_eq_dec : EqDecision Id.
Proof. solve_decision. Defined.

Section Reducer.
(** The positions on the screen and the values of the dialog's fields. *)
Context {Pos V : Type}.

(** The payload of [setSource] and [setTarget]: [pos] is [None] when it
    is [undefined]. *)
Record Endpoint := mkEndpoint {
  ep_id : Id;
  ep_pos : option Pos;
}.

(** [state.connection], once it is an object. *)
Record Connection := mkConnection {
  source : option Endpoint;
  target : option Endpoint;
}.

Record State := mkState {
  connection : option Connection;
  dialog : option (gmap string V);
}.

(** [defaults] *)
Definition defaults : State := mkState None None.

(** [util.getSafe(state, ['connection', 'source', 'id'], undefined)] *)
Definition source_id (state : State) : Id :=
  match connection state with
  | Some c => match source c with
              | Some e => ep_id e
              | None => IdUndefined
              end
  | None => IdUndefined
  end.

(** [util.getSafe(state, ['connection', 'target', 'id'], undefined)] *)
Definition target_id (state : State) : Id :=
  match connection state with
  | Some c => match target c with
              | Some e => ep_id e
              | None => IdUndefined
              end
  | None => IdUndefined
  end.

(** [util.setSafe(state, ['connection', 'source'], value)]: a copy of the
    state with the value at the path, the objects on the way made where
    they are missing. *)
Definition set_source (value : option Endpoint) (state : State) : State :=
  mkState (Some (mkConnection value
                   (match connection state with
                    | Some c => target c
                    | None => None
                    end)))
          (dialog state).

(** [util.setSafe(state, ['connection', 'target'], value)] *)
Definition set_target (value : option Endpoint) (state : State) : State :=
  mkState (Some (mkConnection
                   (match connection state with
                    | Some c => source c
                    | None => None
                    end)
                   value))
          (dialog state).

(** The reducer of [setSource]. *)
Definition setSource (payload : Endpoint) (state : State) : State :=
  match ep_pos payload with
  | Some _ => set_source (Some payload) state
  | None =>
      if bool_decide (ep_id payload = source_id state)
      then set_source None state
      else state
  end.

(** [state.connection === undefined || state.connection.target ===
    undefined || state.connection.target.id === undefined ||
    state.connection.target.id === null] *)
Definition no_real_target (state : State) : bool :=
  match connection state with
  | None => true
  | Some c =>
      match target c with
      | None => true
      | Some e =>
          match ep_id e with
          | IdUndefined => true
          | IdNull => true
          | IdValue _ => false
          end
      end
  end.

(** The reducer of [setTarget]. *)
Definition setTarget (payload : Endpoint) (state : State) : State :=
  if (match ep_pos payload with Some _ => true | None => false end)
     && (negb (bool_decide (ep_id payload = IdNull))
         || no_real_target state)
  then set_target (Some payload) state
  else if bool_decide (ep_id payload = target_id state)
       then set_target None state
       else state.

(** The reducer of [setCreateRule]. *)
Definition setCreateRule (payload : gmap string V) (state : State) : State :=
  mkState (connection state) (Some payload).

(** The reducer of [closeDialog]. *)
Definition closeDialog (state : State) : State :=
  mkState (connection state) None.

(** The reducer of [setType]: [util.setSafe(state, ['dialog', 'type'],
    payload)]. *)
Definition setType (payload : V) (state : State) : State :=
  mkState (connection state)
          (Some (<["type" := payload]>
                   (match dialog state with
                    | Some d => d
                    | None => ∅
                    end))).

(** The source and the target of a state. *)
Definition state_source (state : State) : option Endpoint :=
  match connection state with
  | Some c => source c
  | None => None
  end.

Definition state_target (state : State) : option Endpoint :=
  match connection state with
  | Some c => target c
  | None => None
  end.

End Reducer.

Arguments Endpoint : clear implicits.
Arguments Connection : clear implicits.
Arguments State : clear implicits.

End Session.

(* ===================================================================== *)
(** * Changes of the mod table ([onModsChanged]) *)
(* ===================================================================== *)

Module ModsChanged.

(** An array of the state, by its identity and its length. *)
Record JsArray := mkArray {
  array_ref : nat;
  array_length : nat;
}.

(** The attributes of a mod [onModsChanged] compares, [None] when
    [undefined]. *)
Record ModAttributes := mkAttributes {
  rules : option JsArray;
  fileOverrides : option JsArray;
}.

(** The mods of a game: the object, by its identity, and its entries. *)
Record GameMods := mkGameMods {
  table_ref : nat;
  table_mods : gmap string ModAttributes;
}.

(** [empty(input)] *)
Definition empty (input : option JsArray) : bool :=
  match input with
  | None => true
  | Some a => Nat.eqb (array_length a) 0
  end.

(** [lhs !== rhs] *)
Definition not_same (lhs rhs : option JsArray) : bool :=
  match lhs, rhs with
  | None, None => false
  | Some a, Some b => negb (Nat.eqb (array_ref a) (array_ref b))
  | _, _ => true
  end.

(** [different(lhs, rhs)] *)
Definition different (lhs rhs : option JsArray) : bool :=
  (negb (empty lhs) || negb (empty rhs)) && not_same lhs rhs.

(** [previous[gameMode] !== current[gameMode]] *)
Definition tables_differ (previous current : option GameMods) : bool :=
  match previous, current with
  | None, None => false
  | Some p, Some c => negb (Nat.eqb (table_ref p) (table_ref c))
  | _, _ => true
  end.

(** [rulesOrOverridesChanged(modId)], for a mod id of the current
    table. *)
Definition rulesOrOverridesChanged (previous : option GameMods)
           (current : GameMods) (modId : string) : bool :=
  match previous ≫= (fun p => table_mods p !! modId),
        table_mods current !! modId with
  | Some pm, Some cm =>
      different (rules pm) (rules cm)
      || different (fileOverrides pm) (fileOverrides cm)
  | _, _ => false
  end.

(** [onModsChanged(api, previous, current)]: whether
    [setDeploymentNecessary(gameMode, true)] is dispatched; [needToDeploy]
    is [state.persistent.deployment.needToDeploy[gameMode]]. [Object.keys]
    of an [undefined] table throws. *)
Definition onModsChanged (previous current : gmap string GameMods)
           (needToDeploy : bool) (gameMode : string) : Outcome bool :=
  if tables_differ (previous !! gameMode) (current !! gameMode)
     && negb needToDeploy
  then
    match current !! gameMode with
    | None =>
        inr (Orchestrator.TypeError
               "Cannot convert undefined or null to object")
    | Some c =>
        inl (existsb (rulesOrOverridesChanged (previous !! gameMode) c)
                     (map_to_list (table_mods c)).*1)
    end
  else inl false.

End ModsChanged.

(* ===================================================================== *)
(** * Theorems *)
(* ===================================================================== *)

Open Scope list_scope.

(** ** Promise chains *)

Lemma andThen_resolved {S A B} (m : M S A) (f : A -> M S B) s a s' :
  m s = (inl a, s') -> andThen m f s = f a s'.
Proof. intros Hm. unfold andThen. now rewrite Hm. Qed.

Lemma andThen_rejected {S A B} (m : M S A) (f : A -> M S B) s e s' :
  m s = (inr e, s') -> andThen m f s = (inr e, s').
Proof. intros Hm. unfold andThen. now rewrite Hm. Qed.

Lemma catch_resolved {S A} (m : M S A) h s a s' :
  m s = (inl a, s') -> catch m h s = (inl a, s').
Proof. intros Hm. unfold catch. now rewrite Hm. Qed.


(** ** The link worker *)

Module WorkerFacts.
Import Worker.

Section Facts.
Context {W : Type} `{Node W}.

Local Abbreviation P := (M (St W)).

Lemma doFS_eq {A} (op : P A) tries s :
  doFS op tries s =
  match op s with
  | (inl a, s') => (inl a, s')
  | (inr e, s') =>
      match tries with
      | S tries' =>
          if RETRY_ERRORS_has (err_code e)
          then doFS op tries' (snd (delayed 100 s'))
          else (inr e, s')
      | O => (inr e, s')
      end
  end.
Proof.
  destruct tries; simpl; unfold catch; destruct (op s) as [[a|e] s'];
    try reflexivity.
  destruct (RETRY_ERRORS_has (err_code e)); reflexivity.
Qed.

Lemma before_attempt_shift {A} (op : P A) s k :
  before_attempt op s (S k) = before_attempt op (before_attempt op s 1) k.
Proof.
  induction k as [|k IH]; [reflexivity|].
  change (before_attempt op s (S (S k)))
    with (snd (delayed 100 (snd (op (before_attempt op s (S k)))))).
  rewrite IH. reflexivity.
Qed.

Lemma attempt_shift {A} (op : P A) s k :
  attempt op s (S k) = attempt op (before_attempt op s 1) k.
Proof. unfold attempt. now rewrite before_attempt_shift. Qed.

(** [doFS] settles like the first attempt that does not fail with a
    transient code, or like the last attempt it is allowed. *)
Lemma doFS_attempts {A} (op : P A) tries s n :
  n <= tries ->
  (forall k, k < n -> transient (fst (attempt op s k)) = true) ->
  (n = tries \/ transient (fst (attempt op s n)) = false) ->
  doFS op tries s = attempt op s n.
Proof.
  revert tries s. induction n as [|n IH]; intros tries s Hle Hbefore Hlast.
  - rewrite doFS_eq. unfold attempt in *. simpl in *.
    destruct (op s) as [[a|e] s'] eqn:Hop; [reflexivity|].
    destruct tries as [|tries']; [reflexivity|].
    destruct Hlast as [Hn|Hlast]; [lia|]. simpl in Hlast.
    now rewrite Hlast.
  - destruct tries as [|tries']; [lia|].
    rewrite doFS_eq.
    pose proof (Hbefore 0 ltac:(lia)) as H0. unfold attempt in H0.
    simpl in H0.
    destruct (op s) as [[a|e] s'] eqn:Hop; [discriminate|].
    simpl in H0. rewrite H0.
    rewrite attempt_shift. simpl before_attempt. rewrite Hop. simpl snd.
    apply IH.
    + lia.
    + intros k Hk. specialize (Hbefore (S k) ltac:(lia)).
      rewrite attempt_shift in Hbefore. simpl before_attempt in Hbefore.
      now rewrite Hop in Hbefore.
    + destruct Hlast as [Hn|Hlast]; [left; lia|right].
      rewrite attempt_shift in Hlast. simpl before_attempt in Hlast.
      now rewrite Hop in Hlast.
Qed.

(** There always is such an attempt: [doFS] settles. *)
Lemma doFS_settles {A} (op : P A) tries s :
  exists n, n <= tries /\
    (forall k, k < n -> transient (fst (attempt op s k)) = true) /\
    (n = tries \/ transient (fst (attempt op s n)) = false).
Proof.
  revert s. induction tries as [|tries IH]; intros s.
  - exists 0. split; [lia|]. split; [intros k Hk; lia | now left].
  - destruct (transient (fst (attempt op s 0))) eqn:H0.
    + destruct (IH (before_attempt op s 1)) as (n & Hle & Hbefore & Hlast).
      exists (S n). split; [lia|]. split.
      * intros [|k] Hk; [exact H0|].
        rewrite attempt_shift. apply Hbefore. lia.
      * rewrite attempt_shift.
        destruct Hlast as [->|Hlast]; [now left | now right].
    + exists 0. split; [lia|]. split; [intros k Hk; lia | now right].
Qed.

Lemma attempt_fsCall_trace {A} c (raw : W -> Outcome A * W) s n :
  trace (snd (attempt (fsCall c raw) s n)) = trace s ++ attempts_trace c n.
Proof.
  revert s. induction n as [|n IH]; intros s.
  - unfold attempt, fsCall. simpl. now destruct (raw (world s)).
  - rewrite attempt_shift, IH. simpl. unfold fsCall.
    destruct (raw (world s)). simpl. rewrite <- !app_assoc. reflexivity.
Qed.

Lemma doFS_fsCall_trace {A} c (raw : W -> Outcome A * W) tries s :
  exists n, n <= tries /\
    trace (snd (doFS (fsCall c raw) tries s)) = trace s ++ attempts_trace c n.
Proof.
  destruct (doFS_settles (fsCall c raw) tries s) as (n & Hle & Hb & Hl).
  exists n. split; [exact Hle|].
  rewrite (doFS_attempts _ _ _ n Hle Hb Hl). apply attempt_fsCall_trace.
Qed.

Lemma attempts_trace_first c n : EvFs c ∈ attempts_trace c n.
Proof. destruct n; simpl; apply list_elem_of_here. Qed.

Lemma attempts_trace_events c n ev :
  ev ∈ attempts_trace c n -> ev = EvFs c \/ ev = EvDelay 100.
Proof.
  induction n as [|n IH]; simpl; intros Hin.
  - apply list_elem_of_singleton in Hin. now left.
  - apply elem_of_cons in Hin as [->|Hin]; [now left|].
    apply elem_of_cons in Hin as [->|Hin]; [now right|]. now apply IH.
Qed.

Lemma attempts_trace_step c n : forallb is_step (attempts_trace c n) = true.
Proof. induction n as [|n IH]; simpl; [reflexivity | exact IH]. Qed.

Lemma step_not_completed evs :
  forallb is_step evs = true -> List.filter is_completed evs = [].
Proof.
  induction evs as [|ev evs IH]; [reflexivity|]. simpl.
  intros [Hev Hevs]%andb_prop. rewrite (IH Hevs).
  destruct ev as [| |message []]; simpl in *; try discriminate; reflexivity.
Qed.

Lemma attempts_trace_no_remove c n :
  (forall target, c <> CRemove target) ->
  forall target, EvFs (CRemove target) ∉ attempts_trace c n.
Proof.
  intros Hc target Hin.
  apply attempts_trace_events in Hin as [Heq|Heq]; [|discriminate].
  injection Heq as Heq. now apply (Hc target).
Qed.

(** C3. An operation run through [doFS] with the default number of tries
    is attempted again, after a timer of 100 ms, as long as it fails with
    a code of [RETRY_ERRORS], at most 5 more times after the first attempt.
    [doFS] settles exactly like attempt number [n], the first one that
    succeeds or fails with a code outside the set ([n = 0]: such an error
    rejects at once, without a retry), or the sixth attempt when all six
    fail with such codes: its error is rejected as the operation raised
    it. For a file-system call the events are the [n + 1] calls with a
    100 ms timer before each retry. *)
Theorem doFS_retry_policy {A} (op : P A) s n :
  n <= default_tries ->
  (forall k, k < n -> transient (fst (attempt op s k)) = true) ->
  (n = default_tries \/ transient (fst (attempt op s n)) = false) ->
  doFS op default_tries s = attempt op s n /\
  (forall c raw, op = fsCall c raw ->
     trace (snd (doFS op default_tries s)) = trace s ++ attempts_trace c n).
Proof.
  intros Hle Hbefore Hlast.
  assert (Heq : doFS op default_tries s = attempt op s n)
    by now apply doFS_attempts.
  split; [exact Heq|].
  intros c raw ->. rewrite Heq. apply attempt_fsCall_trace.
Qed.

(** C4. The ['remove-link'] handler never rejects and sends exactly one
    ['completed'] message, with the request's [num], as its last event.
    It calls [remove] only on the destination and only when [lstat]
    (through [doFS]) succeeded and reported a symbolic link; then it does
    call it. When [lstat] reports anything else, or fails, nothing is
    removed. *)
Theorem remove_link_only_symlinks destination num s :
  exists evs err,
    fst (remove_link destination num s) = inl tt /\
    trace (snd (remove_link destination num s))
    = trace s ++ evs ++ [EvSend "completed" (PCompleted err num)] /\
    List.filter is_completed evs = [] /\
    match doFS (lstat destination) default_tries s with
    | (inl stats, _) =>
        if isSymbolicLink stats
        then EvFs (CRemove destination) ∈ evs /\
             (forall target, EvFs (CRemove target) ∈ evs ->
                             target = destination)
        else (forall target, EvFs (CRemove target) ∉ evs) /\ err = None
    | (inr e, _) =>
        (forall target, EvFs (CRemove target) ∉ evs) /\
        err = Some (mkError PlainObject (err_code e) (err_message e))
    end.
Proof.
  unfold remove_link, catch, andThen.
  destruct (doFS_fsCall_trace (CLstat destination) (fs_lstat destination)
              default_tries s) as (n1 & _ & Ht1).
  fold (lstat destination) in Ht1.
  destruct (doFS (lstat destination) default_tries s) as [[stats|e] s1].
  - simpl in Ht1. destruct (isSymbolicLink stats).
    + destruct (doFS_fsCall_trace (CRemove destination)
                  (fs_remove destination) default_tries s1) as (n2 & _ & Ht2).
      fold (remove destination) in Ht2.
      exists (attempts_trace (CLstat destination) n1
              ++ attempts_trace (CRemove destination) n2).
      destruct (doFS (remove destination) default_tries s1) as [[[]|e] s2];
        simpl in Ht2;
        [exists None | exists (Some (mkError PlainObject (err_code e)
                                             (err_message e)))];
        simpl; rewrite Ht2, Ht1, <- !app_assoc;
        (split; [reflexivity|]); (split; [reflexivity|]);
        (split; [apply step_not_completed; rewrite forallb_app,
                   !attempts_trace_step; reflexivity|]);
        (split; [apply elem_of_app; right; apply attempts_trace_first|]);
        intros target [Hin|Hin]%elem_of_app;
        apply attempts_trace_events in Hin as [Heq|Heq]; congruence.
    + exists (attempts_trace (CLstat destination) n1), None.
      simpl. rewrite Ht1, <- !app_assoc.
      split; [reflexivity|]. split; [reflexivity|].
      split; [apply step_not_completed, attempts_trace_step|].
      split; [|reflexivity].
      apply attempts_trace_no_remove. discriminate.
  - simpl in Ht1.
    exists (attempts_trace (CLstat destination) n1),
           (Some (mkError PlainObject (err_code e) (err_message e))).
    simpl. rewrite Ht1, <- !app_assoc.
    split; [reflexivity|]. split; [reflexivity|].
    split; [apply step_not_completed, attempts_trace_step|].
    split; [|reflexivity].
    apply attempts_trace_no_remove. discriminate.
Qed.

(** *** Which events the steps of a handler add *)












Lemma link_file_eq source destination num s :
  link_file source destination num s =
  match (prepare_destination destination >>
         create_link source destination) s with
  | (inl _, s') =>
      (inl tt,
       record (EvSend "completed" (PCompleted None num))
         (record (EvSend "log"
                    (PLog "debug" "installed"
                       [("source", source); ("destination", destination)]))
                 s'))
  | (inr e, s') =>
      (inl tt,
       record (EvSend "completed" (PCompleted (Some e) num))
         (record (if code_is "EISDIR" e
                  then EvSend "report" (PReport "not-supported")
                  else EvSend "log"
                         (PLog "error" "failed to install symlink"
                            [("err", err_message e)]))
                 s'))
  end.
Proof.
  unfold link_file, catch, andThen.
  destruct (prepare_destination destination s) as [[[]|e] s1].
  - destruct (create_link source destination s1) as [[[]|e] s2];
      [reflexivity|].
    destruct (code_is "EISDIR" e); reflexivity.
  - destruct (code_is "EISDIR" e); reflexivity.
Qed.


End Facts.

(** *** The worker on the in-memory file system *)

Import MemFs.

Lemma doFS_retry_policy_witness :
  let op := remove "/game/Data/a" in
  let s := start ∅ [Some "EBUSY"; Some "EBUSY"; None] in
  (2 <= default_tries /\
   (forall k, k < 2 -> transient (fst (attempt op s k)) = true) /\
   (2 = default_tries \/ transient (fst (attempt op s 2)) = false)) /\
  doFS op default_tries s = attempt op s 2 /\
  (forall c raw, op = fsCall c raw ->
     trace (snd (doFS op default_tries s)) = trace s ++ attempts_trace c 2).
Proof.
  intros op s.
  assert (H1 : 2 <= default_tries) by (unfold default_tries; lia).
  assert (H2 : forall k, k < 2 -> transient (fst (attempt op s k)) = true)
    by (intros [|[|k]] Hk; [reflexivity | reflexivity | lia]).
  assert (H3 : 2 = default_tries \/ transient (fst (attempt op s 2)) = false)
    by (right; reflexivity).
  split; [now repeat split|].
  exact (doFS_retry_policy op s 2 H1 H2 H3).
Defined.

(** Two [EBUSY] failures, then the call goes through: three calls, two
    timers. *)
Example doFS_clears :
  let s := start {[ "/game/Data/a" := NLink "/staging/modA/a" ]}
                 [Some "EBUSY"; Some "EBUSY"; None] in
  fst (doFS (remove "/game/Data/a") default_tries s) = inl tt /\
  trace (snd (doFS (remove "/game/Data/a") default_tries s))
  = [EvFs (CRemove "/game/Data/a"); EvDelay 100;
     EvFs (CRemove "/game/Data/a"); EvDelay 100;
     EvFs (CRemove "/game/Data/a")].
Proof. split; vm_compute; reflexivity. Qed.

(** [EBUSY] on every attempt: six calls, five timers (500 ms), and the
    operation's error is what [doFS] rejects with. *)
Example doFS_exhausted :
  let s := start ∅ (repeat (Some "EBUSY") 10) in
  fst (doFS (remove "/game/Data/a") default_tries s)
  = inr (fs_error "EBUSY") /\
  List.filter (fun ev => bool_decide (ev = EvDelay 100))
              (trace (snd (doFS (remove "/game/Data/a") default_tries s)))
  = repeat (EvDelay 100) 5 /\
  List.filter (fun ev => bool_decide (ev = EvFs (CRemove "/game/Data/a")))
              (trace (snd (doFS (remove "/game/Data/a") default_tries s)))
  = repeat (EvFs (CRemove "/game/Data/a")) 6.
Proof. repeat split; vm_compute; reflexivity. Qed.

(** A code outside [RETRY_ERRORS]: one call, no timer. *)
Example doFS_immediate :
  let s := start ∅ [Some "EACCES"] in
  fst (doFS (remove "/game/Data/a") default_tries s)
  = inr (fs_error "EACCES") /\
  trace (snd (doFS (remove "/game/Data/a") default_tries s))
  = [EvFs (CRemove "/game/Data/a")].
Proof. split; vm_compute; reflexivity. Qed.

(** A regular file at the destination of ['remove-link'] stays. *)
Example remove_link_keeps_file :
  let s := start {[ "/game/Data/a" := NFile ]} [] in
  nodes (world (snd (remove_link "/game/Data/a" 7 s))) !! "/game/Data/a"
  = Some NFile /\
  trace (snd (remove_link "/game/Data/a" 7 s))
  = [EvFs (CLstat "/game/Data/a");
     EvSend "completed" (PCompleted None 7)].
Proof. split; vm_compute; reflexivity. Qed.

(** A link at the destination of ['remove-link'] goes. *)
Example remove_link_removes_link :
  let s := start {[ "/game/Data/a" := NLink "/staging/modA/a" ]} [] in
  nodes (world (snd (remove_link "/game/Data/a" 7 s))) !! "/game/Data/a"
  = None /\
  trace (snd (remove_link "/game/Data/a" 7 s))
  = [EvFs (CLstat "/game/Data/a"); EvFs (CRemove "/game/Data/a");
     EvSend "completed" (PCompleted None 7)].
Proof. split; vm_compute; reflexivity. Qed.


(** The whole ['link-file'] over a stale file in a new directory: the link
    fails with [EEXIST], the file is removed, the link is made. *)
Example link_file_over_stale_file :
  let s := start {[ "/game/Data/a" := NFile ]} [] in
  nodes (world (snd (link_file "/staging/modA/a" "/game/Data/a" 3 s)))
    !! "/game/Data/a" = Some (NLink "/staging/modA/a") /\
  List.filter is_completed
    (trace (snd (link_file "/staging/modA/a" "/game/Data/a" 3 s)))
  = [EvSend "completed" (PCompleted None 3)] /\
  List.filter (fun ev => bool_decide (ev = EvFs (CSymlink "/staging/modA/a"
                                                      "/game/Data/a")))
    (trace (snd (link_file "/staging/modA/a" "/game/Data/a" 3 s)))
  = repeat (EvFs (CSymlink "/staging/modA/a" "/game/Data/a")) 2.
Proof. repeat split; vm_compute; reflexivity. Qed.

(** A directory at the destination: the terminal failure is reported as
    not supported. *)
Example link_file_on_directory :
  let s := start {[ "/game/Data" := NDir ]}
                 [None; None; Some "EISDIR"] in
  List.filter (fun ev => negb (is_step ev))
    (trace (snd (link_file "/staging/modA/a" "/game/Data/a" 3 s)))
  = [EvSend "report" (PReport "not-supported");
     EvSend "completed" (PCompleted (Some (fs_error "EISDIR")) 3)].
Proof. vm_compute; reflexivity. Qed.

End WorkerFacts.

(** ** The orchestration handlers *)

Module OrchestratorFacts.
Import Orchestrator.

Section Facts.
Context {W Manifest Normalize : Type} `{Env W Manifest Normalize}.

Local Abbreviation P := (M (St W)).
Local Abbreviation Method := (IDeploymentMethod W Manifest Normalize).

Lemma added_app (s s' : St W) evs :
  trace s' = trace s ++ evs -> added s s' = evs.
Proof. intros Ht. unfold added. rewrite Ht. apply drop_app_length. Qed.

(** *** Which events the steps of the removal add *)

Lemma quiet_resolve allowed {A} (a : A) : adds_only allowed (resolve a : P A).
Proof.
  intros s. split; [reflexivity|]. exists []. now rewrite app_nil_r.
Qed.

Lemma quiet_reject allowed {A} e : adds_only allowed (reject e : P A).
Proof.
  intros s. split; [reflexivity|]. exists []. now rewrite app_nil_r.
Qed.

Lemma quiet_andThen allowed {A B} (m : P A) (f : A -> P B) :
  adds_only allowed m -> (forall a, adds_only allowed (f a)) ->
  adds_only allowed (andThen m f).
Proof.
  intros Hm Hf s. unfold andThen.
  destruct (Hm s) as (Hst1 & evs1 & Ht1 & Hq1).
  destruct (m s) as [[a|e] s1]; simpl in Hst1, Ht1.
  - destruct (Hf a s1) as (Hst2 & evs2 & Ht2 & Hq2).
    split; [congruence|]. exists (evs1 ++ evs2).
    rewrite Ht2, Ht1, <- app_assoc. split; [reflexivity|].
    now rewrite forallb_app, Hq1, Hq2.
  - split; [exact Hst1|]. now exists evs1.
Qed.

Lemma quiet_catch allowed {A} (m : P A) (h : JsError -> P A) :
  adds_only allowed m -> (forall e, adds_only allowed (h e)) ->
  adds_only allowed (catch m h).
Proof.
  intros Hm Hh s. unfold catch.
  destruct (Hm s) as (Hst1 & evs1 & Ht1 & Hq1).
  destruct (m s) as [[a|e] s1]; simpl in Hst1, Ht1.
  - split; [exact Hst1|]. now exists evs1.
  - destruct (Hh e s1) as (Hst2 & evs2 & Ht2 & Hq2).
    split; [congruence|]. exists (evs1 ++ evs2).
    rewrite Ht2, Ht1, <- app_assoc. split; [reflexivity|].
    now rewrite forallb_app, Hq1, Hq2.
Qed.

Lemma quiet_catchIf allowed {A} filter (m : P A) (h : JsError -> P A) :
  adds_only allowed m -> (forall e, adds_only allowed (h e)) ->
  adds_only allowed (catchIf filter m h).
Proof.
  intros Hm Hh. unfold catchIf. apply quiet_catch; [exact Hm|].
  intros e. destruct (filter e); [apply Hh | apply quiet_reject].
Qed.

Lemma quiet_tapCatch allowed {A} (m : P A) (h : JsError -> P unit) :
  adds_only allowed m -> (forall e, adds_only allowed (h e)) ->
  adds_only allowed (tapCatch m h).
Proof.
  intros Hm Hh s. unfold tapCatch.
  destruct (Hm s) as (Hst1 & evs1 & Ht1 & Hq1).
  destruct (m s) as [[a|e] s1]; simpl in Hst1, Ht1.
  - split; [exact Hst1|]. now exists evs1.
  - destruct (Hh e s1) as (Hst2 & evs2 & Ht2 & Hq2).
    destruct (h e s1) as [[[]|e'] s2]; simpl in Hst2, Ht2;
      (split; [simpl; congruence|]); exists (evs1 ++ evs2); simpl;
      rewrite Ht2, Ht1, <- app_assoc; (split; [reflexivity|]);
      now rewrite forallb_app, Hq1, Hq2.
Qed.

Lemma quiet_ext allowed {A} (op : W -> Outcome A * W) : adds_only allowed (ext op).
Proof.
  intros s. unfold ext. destruct (op (world s)). simpl.
  split; [reflexivity|]. exists []. now rewrite app_nil_r.
Qed.

Lemma quiet_getState allowed : adds_only allowed (getState : P IState).
Proof.
  intros s. split; [reflexivity|]. exists []. simpl. now rewrite app_nil_r.
Qed.

Lemma quiet_showDialog type title text actions :
  adds_only not_dispatch (showDialog type title text actions : P string).
Proof.
  intros s. unfold showDialog.
  destruct (showDialog_answer type title text actions (world s)). simpl.
  split; [reflexivity|]. now exists [EvDialog type title text actions].
Qed.

Lemma quiet_removeAsync target : adds_only not_dispatch (removeAsync target).
Proof.
  intros s. unfold removeAsync. destruct (fs_removeAsync target (world s)).
  simpl. split; [reflexivity|]. now exists [EvRemoveAsync target].
Qed.

Lemma quiet_emit_deploy_mods : adds_only not_dispatch emit_deploy_mods.
Proof.
  intros s. unfold emit_deploy_mods. destruct (deploy_mods (world s)).
  simpl. split; [reflexivity|]. now exists [EvEmit "deploy-mods"].
Qed.

Lemma quiet_run allowed {A} (m : P A) s :
  adds_only allowed m -> run_adds_only allowed s (m s).
Proof. intros Hm. exact (Hm s). Qed.

Lemma run_adds_only_weaken {A} (allowed allowed' : Event -> bool) s
      (run : Outcome A * St W) :
  (forall ev, allowed ev = true -> allowed' ev = true) ->
  run_adds_only allowed s run -> run_adds_only allowed' s run.
Proof.
  intros Hsub (Hst & evs & Ht & Hall).
  split; [exact Hst|]. exists evs. split; [exact Ht|].
  rewrite forallb_forall in Hall |- *. intros ev Hin. apply Hsub, Hall, Hin.
Qed.

(** Handlers attached to the promise a call returned. *)
Lemma quiet_promised_catchIf allowed {A} filter (run : Outcome A * St W)
      (h : JsError -> P A) s :
  run_adds_only allowed s run -> (forall e, adds_only allowed (h e)) ->
  run_adds_only allowed s (catchIf filter (promised run) h s).
Proof.
  intros (Hst1 & evs1 & Ht1 & Hq1) Hh.
  unfold catchIf, catch, promised. destruct run as [[a|e] s1];
    cbn [fst snd] in *.
  - split; [exact Hst1|]. now exists evs1.
  - destruct (filter e).
    + destruct (Hh e s1) as (Hst2 & evs2 & Ht2 & Hq2).
      split; [congruence|]. exists (evs1 ++ evs2).
      rewrite Ht2, Ht1, <- app_assoc. split; [reflexivity|].
      now rewrite forallb_app, Hq1, Hq2.
    + split; [exact Hst1|]. now exists evs1.
Qed.

Lemma quiet_promised_andThen allowed {A B} (run : Outcome A * St W)
      (f : A -> P B) s :
  run_adds_only allowed s run -> (forall a, adds_only allowed (f a)) ->
  run_adds_only allowed s (andThen (promised run) f s).
Proof.
  intros (Hst1 & evs1 & Ht1 & Hq1) Hf.
  unfold andThen, promised. destruct run as [[a|e] s1]; cbn [fst snd] in *.
  - destruct (Hf a s1) as (Hst2 & evs2 & Ht2 & Hq2).
    split; [congruence|]. exists (evs1 ++ evs2).
    rewrite Ht2, Ht1, <- app_assoc. split; [reflexivity|].
    now rewrite forallb_app, Hq1, Hq2.
  - split; [exact Hst1|]. now exists evs1.
Qed.

Lemma quiet_undeploy (activators : list Method) gameMode m :
  call_adds_only nothing (undeploy activators gameMode m).
Proof.
  intros s run. unfold undeploy.
  destruct (discovered (store s) !! gameMode) as [discovery|];
    [|intros [= <-]; exact (quiet_resolve nothing tt s)].
  destruct (discovery_path discovery) as [discoveryPath|];
    [|intros [= <-]; exact (quiet_resolve nothing tt s)].
  destruct (getGame gameMode) as [game|]; [|discriminate].
  cbv zeta.
  match goal with
  | |- context [match ?a with Some _ => _ | None => Returns (reject _ s) end] =>
      destruct a as [activator|]
  end; [|intros [= <-]; exact (quiet_reject nothing _ s)].
  destruct (modPath_of _ _) as [deployPath|];
    [|intros [= <-]; exact (quiet_resolve nothing tt s)].
  intros [= <-]. apply quiet_run.
  apply quiet_andThen; [|intros newActivation; apply quiet_ext].
  apply quiet_andThen; [|intros _; apply quiet_ext].
  apply quiet_tapCatch.
  - apply quiet_andThen; [apply quiet_ext|]. intros normalize.
    apply quiet_andThen; [apply quiet_ext|]. intros lastActivation.
    apply quiet_andThen; [apply quiet_ext|]. intros _.
    destruct (installationPath m); [apply quiet_ext | apply quiet_reject].
  - intros e. destruct (cancel activator) as [cancel|];
      [|apply quiet_resolve].
    intros s'. simpl. split; [reflexivity|]. exists [].
    now rewrite app_nil_r.
Qed.

Lemma adds_only_weaken {A} (allowed allowed' : Event -> bool) (m : P A) :
  (forall ev, allowed ev = true -> allowed' ev = true) ->
  adds_only allowed m -> adds_only allowed' m.
Proof.
  intros Hsub Hm s. destruct (Hm s) as (Hst & evs & Ht & Hall).
  split; [exact Hst|]. exists evs. split; [exact Ht|].
  rewrite forallb_forall in Hall |- *. intros ev Hin. apply Hsub, Hall, Hin.
Qed.

Lemma nothing_added {A} s (run : Outcome A * St W) :
  run_adds_only nothing s run -> trace (snd run) = trace s.
Proof.
  intros (_ & [|ev evs] & Ht & Hall);
    [now rewrite app_nil_r in Ht | discriminate].
Qed.

Lemma quiet_undeployMod (activators : list Method) gameMode m :
  call_adds_only not_dispatch (undeployMod activators gameMode m).
Proof.
  intros s run. unfold undeployMod.
  destruct (installationPath m);
    [|intros [= <-]; exact (quiet_resolve not_dispatch tt s)].
  destruct (undeploy activators gameMode m s) as [e|run0] eqn:Hundeploy;
    [discriminate|].
  intros [= <-]. apply quiet_promised_catchIf.
  - apply (run_adds_only_weaken nothing); [discriminate|].
    now apply (quiet_undeploy activators gameMode m).
  - intros _.
    apply quiet_andThen; [apply quiet_showDialog|]. intros result.
    destruct (bool_decide (result = "Deploy"));
      [apply quiet_emit_deploy_mods | apply quiet_resolve].
Qed.

Lemma quiet_removeModFiles installPath m :
  adds_only not_dispatch (removeModFiles installPath m).
Proof.
  unfold removeModFiles.
  destruct (truthy (installationPath m)); [|apply quiet_resolve].
  destruct (installationPath m); [|apply quiet_reject].
  apply quiet_catch.
  - apply quiet_catchIf; [apply quiet_removeAsync|].
    intros _. apply quiet_removeAsync.
  - intros e. destruct (code_is "ENOENT" e);
      [apply quiet_resolve | apply quiet_reject].
Qed.

(** *** [onRemoveMod] *)

Lemma andThen_dispatch {A} a (k : P A) (s : St W) :
  (dispatch a >> k) s = k (snd (dispatch a s)).
Proof. reflexivity. Qed.

Lemma catalog_lookup_Some st gameMode modId m :
  catalog_lookup st gameMode modId = Some m ->
  exists mods, persistent_mods st !! gameMode = Some mods /\
               mods !! modId = Some m.
Proof.
  unfold catalog_lookup. destruct (persistent_mods st !! gameMode) as [mods|];
    [|discriminate].
  intros Hm. now exists mods.
Qed.

(** C6. For a mod whose state in the catalog is neither [downloaded] nor
    [installed] (a mod the catalog does not have included), [onRemoveMod]
    hands a [ProcessCanceled] error to the callback, when it was given
    one, and does nothing else: no action is dispatched, the store, hence
    the catalog, and the world are as they were. *)
Theorem onRemoveMod_unfinished_mod (activators : list Method)
        gameMode modId callback s :
  (forall m, catalog_lookup (store s) gameMode modId = Some m ->
             mod_state m <> "downloaded" /\ mod_state m <> "installed") ->
  let err := new_ProcessCanceled
               "Can't delete mod during download or install" in
  err_class err = ProcessCanceled /\
  onRemoveMod activators gameMode modId callback s
  = (inl tt,
     mkSt (store s) (world s)
          (trace s ++ if callback then [EvCallback (Some err)] else [])).
Proof.
  intros Hstate err. split; [reflexivity|].
  unfold onRemoveMod, andThen, getState, gets.
  rewrite bool_decide_eq_false_2.
  - destruct callback; simpl; [reflexivity|].
    rewrite app_nil_r. now destruct s.
  - destruct (catalog_lookup (store s) gameMode modId) as [m|] eqn:Hm;
      simpl; intros Hin.
    + destruct (Hstate m eq_refl) as [Hd Hi].
      apply elem_of_cons in Hin as [Heq|Hin]; [congruence|].
      apply list_elem_of_singleton in Hin. congruence.
    + apply elem_of_cons in Hin as [Heq|Hin]; [discriminate|].
      apply list_elem_of_singleton in Hin. discriminate.
Qed.

(** [onRemoveMod] on a mod that can be removed: the two steps run from
    [removal_start]; their success dispatches [removeMod] and reports
    [null], their failure goes through the [catch] handlers; the activity
    is stopped either way. When [undeployMod()] throws, so does
    [onRemoveMod], there and then. *)
Lemma onRemoveMod_eq (activators : list Method) gameMode modId callback s m :
  catalog_lookup (store s) gameMode modId = Some m ->
  mod_state m ∈ ["downloaded"; "installed"] ->
  onRemoveMod activators gameMode modId callback s =
  match removal_steps activators gameMode modId m s with
  | Throws e => (inr e, removal_start gameMode modId s)
  | Returns (inl _, s2) =>
      (inl tt,
       mkSt (reduce (stopActivity "mods" ("removing_" ++ modId))
                    (reduce (removeMod gameMode (mod_id m)) (store s2)))
            (world s2)
            (trace s2 ++ [EvDispatch (removeMod gameMode (mod_id m))]
                     ++ (if callback then [EvCallback None] else [])
                     ++ [EvDispatch
                           (stopActivity "mods" ("removing_" ++ modId))]))
  | Returns (inr e, s2) =>
      (inl tt,
       mkSt (reduce (stopActivity "mods" ("removing_" ++ modId)) (store s2))
            (world s2)
            (trace s2 ++ failure_events callback e
                     ++ [EvDispatch
                           (stopActivity "mods" ("removing_" ++ modId))]))
  end.
Proof.
  intros Hm Hstate.
  destruct (catalog_lookup_Some _ _ _ _ Hm) as (mods & Hmods & Hmod).
  unfold onRemoveMod. unfold andThen at 1. unfold getState, gets.
  rewrite Hm. simpl fmap.
  rewrite bool_decide_eq_true_2.
  2:{ simpl. apply elem_of_cons in Hstate as [Heq|Hstate];
        [rewrite Heq; apply list_elem_of_here|].
      apply list_elem_of_singleton in Hstate. rewrite Hstate.
      apply list_elem_of_further, list_elem_of_here. }
  change (negb true) with false. cbv iota zeta.
  rewrite Hmods, Hmod.
  rewrite !andThen_dispatch.
  unfold removal_steps, removal_start. cbv zeta.
  match goal with
  | |- context [undeployMod activators gameMode m ?x] => generalize x
  end.
  intros s0.
  destruct (undeployMod activators gameMode m s0) as [e|[r1 s1]];
    [reflexivity|].
  unfold finally, catchIf, catch, andThen, promised.
  destruct r1 as [[]|e].
  - destruct (removeModFiles (installPathForGame (store s) gameMode) m s1)
      as [[[]|e] s2].
    + destruct callback; simpl; rewrite <- ?app_assoc; reflexivity.
    + unfold failure_events, instanceof, reject, callback_or.
      destruct e as [cls code msg].
      destruct callback, cls; simpl; rewrite <- ?app_assoc; reflexivity.
  - unfold failure_events, instanceof, reject, callback_or.
    destruct e as [cls code msg].
    destruct callback, cls; simpl; rewrite <- ?app_assoc; reflexivity.
Qed.

Lemma not_dispatch_elem a evs :
  forallb not_dispatch evs = true -> EvDispatch a ∉ evs.
Proof.
  intros Hall Hin. rewrite forallb_forall in Hall.
  apply list_elem_of_In in Hin. specialize (Hall _ Hin). discriminate.
Qed.

Lemma failure_events_not_dispatch callback e :
  forallb not_dispatch (failure_events callback e) = true.
Proof.
  unfold failure_events. destruct callback; [reflexivity|].
  destruct (err_class e); reflexivity.
Qed.

Lemma failure_events_callback e :
  EvCallback (Some e) ∈ failure_events true e.
Proof. apply list_elem_of_here. Qed.

Lemma removal_start_store gameMode modId (s : St W) :
  persistent_mods (store (removal_start gameMode modId s))
  = persistent_mods (store s).
Proof. reflexivity. Qed.

Lemma removal_start_trace gameMode modId (s : St W) :
  exists a1 a2,
    trace (removal_start gameMode modId s)
    = trace s ++ [EvDispatch a1; EvDispatch a2] /\
    (forall g i, a1 <> removeMod g i) /\ (forall g i, a2 <> removeMod g i).
Proof.
  unfold removal_start. simpl. eexists _, _. rewrite <- app_assoc.
  split; [reflexivity|]. split; discriminate.
Qed.

Lemma removeMod_gone gameMode modId st :
  catalog_lookup (reduce (removeMod gameMode modId) st) gameMode modId = None.
Proof.
  unfold catalog_lookup. simpl. rewrite lookup_alter_eq.
  destruct (persistent_mods st !! gameMode) as [mods|]; simpl;
    [apply lookup_delete_eq | reflexivity].
Qed.

(** C8. [onRemoveMod] on a mod in state [downloaded] or [installed]:
    [removeMod] is dispatched, and the mod is gone from the catalog, when
    the undeploy step and then the deletion of the staged files have both
    succeeded. When either fails, no [removeMod] is dispatched, the
    catalog is what it was, with the mod in it, and the error goes to the
    callback. When the undeploy step throws instead of returning a
    promise, no [removeMod] is dispatched either and the catalog is what
    it was. *)
Theorem removeMod_after_both_steps (activators : list Method)
        gameMode modId callback s m :
  catalog_lookup (store s) gameMode modId = Some m ->
  mod_state m ∈ ["downloaded"; "installed"] ->
  let s0 := removal_start gameMode modId s in
  let s' := snd (onRemoveMod activators gameMode modId callback s) in
  let kept :=
    (forall g i, EvDispatch (removeMod g i) ∉ added s s') /\
    persistent_mods (store s') = persistent_mods (store s) /\
    catalog_lookup (store s') gameMode modId = Some m in
  let failed e :=
    (forall g i, EvDispatch (removeMod g i) ∉ added s s') /\
    persistent_mods (store s') = persistent_mods (store s) /\
    catalog_lookup (store s') gameMode modId = Some m /\
    (callback = true -> EvCallback (Some e) ∈ added s s') in
  match undeployMod activators gameMode m s0 with
  | Throws _ => kept
  | Returns (inr e, _) => failed e
  | Returns (inl _, s1) =>
      match removeModFiles (installPathForGame (store s) gameMode) m s1 with
      | (inr e, _) => failed e
      | (inl _, _) =>
          EvDispatch (removeMod gameMode (mod_id m)) ∈ added s s' /\
          catalog_lookup (store s') gameMode (mod_id m) = None
      end
  end.
Proof.
  intros Hm Hstate s0 s' kept failed. subst s' kept failed. cbv beta.
  rewrite (onRemoveMod_eq _ _ _ _ _ _ Hm Hstate).
  unfold removal_steps. cbv zeta. fold s0.
  destruct (removal_start_trace gameMode modId s)
    as (a1 & a2 & Ht0 & Ha1 & Ha2). fold s0 in Ht0.
  pose proof (removal_start_store gameMode modId s) as Hst0. fold s0 in Hst0.
  pose proof (quiet_undeployMod activators gameMode m s0) as Hquiet.
  clearbody s0.
  assert (Hfail : forall e s2 evs,
             store s2 = store s0 ->
             trace s2 = trace s0 ++ evs ->
             forallb not_dispatch evs = true ->
             let s' := mkSt (reduce (stopActivity "mods" ("removing_" ++ modId))
                                    (store s2))
                            (world s2)
                            (trace s2 ++ failure_events callback e
                               ++ [EvDispatch (stopActivity "mods"
                                                 ("removing_" ++ modId))]) in
             (forall g i, EvDispatch (removeMod g i) ∉ added s s') /\
             persistent_mods (store s') = persistent_mods (store s) /\
             catalog_lookup (store s') gameMode modId = Some m /\
             (callback = true -> EvCallback (Some e) ∈ added s s')).
  { intros e s2 evs Hst2 Ht2 Hq s'.
    assert (Hadded : added s s'
                     = [EvDispatch a1; EvDispatch a2] ++ evs
                       ++ failure_events callback e
                       ++ [EvDispatch (stopActivity "mods"
                                         ("removing_" ++ modId))]).
    { apply added_app. subst s'. simpl. rewrite Ht2, Ht0, <- !app_assoc.
      reflexivity. }
    assert (Hmods : persistent_mods (store s') = persistent_mods (store s)).
    { subst s'. simpl. now rewrite Hst2, Hst0. }
    split; [|split; [exact Hmods|split]].
    - intros g i. rewrite Hadded. intros Hin.
      apply elem_of_cons in Hin as [Heq|Hin];
        [injection Heq as Heq; symmetry in Heq; now apply (Ha1 g i)|].
      apply elem_of_cons in Hin as [Heq|Hin];
        [injection Heq as Heq; symmetry in Heq; now apply (Ha2 g i)|].
      apply elem_of_app in Hin as [Hin|Hin];
        [now apply (not_dispatch_elem _ _ Hq) in Hin|].
      apply elem_of_app in Hin as [Hin|Hin];
        [now apply (not_dispatch_elem _ _
                      (failure_events_not_dispatch callback e)) in Hin|].
      apply list_elem_of_singleton in Hin. discriminate.
    - unfold catalog_lookup in *. now rewrite Hmods.
    - intros ->. rewrite Hadded.
      apply list_elem_of_further, list_elem_of_further, elem_of_app. right.
      apply elem_of_app. left. apply failure_events_callback. }
  destruct (undeployMod activators gameMode m s0) as [e|[r1 s1]].
  - cbn [snd]. split; [|split].
    + intros g i. rewrite (added_app _ _ _ Ht0). intros Hin.
      apply elem_of_cons in Hin as [Heq|Hin];
        [injection Heq as Heq; symmetry in Heq; now apply (Ha1 g i)|].
      apply list_elem_of_singleton in Hin.
      injection Hin as Heq; symmetry in Heq; now apply (Ha2 g i).
    + exact Hst0.
    + unfold catalog_lookup in *. now rewrite Hst0.
  - destruct (Hquiet _ eq_refl) as (Hst1 & evs1 & Ht1 & Hq1).
    cbn [fst snd] in Hst1, Ht1.
    unfold andThen, promised.
    destruct r1 as [[]|e].
    + destruct (quiet_removeModFiles (installPathForGame (store s) gameMode)
                  m s1) as (Hst2 & evs2 & Ht2 & Hq2).
      destruct (removeModFiles (installPathForGame (store s) gameMode) m s1)
        as [[[]|e] s2]; simpl in Hst2, Ht2.
      * cbn [snd store]. split; [|apply removeMod_gone].
        erewrite added_app;
          [|rewrite Ht2, Ht1, Ht0, <- !app_assoc; reflexivity].
        simpl. apply list_elem_of_further, list_elem_of_further.
        apply elem_of_app. right. apply elem_of_app. right.
        apply list_elem_of_here.
      * cbn [snd]. apply (Hfail e s2 (evs1 ++ evs2)).
        -- congruence.
        -- now rewrite Ht2, Ht1, <- app_assoc.
        -- now rewrite forallb_app, Hq1, Hq2.
    + cbn [snd]. now apply (Hfail e s1 evs1).
Qed.

(** C9. The deletion of the mod's staged files does what the
    specification says: [removeAsync] is called again, once, when it
    fails with [ENOTEMPTY]; the step succeeds when the call that decides
    succeeds or fails with [ENOENT]; any other error, a second
    [ENOTEMPTY] included, is the failure of the step. *)
Theorem removeModFiles_tolerant installPath m p s :
  installationPath m = Some p ->
  truthy (Some p) = true ->
  removeModFiles installPath m s
  = delete_staged_spec (path_join installPath p) s.
Proof.
  intros Hp Htruthy.
  unfold removeModFiles, delete_staged_spec.
  rewrite Hp, Htruthy.
  unfold catch, catchIf, catch, removeAsync, reject, resolve.
  destruct (fs_removeAsync (path_join installPath p) (world s))
    as [[[]|e1] w1]; [reflexivity|].
  destruct (code_is "ENOTEMPTY" e1) eqn:Hnotempty; simpl.
  - destruct (fs_removeAsync (path_join installPath p) w1)
      as [[[]|e2] w2]; simpl; rewrite <- app_assoc; [reflexivity|].
    destruct (code_is "ENOENT" e2); reflexivity.
  - destruct (code_is "ENOENT" e1); reflexivity.
Qed.

(** C7, as the code has it. When [undeploy] fails with an error whose
    code is [ENOTFOUND], the user is shown the dialog 'Mod not found' with
    the choices 'Ignore' and 'Deploy': 'Deploy' triggers a deployment
    (the event [deploy-mods]) and the step settles as that does, any
    other answer lets the removal proceed. With any other code, [ENOENT]
    included, no dialog is shown and the step fails with [undeploy]'s
    error. *)
Theorem undeployMod_dialog_on_ENOTFOUND (activators : list Method)
        gameMode m s e s1 :
  installationPath m <> None ->
  undeploy activators gameMode m s = Returns (inr e, s1) ->
  trace s1 = trace s /\
  if code_is "ENOTFOUND" e
  then
    let dialog :=
      EvDialog "error" "Mod not found" MOD_NOT_FOUND ["Ignore"; "Deploy"] in
    let answer :=
      showDialog_answer "error" "Mod not found" MOD_NOT_FOUND
                        ["Ignore"; "Deploy"] (world s1) in
    let asked := mkSt (store s1) (snd answer) (trace s1 ++ [dialog]) in
    undeployMod activators gameMode m s
    = Returns (if bool_decide (fst answer = "Deploy")
               then emit_deploy_mods asked
               else (inl tt, asked))
  else undeployMod activators gameMode m s = Returns (inr e, s1).
Proof.
  intros Hpath Hundeploy.
  split.
  { exact (nothing_added s _
             (quiet_undeploy activators gameMode m s _ Hundeploy)). }
  unfold undeployMod.
  destruct (installationPath m) as [p|]; [|congruence].
  rewrite Hundeploy. unfold catchIf, catch, promised.
  destruct (code_is "ENOTFOUND" e); [|reflexivity].
  unfold andThen, showDialog.
  destruct (showDialog_answer "error" "Mod not found" MOD_NOT_FOUND
              ["Ignore"; "Deploy"] (world s1)) as [answer w2].
  simpl. destruct (bool_decide (answer = "Deploy")); reflexivity.
Qed.

(** *** The staging tag and the purge chain *)

(** A tag of another instance and the first dialog declined: the
    rejection of the [then] branch is caught by the [catch] meant for an
    unreadable tag, so the second dialog is shown, and its answer
    decides. *)
Lemma validateStagingTag_asks_again tagPath s data w1 instance w2 :
  fs_readFileAsync tagPath (world s) = (inl data, w1) ->
  JSON_parse data = Some (TagValue instance) ->
  instance <> Some (app_instanceId (store s)) ->
  showDialog_answer "question" "Confirm" DIFFERENT_INSTANCE
                    ["Cancel"; "Continue"] w1 = ("Cancel", w2) ->
  let second := showDialog_answer "question" "Confirm" NOT_MARKED
                                  ["Cancel"; "I'm sure"] w2 in
  validateStagingTag tagPath s
  = (if bool_decide (fst second = "Cancel")
     then inr new_UserCanceled else inl tt,
     mkSt (store s) (snd second)
          (trace s ++ [EvDialog "question" "Confirm" DIFFERENT_INSTANCE
                                ["Cancel"; "Continue"];
                       EvDialog "question" "Confirm" NOT_MARKED
                                ["Cancel"; "I'm sure"]])).
Proof.
  intros Hread Hparse Hinstance Hfirst second. subst second.
  unfold validateStagingTag, catch, andThen, readFileAsync, ext, getState,
    gets, showDialog.
  rewrite Hread. simpl. rewrite Hparse.
  rewrite bool_decide_eq_false_2 by exact Hinstance. simpl.
  rewrite Hfirst. simpl.
  destruct (showDialog_answer "question" "Confirm" NOT_MARKED
              ["Cancel"; "I'm sure"] w2) as [answer w3].
  simpl. rewrite <- app_assoc.
  destruct (bool_decide (answer = "Cancel")); reflexivity.
Qed.

(** What the last handler of the purge chain shows: the error may be
    reported exactly when its code is [ENOENT] or [ENOTFOUND]. *)
Lemma purge_failed_allowReport err (s : St W) :
  purge_failed err s
  = (inl tt,
     record (EvErrorNotification "Purge failed" (DetailError err)
               (Some (bool_decide (err_code err = Some "ENOENT"
                                   \/ err_code err = Some "ENOTFOUND"))))
            s).
Proof.
  unfold purge_failed, showErrorNotification, effect. do 4 f_equal.
  unfold code_listed. destruct (err_code err) as [c|].
  - apply bool_decide_ext. rewrite elem_of_cons, list_elem_of_singleton.
    split; intros [Hc|Hc]; (left + right); congruence.
  - symmetry. apply bool_decide_eq_false_2. intros [Hc|Hc]; discriminate.
Qed.

End Facts.

(** *** The handlers in the scripted world *)

Import Script.

(** C1. A staging folder tagged by another instance, the user declining:
    the code shows two dialogs, the one for a foreign tag and then the one
    for an untagged folder, and the answer to the second decides; with
    'I'm sure' the folder is accepted, with 'Cancel' the promise is
    rejected with [UserCanceled]. *)
Theorem validateStagingTag_foreign_tag_declined :
  let tag := "/mods/__vortex_staging_folder" in
  let scripted answers :=
    mkScriptW answers {[ tag := "instance=instance-B" ]} [] None None in
  let dialogs :=
    [EvDialog "question" "Confirm" DIFFERENT_INSTANCE ["Cancel"; "Continue"];
     EvDialog "question" "Confirm" NOT_MARKED ["Cancel"; "I'm sure"]] in
  validateStagingTag tag (start "installed" (scripted ["Cancel"; "I'm sure"]))
  = (inl tt, mkSt (app_state "installed") (scripted []) dialogs) /\
  validateStagingTag tag (start "installed" (scripted ["Cancel"; "Cancel"]))
  = (inr new_UserCanceled,
     mkSt (app_state "installed") (scripted []) dialogs).
Proof. split; vm_compute; reflexivity. Qed.

(** C2. The purge of the old deployment method failing with [ENOENT]: the
    notification 'Purge failed' is shown with [allowReport] true; failing
    with [EPERM], with [allowReport] false. *)
Theorem purge_failure_allowReport :
  let scripted code := mkScriptW [] ∅ [] (Some code) None in
  let run code :=
    initProm_purge (resolve tt) (scripted_method "symlink") "/staging/game1"
                   [("", "/game/Data")] (start "installed" (scripted code)) in
  trace (snd (run "ENOENT"))
  = [EvErrorNotification "Purge failed" (DetailError (fs_error "ENOENT"))
                         (Some true)] /\
  trace (snd (run "ENOTFOUND"))
  = [EvErrorNotification "Purge failed" (DetailError (fs_error "ENOTFOUND"))
                         (Some true)] /\
  trace (snd (run "EPERM"))
  = [EvErrorNotification "Purge failed" (DetailError (fs_error "EPERM"))
                         (Some false)].
Proof. repeat split; vm_compute; reflexivity. Qed.

Lemma onRemoveMod_unfinished_mod_witness :
  let s := start "installing" world0 in
  let err := new_ProcessCanceled
               "Can't delete mod during download or install" in
  (forall m, catalog_lookup (store s) "game1" "m1" = Some m ->
             mod_state m <> "downloaded" /\ mod_state m <> "installed") /\
  err_class err = ProcessCanceled /\
  onRemoveMod [scripted_method "symlink"] "game1" "m1" true s
  = (inl tt, mkSt (store s) (world s) (trace s ++ [EvCallback (Some err)])).
Proof.
  intros s err.
  assert (Hstate : forall m,
             catalog_lookup (store s) "game1" "m1" = Some m ->
             mod_state m <> "downloaded" /\ mod_state m <> "installed").
  { intros m Hm. vm_compute in Hm. injection Hm as <-. split; discriminate. }
  split; [exact Hstate|].
  exact (onRemoveMod_unfinished_mod [scripted_method "symlink"]
           "game1" "m1" true s Hstate).
Defined.

(** The same mod once it is installed: it is undeployed, its files are
    deleted, it leaves the catalog, and the callback gets [null]. *)
Example onRemoveMod_installed :
  let s := start "installed" world0 in
  let s' := snd (onRemoveMod [scripted_method "symlink"] "game1" "m1" true s) in
  catalog_lookup (store s') "game1" "m1" = None /\
  trace s'
  = [EvDispatch (setModEnabled (Some "profile1") "m1" false);
     EvDispatch (startActivity "mods" "removing_m1");
     EvRemoveAsync "/staging/game1/modA";
     EvDispatch (removeMod "game1" "m1");
     EvCallback None;
     EvDispatch (stopActivity "mods" "removing_m1")].
Proof. split; vm_compute; reflexivity. Qed.

Lemma removeMod_after_both_steps_witness :
  let activators := [scripted_method "symlink"] in
  let s := start "installed" world0 in
  let m := m1 "installed" in
  (catalog_lookup (store s) "game1" "m1" = Some m /\
   mod_state m ∈ ["downloaded"; "installed"]) /\
  let s0 := removal_start "game1" "m1" s in
  let s' := snd (onRemoveMod activators "game1" "m1" true s) in
  let kept :=
    (forall g i, EvDispatch (removeMod g i) ∉ added s s') /\
    persistent_mods (store s') = persistent_mods (store s) /\
    catalog_lookup (store s') "game1" "m1" = Some m in
  let failed e :=
    (forall g i, EvDispatch (removeMod g i) ∉ added s s') /\
    persistent_mods (store s') = persistent_mods (store s) /\
    catalog_lookup (store s') "game1" "m1" = Some m /\
    (true = true -> EvCallback (Some e) ∈ added s s') in
  match undeployMod activators "game1" m s0 with
  | Throws _ => kept
  | Returns (inr e, _) => failed e
  | Returns (inl _, s1) =>
      match removeModFiles (installPathForGame (store s) "game1") m s1 with
      | (inr e, _) => failed e
      | (inl _, _) =>
          EvDispatch (removeMod "game1" (mod_id m)) ∈ added s s' /\
          catalog_lookup (store s') "game1" (mod_id m) = None
      end
  end.
Proof.
  intros activators s m.
  assert (H1 : catalog_lookup (store s) "game1" "m1" = Some m)
    by (vm_compute; reflexivity).
  assert (H2 : mod_state m ∈ ["downloaded"; "installed"])
    by (apply list_elem_of_further, list_elem_of_here).
  split; [now split|].
  exact (removeMod_after_both_steps activators "game1" "m1" true s m H1 H2).
Defined.

(** The deletion failing with [EPERM]: the mod stays in the catalog and
    the callback gets the error. *)
Example onRemoveMod_delete_fails :
  let s := start "installed" (mkScriptW [] ∅ [Some "EPERM"] None None) in
  let s' := snd (onRemoveMod [scripted_method "symlink"] "game1" "m1" true s) in
  catalog_lookup (store s') "game1" "m1" = Some (m1 "installed") /\
  trace s'
  = [EvDispatch (setModEnabled (Some "profile1") "m1" false);
     EvDispatch (startActivity "mods" "removing_m1");
     EvRemoveAsync "/staging/game1/modA";
     EvCallback (Some (fs_error "EPERM"));
     EvDispatch (stopActivity "mods" "removing_m1")].
Proof. split; vm_compute; reflexivity. Qed.

Lemma removeModFiles_tolerant_witness :
  let s := start "installed"
                 (mkScriptW [] ∅ [Some "ENOTEMPTY"; Some "ENOENT"] None None) in
  let m := m1 "installed" in
  (installationPath m = Some "modA" /\ truthy (Some "modA") = true) /\
  removeModFiles "/staging/game1" m s
  = delete_staged_spec (path_join "/staging/game1" "modA") s.
Proof.
  intros s m.
  assert (H1 : installationPath m = Some "modA") by reflexivity.
  assert (H2 : truthy (Some "modA") = true) by reflexivity.
  split; [now split|].
  exact (removeModFiles_tolerant "/staging/game1" m "modA" s H1 H2).
Defined.

(** The deletion over the outcomes of [removeAsync]: [ENOTEMPTY] and then
    [ENOENT] is a success after two calls; [ENOTEMPTY] twice is a failure
    after two calls; [ENOENT] is a success and [EPERM] a failure after
    one. *)
Example removeModFiles_runs :
  let run faults :=
    removeModFiles "/staging/game1" (m1 "installed")
      (start "installed" (mkScriptW [] ∅ faults None None)) in
  let calls n := repeat (EvRemoveAsync "/staging/game1/modA") n in
  (fst (run [Some "ENOTEMPTY"; Some "ENOENT"]) = inl tt /\
   trace (snd (run [Some "ENOTEMPTY"; Some "ENOENT"])) = calls 2) /\
  (fst (run [Some "ENOTEMPTY"; Some "ENOTEMPTY"; None])
   = inr (fs_error "ENOTEMPTY") /\
   trace (snd (run [Some "ENOTEMPTY"; Some "ENOTEMPTY"; None])) = calls 2) /\
  (fst (run [Some "ENOENT"]) = inl tt /\
   trace (snd (run [Some "ENOENT"])) = calls 1) /\
  (fst (run [Some "EPERM"; None]) = inr (fs_error "EPERM") /\
   trace (snd (run [Some "EPERM"; None])) = calls 1).
Proof. repeat split; vm_compute; reflexivity. Qed.

Lemma undeployMod_dialog_on_ENOTFOUND_witness :
  let activators := [scripted_method "symlink"] in
  let s := start "installed"
                 (mkScriptW ["Deploy"] ∅ [] (Some "ENOTFOUND") None) in
  let m := m1 "installed" in
  let e := fs_error "ENOTFOUND" in
  (installationPath m <> None /\
   undeploy activators "game1" m s = Returns (inr e, s)) /\
  trace s = trace s /\
  if code_is "ENOTFOUND" e
  then
    let dialog :=
      EvDialog "error" "Mod not found" MOD_NOT_FOUND ["Ignore"; "Deploy"] in
    let answer :=
      showDialog_answer "error" "Mod not found" MOD_NOT_FOUND
                        ["Ignore"; "Deploy"] (world s) in
    let asked := mkSt (store s) (snd answer) (trace s ++ [dialog]) in
    undeployMod activators "game1" m s
    = Returns (if bool_decide (fst answer = "Deploy")
               then emit_deploy_mods asked
               else (inl tt, asked))
  else undeployMod activators "game1" m s = Returns (inr e, s).
Proof.
  intros activators s m e.
  assert (H1 : installationPath m <> None) by discriminate.
  assert (H2 : undeploy activators "game1" m s = Returns (inr e, s))
    by (vm_compute; reflexivity).
  split; [now split|].
  exact (undeployMod_dialog_on_ENOTFOUND activators "game1" m s e s H1 H2).
Defined.

(** [undeploy] failing with [ENOENT] during the removal of a mod: no
    dialog is shown; the error goes to the callback and the mod stays in
    the catalog. *)
Lemma onRemoveMod_ENOENT_no_dialog :
  let activators := [scripted_method "symlink"] in
  let s := start "installed"
                 (mkScriptW ["Deploy"] ∅ [] (Some "ENOENT") None) in
  let s0 := removal_start "game1" "m1" s in
  let s' := snd (onRemoveMod activators "game1" "m1" true s) in
  undeploy activators "game1" (m1 "installed") s0
  = Returns (inr (fs_error "ENOENT"), s0) /\
  code_is "ENOENT" (fs_error "ENOENT") = true /\
  List.filter is_dialog (trace s') = [] /\
  EvCallback (Some (fs_error "ENOENT")) ∈ trace s' /\
  catalog_lookup (store s') "game1" "m1" = Some (m1 "installed").
Proof.
  repeat split; try (vm_compute; reflexivity).
  vm_compute. do 2 apply list_elem_of_further. apply list_elem_of_here.
Qed.

(** With [ENOTFOUND] the dialog is shown; the user choosing 'Deploy', the
    deployment runs and the mod is removed. *)
Example onRemoveMod_ENOTFOUND_dialog :
  let activators := [scripted_method "symlink"] in
  let s := start "installed"
                 (mkScriptW ["Deploy"] ∅ [] (Some "ENOTFOUND") None) in
  let s' := snd (onRemoveMod activators "game1" "m1" true s) in
  List.filter is_dialog (trace s')
  = [EvDialog "error" "Mod not found" MOD_NOT_FOUND ["Ignore"; "Deploy"]] /\
  catalog_lookup (store s') "game1" "m1" = None.
Proof. split; vm_compute; reflexivity. Qed.

End OrchestratorFacts.

(** ** The validation of files *)

Module FileValidationFacts.
Import FileValidation.

Section Facts.
Context `{Env}.








End Facts.

(** *** A directory with one good, one patched and one deleted file *)

Import Files.


(** The patched file is reported changed, the deleted one missing, the
    good one not at all. *)
Example validateFiles_run :
  @validateFiles (env true) "/app" ["good.dll"; "gone.dll"; "bad.dll"]
  = inl (mkResult ["gone.dll"] ["bad.dll"]).
Proof. vm_compute. reflexivity. Qed.

(** Without [md5sums.csv] there is nothing to check. *)
Example validateFiles_no_hash_list :
  @Object_keys (@fileList_of (env false) "/app") = [] /\
  @validateFiles (env false) "/app" [] = inl (mkResult [] []).
Proof. split; vm_compute; reflexivity. Qed.

(** The hash list as [readHashList] parses it. *)
Example readHashList_run :
  @readHashList (env true) "/app"
  = inl {[ "good.dll" := Some "h(good)";
           "bad.dll" := Some "h(original)";
           "gone.dll" := Some "h(gone)" ]}.
Proof. vm_compute. reflexivity. Qed.

End FileValidationFacts.

(* ===================================================================== *)
(** * Further properties *)
(* ===================================================================== *)

(** ** The link worker: bounds and footprint *)

Module WorkerFootprintFacts.
Import Worker WorkerFootprint.

Section Facts.
Context {W : Type} `{Node W}.

Local Abbreviation P := (M (St W)).

Lemma fs_calls_app evs1 evs2 :
  fs_calls (evs1 ++ evs2) = fs_calls evs1 ++ fs_calls evs2.
Proof.
  induction evs1 as [|[c|ms|message payload] evs1 IH]; simpl;
    [reflexivity | now rewrite IH | exact IH | exact IH].
Qed.

Lemma attempts_trace_calls c n :
  fs_calls (attempts_trace c n) = repeat c (S n).
Proof. induction n as [|n IH]; simpl; [reflexivity | now rewrite IH]. Qed.

Lemma attempts_trace_delay c n : total_delay (attempts_trace c n) = 100 * n.
Proof. induction n as [|n IH]; simpl; [reflexivity | rewrite IH; lia]. Qed.

(** X1. However an operation on the file system fails, [doFS] calls it at
    least once and at most [tries + 1] times, always the same call, and
    the timers it waits for add up to 100 ms per call after the first,
    hence to at most [100 * tries] ms (500 ms with the default). *)
Theorem doFS_bounded {A} c (raw : W -> Outcome A * W) tries s :
  exists evs,
    trace (snd (doFS (fsCall c raw) tries s)) = trace s ++ evs /\
    fs_calls evs = repeat c (length (fs_calls evs)) /\
    1 <= length (fs_calls evs) <= tries + 1 /\
    total_delay evs = 100 * (length (fs_calls evs) - 1) /\
    total_delay evs <= 100 * tries.
Proof.
  destruct (WorkerFacts.doFS_fsCall_trace c raw tries s) as (n & Hn & Ht).
  exists (attempts_trace c n). split; [exact Ht|].
  rewrite attempts_trace_calls, attempts_trace_delay, repeat_length.
  split; [reflexivity|]. split; [lia|]. split; lia.
Qed.

(** *** Footprints *)

Lemma within_resolve allowed {A} (a : A) :
  calls_within allowed (resolve a : P A).
Proof. intros s. exists []. split; [now rewrite app_nil_r | constructor]. Qed.

Lemma within_reject allowed {A} e : calls_within allowed (reject e : P A).
Proof. intros s. exists []. split; [now rewrite app_nil_r | constructor]. Qed.

Lemma within_andThen allowed {A B} (m : P A) (f : A -> P B) :
  calls_within allowed m -> (forall a, calls_within allowed (f a)) ->
  calls_within allowed (andThen m f).
Proof.
  intros Hm Hf s. unfold andThen.
  destruct (Hm s) as (evs1 & Ht1 & Hc1).
  destruct (m s) as [[a|e] s1]; simpl in Ht1.
  - destruct (Hf a s1) as (evs2 & Ht2 & Hc2).
    exists (evs1 ++ evs2). rewrite Ht2, Ht1, <- app_assoc.
    split; [reflexivity|]. rewrite fs_calls_app. now apply Forall_app.
  - exists evs1. now split.
Qed.

Lemma within_catch allowed {A} (m : P A) (h : JsError -> P A) :
  calls_within allowed m -> (forall e, calls_within allowed (h e)) ->
  calls_within allowed (catch m h).
Proof.
  intros Hm Hh s. unfold catch.
  destruct (Hm s) as (evs1 & Ht1 & Hc1).
  destruct (m s) as [[a|e] s1]; simpl in Ht1.
  - exists evs1. now split.
  - destruct (Hh e s1) as (evs2 & Ht2 & Hc2).
    exists (evs1 ++ evs2). rewrite Ht2, Ht1, <- app_assoc.
    split; [reflexivity|]. rewrite fs_calls_app. now apply Forall_app.
Qed.

Lemma within_fsCall (allowed : FsCall -> Prop) {A} c
      (raw : W -> Outcome A * W) :
  allowed c -> calls_within allowed (fsCall c raw).
Proof.
  intros Hc s. exists [EvFs c]. unfold fsCall.
  destruct (raw (world s)). split; [reflexivity|]. simpl. now constructor.
Qed.

Lemma within_doFS (allowed : FsCall -> Prop) {A} c
      (raw : W -> Outcome A * W) tries :
  allowed c -> calls_within allowed (doFS (fsCall c raw) tries).
Proof.
  intros Hc s.
  destruct (WorkerFacts.doFS_fsCall_trace c raw tries s) as (n & _ & Ht).
  exists (attempts_trace c n). split; [exact Ht|].
  rewrite attempts_trace_calls. apply Forall_forall.
  intros c' Hin%list_elem_of_In%repeat_spec. now subst c'.
Qed.

Lemma within_emit allowed message payload :
  calls_within allowed (emit message payload : P unit).
Proof.
  intros s. exists [EvSend message payload].
  split; [reflexivity | constructor].
Qed.

(** X2. Whatever the file system does, ['link-file'] touches nothing but
    its own paths: it makes the directory of the destination, writes the
    tag text to a file named [TAG_NAME] in a directory, removes the
    destination and links the destination to the source; it never
    examines, removes or links another path. *)
Theorem link_file_footprint source destination num :
  calls_within (link_file_call source destination)
               (link_file source destination num).
Proof.
  unfold link_file. apply within_catch.
  - apply within_andThen.
    + unfold prepare_destination. apply within_andThen.
      * apply within_fsCall. reflexivity.
      * intros [created|].
        -- apply within_andThen; [apply within_emit|]. intros _.
           apply within_doFS. simpl. split; [now exists created|reflexivity].
        -- apply within_catch; [apply within_doFS; reflexivity|].
           intros e. destruct (code_is "ENOENT" e);
             [apply within_resolve | apply within_reject].
    + intros _. apply within_andThen.
      * unfold create_link. apply within_catch.
        -- apply within_doFS. now split.
        -- intros e. destruct (negb (code_is "EEXIST" e));
             [apply within_reject|].
           apply within_andThen; [apply within_doFS; reflexivity|].
           intros _. apply within_doFS. now split.
      * intros _. apply within_andThen; [apply within_emit|].
        intros _. apply within_emit.
  - intros e. apply within_andThen; [|intros _; apply within_emit].
    destruct (code_is "EISDIR" e); apply within_emit.
Qed.

(** X3. Whatever the file system does, ['remove-link'] only examines and
    removes its destination: it never writes, links, or touches another
    path. *)
Theorem remove_link_footprint destination num :
  calls_within (remove_link_call destination) (remove_link destination num).
Proof.
  unfold remove_link. apply within_catch.
  - apply within_andThen; [apply within_doFS; now left|].
    intros stats. apply within_andThen; [|intros _; apply within_emit].
    destruct (isSymbolicLink stats);
      [apply within_doFS; now right | apply within_resolve].
  - intros e. apply within_emit.
Qed.

(** X4. The first step of ['link-file'] by what [ensureDir] answers. When
    it fails, nothing else is called. When it made a directory, the tag
    text is written (through [doFS]) to [TAG_NAME] in the directory it
    names, and nothing is removed. When the directory was there, nothing
    is written, the destination is removed (through [doFS]), and a
    destination that does not exist ([ENOENT]) is no failure, while any
    other error of the removal is. *)
Theorem prepare_destination_cases destination s :
  let dir := path_dirname destination in
  let made w := mkSt w (trace s ++ [EvFs (CEnsureDir dir)]) in
  match fs_ensureDir dir (world s) with
  | (inr e, w1) => prepare_destination destination s = (inr e, made w1)
  | (inl (Some created), w1) =>
      let tag := CWriteFile (path_join created TAG_NAME) TAG_TEXT in
      let logged :=
        record (EvSend "log" (PLog "debug" "created directory"
                                [("dirName", dir)])) (made w1) in
      prepare_destination destination s
      = doFS (fsCall tag (fs_writeFile (path_join created TAG_NAME) TAG_TEXT))
             default_tries logged /\
      exists n, n <= default_tries /\
        trace (snd (prepare_destination destination s))
        = trace logged ++ attempts_trace tag n
  | (inl None, w1) =>
      prepare_destination destination s
      = (match doFS (remove destination) default_tries (made w1) with
         | (inl _, s2) => (inl tt, s2)
         | (inr e, s2) =>
             (if code_is "ENOENT" e then inl tt else inr e, s2)
         end) /\
      exists n, n <= default_tries /\
        trace (snd (prepare_destination destination s))
        = trace (made w1) ++ attempts_trace (CRemove destination) n
  end.
Proof.
  intros dir made.
  assert (Hens : ensureDir dir s
                 = (fst (fs_ensureDir dir (world s)),
                    made (snd (fs_ensureDir dir (world s))))).
  { unfold ensureDir, fsCall. now destruct (fs_ensureDir dir (world s)). }
  unfold prepare_destination, andThen. fold dir. rewrite Hens.
  destruct (fs_ensureDir dir (world s)) as [[[created|]|e] w1];
    cbn [fst snd]; [| |reflexivity].
  - unfold emit, effect. cbv beta iota. split; [reflexivity|].
    apply (WorkerFacts.doFS_fsCall_trace
             (CWriteFile (path_join created TAG_NAME) TAG_TEXT)).
  - unfold catch.
    destruct (WorkerFacts.doFS_fsCall_trace (CRemove destination)
                (fs_remove destination) default_tries (made w1))
      as (n & Hn & Ht).
    fold (remove destination) in Ht. fold (made w1).
    destruct (doFS (remove destination) default_tries (made w1))
      as [[[]|e] s2]; cbn [fst snd] in Ht |- *.
    + split; [reflexivity|]. now exists n.
    + split; [now destruct (code_is "ENOENT" e)|]. exists n.
      split; [exact Hn|]. now destruct (code_is "ENOENT" e).
Qed.

Lemma create_link_resolved source destination s s2 :
  create_link source destination s = (inl tt, s2) ->
  exists s1, doFS (symlink source destination) default_tries s1 = (inl tt, s2).
Proof.
  unfold create_link, catch.
  destruct (doFS (symlink source destination) default_tries s)
    as [[[]|e] s1] eqn:Hlink.
  - intros [= <-]. now exists s.
  - destruct (negb (code_is "EEXIST" e)); [discriminate|].
    unfold andThen.
    destruct (doFS (remove destination) default_tries s1) as [[[]|e2] s1'];
      [|discriminate].
    intros Hretry. now exists s1'.
Qed.

(** X5. When ['link-file'] answers [completed] without an error, the link
    was made: some call of [symlink] from the destination to the source
    succeeded (through [doFS]), and the worker did nothing to the file
    system after it. *)
Theorem link_file_success_means_linked source destination num s :
  last (trace (snd (link_file source destination num s)))
  = Some (EvSend "completed" (PCompleted None num)) ->
  exists s1 s2,
    doFS (symlink source destination) default_tries s1 = (inl tt, s2) /\
    world (snd (link_file source destination num s)) = world s2.
Proof.
  rewrite WorkerFacts.link_file_eq.
  destruct ((prepare_destination destination >>
             create_link source destination) s) as [[[]|e] s'] eqn:Hsteps.
  - intros _. unfold andThen in Hsteps.
    destruct (prepare_destination destination s) as [[[]|e] s0];
      [|discriminate].
    destruct (create_link_resolved _ _ _ _ Hsteps) as (s1 & Hlink).
    now exists s1, s'.
  - simpl. rewrite last_snoc. discriminate.
Qed.

End Facts.

Import MemFs.

Lemma link_file_success_means_linked_witness :
  let s := start {[ "/game/Data" := NDir ]} [] in
  last (trace (snd (link_file "/staging/modA/a" "/game/Data/a" 3 s)))
  = Some (EvSend "completed" (PCompleted None 3)) /\
  exists s1 s2,
    doFS (symlink "/staging/modA/a" "/game/Data/a") default_tries s1
    = (inl tt, s2) /\
    world (snd (link_file "/staging/modA/a" "/game/Data/a" 3 s)) = world s2.
Proof.
  intros s.
  assert (H1 : last (trace (snd (link_file "/staging/modA/a" "/game/Data/a"
                                           3 s)))
               = Some (EvSend "completed" (PCompleted None 3)))
    by (vm_compute; reflexivity).
  split; [exact H1|].
  exact (link_file_success_means_linked "/staging/modA/a" "/game/Data/a" 3 s
           H1).
Defined.

End WorkerFootprintFacts.

(** ** The staging tag, the purge chain, [undeploy] and [onRemoveMod] *)

Module OrchestratorMoreFacts.
Import Orchestrator OrchestratorMore.

Section Facts.
Context {W Manifest Normalize : Type} `{Env W Manifest Normalize}.

Local Abbreviation P := (M (St W)).
Local Abbreviation Method := (IDeploymentMethod W Manifest Normalize).

(** X6. A staging folder whose tag names this instance is accepted without
    a word: the promise resolves, no dialog is shown and nothing but the
    read of the tag happens. *)
Theorem validateStagingTag_own_tag tagPath s data w1 :
  fs_readFileAsync tagPath (world s) = (inl data, w1) ->
  JSON_parse data = Some (TagValue (Some (app_instanceId (store s)))) ->
  validateStagingTag tagPath s = (inl tt, mkSt (store s) w1 (trace s)).
Proof.
  intros Hread Hparse.
  unfold validateStagingTag, catch, andThen, readFileAsync, ext, getState,
    gets.
  rewrite Hread. simpl. rewrite Hparse.
  now rewrite bool_decide_eq_true_2.
Qed.

(** X7. A folder whose tag cannot be read, is not JSON, or is JSON's
    [null]: exactly one dialog is shown, the one for a folder that is not
    marked; 'Cancel' rejects with [UserCanceled], any other answer
    accepts the folder. *)
Theorem validateStagingTag_untagged tagPath s :
  match fs_readFileAsync tagPath (world s) with
  | (inr _, _) => True
  | (inl data, _) => JSON_parse data = None \/ JSON_parse data = Some TagNull
  end ->
  let w1 := snd (fs_readFileAsync tagPath (world s)) in
  let answer := showDialog_answer "question" "Confirm" NOT_MARKED
                                  ["Cancel"; "I'm sure"] w1 in
  validateStagingTag tagPath s
  = (if bool_decide (fst answer = "Cancel")
     then inr new_UserCanceled else inl tt,
     mkSt (store s) (snd answer)
          (trace s ++ [EvDialog "question" "Confirm" NOT_MARKED
                                ["Cancel"; "I'm sure"]])).
Proof.
  intros Hbad w1 answer. subst w1 answer.
  unfold validateStagingTag, catch, andThen, readFileAsync, ext, getState,
    gets, showDialog.
  destruct (fs_readFileAsync tagPath (world s)) as [[data|e] w1]; simpl.
  - destruct Hbad as [-> | ->]; simpl;
      destruct (showDialog_answer "question" "Confirm" NOT_MARKED
                  ["Cancel"; "I'm sure"] w1) as [answer w2]; simpl;
      destruct (bool_decide (answer = "Cancel")); reflexivity.
  - destruct (showDialog_answer "question" "Confirm" NOT_MARKED
                ["Cancel"; "I'm sure"] w1) as [answer w2]; simpl.
    destruct (bool_decide (answer = "Cancel")); reflexivity.
Qed.

(** X8. A folder tagged by another instance and the user not cancelling:
    one dialog is shown, the one for a foreign folder, and the folder is
    accepted. *)
Theorem validateStagingTag_foreign_continue
        tagPath s data w1 instance answer w2 :
  fs_readFileAsync tagPath (world s) = (inl data, w1) ->
  JSON_parse data = Some (TagValue instance) ->
  instance <> Some (app_instanceId (store s)) ->
  showDialog_answer "question" "Confirm" DIFFERENT_INSTANCE
                    ["Cancel"; "Continue"] w1 = (answer, w2) ->
  answer <> "Cancel" ->
  validateStagingTag tagPath s
  = (inl tt,
     mkSt (store s) w2
          (trace s ++ [EvDialog "question" "Confirm" DIFFERENT_INSTANCE
                                ["Cancel"; "Continue"]])).
Proof.
  intros Hread Hparse Hinstance Hfirst Hanswer.
  unfold validateStagingTag, catch, andThen, readFileAsync, ext, getState,
    gets, showDialog.
  rewrite Hread. simpl. rewrite Hparse.
  rewrite bool_decide_eq_false_2 by exact Hinstance. simpl.
  rewrite Hfirst. simpl.
  now rewrite bool_decide_eq_false_2 by exact Hanswer.
Qed.

(** X9. Whatever the tag file and the user do, [validateStagingTag] shows
    at most two dialogs and nothing else, leaves the store alone, and
    the only error it ever rejects with is [UserCanceled], after at least
    one dialog: a read or parse error never comes out. *)
Theorem validateStagingTag_outcomes tagPath s :
  let r := validateStagingTag tagPath s in
  store (snd r) = store s /\
  exists evs,
    trace (snd r) = trace s ++ evs /\
    forallb is_dialog evs = true /\
    length evs <= 2 /\
    match fst r with
    | inl _ => True
    | inr e => e = new_UserCanceled /\ evs <> []
    end.
Proof.
  unfold validateStagingTag, catch, andThen, readFileAsync, ext, getState,
    gets, showDialog.
  destruct (fs_readFileAsync tagPath (world s)) as [[data|e] w1]; simpl.
  - destruct (JSON_parse data) as [[|instance]|]; simpl.
    + destruct (showDialog_answer "question" "Confirm" NOT_MARKED
                  ["Cancel"; "I'm sure"] w1) as [answer w2]; simpl.
      split; [now destruct (bool_decide (answer = "Cancel"))|].
      eexists [_]. destruct (bool_decide (answer = "Cancel")); simpl;
        repeat split; try lia; discriminate.
    + destruct (bool_decide (instance = Some (app_instanceId (store s))));
        simpl.
      * split; [reflexivity|]. exists []. rewrite app_nil_r.
        repeat split. simpl. lia.
      * destruct (showDialog_answer "question" "Confirm" DIFFERENT_INSTANCE
                    ["Cancel"; "Continue"] w1) as [answer w2]; simpl.
        destruct (bool_decide (answer = "Cancel")); simpl.
        -- destruct (showDialog_answer "question" "Confirm" NOT_MARKED
                       ["Cancel"; "I'm sure"] w2) as [answer2 w3]; simpl.
           split; [now destruct (bool_decide (answer2 = "Cancel"))|].
           eexists [_; _]. rewrite <- app_assoc.
           destruct (bool_decide (answer2 = "Cancel")); simpl;
             repeat split; try lia; discriminate.
        -- split; [reflexivity|]. eexists [_]. repeat split. simpl. lia.
    + destruct (showDialog_answer "question" "Confirm" NOT_MARKED
                  ["Cancel"; "I'm sure"] w1) as [answer w2]; simpl.
      split; [now destruct (bool_decide (answer = "Cancel"))|].
      eexists [_]. destruct (bool_decide (answer = "Cancel")); simpl;
        repeat split; try lia; discriminate.
  - destruct (showDialog_answer "question" "Confirm" NOT_MARKED
                ["Cancel"; "I'm sure"] w1) as [answer w2]; simpl.
    split; [now destruct (bool_decide (answer = "Cancel"))|].
    eexists [_]. destruct (bool_decide (answer = "Cancel")); simpl;
      repeat split; try lia; discriminate.
Qed.

(** *** The purge chain *)

Lemma purge_handlers_eq (oldActivator : Method) instPath modPaths s :
  catch
    (catchIf (fun e => instanceof e TemporaryError)
       (catchIf (fun e => instanceof e ProcessCanceled)
          (purge_all oldActivator instPath modPaths)
          (fun _ => resolve tt))
       (fun err =>
          showErrorNotification "Purge failed, please try again"
            (DetailMessage (err_message err)) (Some false)))
    purge_failed s
  = match purge_all oldActivator instPath modPaths s with
    | (inl _, s3) => (inl tt, s3)
    | (inr e, s3) =>
        (inl tt, mkSt (store s3) (world s3) (trace s3 ++ purge_notification e))
    end.
Proof.
  unfold catchIf, catch.
  destruct (purge_all oldActivator instPath modPaths s) as [[[]|e] s3];
    [reflexivity|].
  unfold purge_notification, instanceof, purge_failed.
  destruct e as [cls code msg]. destruct cls; simpl;
    rewrite ?app_nil_r; try reflexivity; now destruct s3.
Qed.

Lemma initProm_purge_eq oldInit (oldActivator : Method) instPath modPaths :
  initProm_purge oldInit oldActivator instPath modPaths
  = finally
      (catchIf (fun e => instanceof e ProcessCanceled)
         (oldInit >>
          ext (prePurge oldActivator instPath) >>
          catch
            (catchIf (fun e => instanceof e TemporaryError)
               (catchIf (fun e => instanceof e ProcessCanceled)
                  (purge_all oldActivator instPath modPaths)
                  (fun _ => resolve tt))
               (fun err =>
                  showErrorNotification "Purge failed, please try again"
                    (DetailMessage (err_message err)) (Some false)))
            purge_failed)
         (fun _ => resolve tt))
      (ext (postPurge oldActivator)).
Proof. reflexivity. Qed.

(** X10. A failing purge never blocks the change of the deployment
    method: when the earlier initialisation and [prePurge] are fulfilled
    or canceled ([ProcessCanceled]) and [postPurge] is fulfilled, the
    step is fulfilled, whatever error the purge of a mod type ends
    with. *)
Theorem purge_failure_not_fatal oldInit (oldActivator : Method)
        instPath modPaths :
  (forall s, fulfilled_or_canceled (fst (oldInit s)) = true) ->
  (forall w, fulfilled_or_canceled
               (fst (prePurge oldActivator instPath w)) = true) ->
  (forall w, fst (postPurge oldActivator w) = inl tt) ->
  forall s,
    fst (initProm_purge oldInit oldActivator instPath modPaths s) = inl tt.
Proof.
  intros Hinit Hpre Hpost s. rewrite initProm_purge_eq.
  set (inner := catch _ purge_failed).
  assert (Hinner : forall s, fst (inner s) = inl tt).
  { intros s'. subst inner. rewrite purge_handlers_eq.
    now destruct (purge_all oldActivator instPath modPaths s')
      as [[[]|e] s3]. }
  clearbody inner.
  unfold finally, catchIf, catch, andThen, ext.
  specialize (Hinit s).
  destruct (oldInit s) as [[[]|e] s1]; simpl in Hinit.
  - specialize (Hpre (world s1)).
    destruct (prePurge oldActivator instPath (world s1)) as [[[]|e] w2];
      simpl in Hpre.
    + specialize (Hinner (mkSt (store s1) w2 (trace s1))).
      destruct (inner (mkSt (store s1) w2 (trace s1))) as [r s4].
      simpl in Hinner. subst r. specialize (Hpost (world s4)).
      destruct (postPurge oldActivator (world s4)) as [[[]|e] w5];
        [reflexivity | discriminate].
    + rewrite Hpre. simpl. specialize (Hpost w2).
      destruct (postPurge oldActivator w2) as [[[]|e'] w5];
        [reflexivity | discriminate].
  - rewrite Hinit. simpl. specialize (Hpost (world s1)).
    destruct (postPurge oldActivator (world s1)) as [[[]|e'] w5];
      [reflexivity | discriminate].
Qed.

(** X11. The purge chain once the earlier initialisation and [prePurge]
    are fulfilled: an error of the purge shows at most one notification,
    none for [ProcessCanceled], 'Purge failed, please try again' (not
    to be reported) for [TemporaryError], 'Purge failed' for the rest;
    [postPurge] runs after it in every case and its outcome is the
    outcome of the step. *)
Theorem purge_chain_notifies oldInit (oldActivator : Method)
        instPath modPaths s s1 w2 :
  oldInit s = (inl tt, s1) ->
  prePurge oldActivator instPath (world s1) = (inl tt, w2) ->
  let purged :=
    purge_all oldActivator instPath modPaths
              (mkSt (store s1) w2 (trace s1)) in
  let post := postPurge oldActivator (world (snd purged)) in
  initProm_purge oldInit oldActivator instPath modPaths s
  = (fst post,
     mkSt (store (snd purged)) (snd post)
          (trace (snd purged)
           ++ match fst purged with
              | inl _ => []
              | inr e => purge_notification e
              end)).
Proof.
  intros Hinit Hpre purged post. subst purged post.
  rewrite initProm_purge_eq.
  set (inner := catch _ purge_failed).
  assert (Hinner : forall s, inner s
                             = match purge_all oldActivator instPath
                                               modPaths s with
                               | (inl _, s3) => (inl tt, s3)
                               | (inr e, s3) =>
                                   (inl tt,
                                    mkSt (store s3) (world s3)
                                         (trace s3 ++ purge_notification e))
                               end)
    by (intros s'; apply purge_handlers_eq).
  clearbody inner.
  unfold finally, catchIf, catch, andThen, ext.
  rewrite Hinit, Hpre, Hinner.
  destruct (purge_all oldActivator instPath modPaths
              (mkSt (store s1) w2 (trace s1))) as [[[]|e] s3];
    cbn [fst snd store world trace];
    destruct (postPurge oldActivator (world s3)) as [[[]|e'] w5];
    cbn [fst snd]; rewrite ?app_nil_r; reflexivity.
Qed.

(** *** [undeploy] *)

(** X12. [undeploy] when there is nothing to undeploy from. For a game
    that is not discovered, or discovered without a path, it resolves and
    touches nothing. For a game that is discovered but not registered
    ([getGame] answers [undefined]) it throws a [TypeError] in the call,
    before there is a promise. For a registered game with no deployment
    method to use it rejects with [ProcessCanceled] and touches nothing;
    with a method, but no deploy path for the type of the mod, it
    resolves and touches nothing. *)
Theorem undeploy_without_target (activators : list Method) gameMode m s :
  (discovered (store s) !! gameMode ≫= discovery_path = None ->
   undeploy activators gameMode m s = Returns (inl tt, s)) /\
  (forall discoveryPath,
      discovered (store s) !! gameMode ≫= discovery_path
      = Some discoveryPath ->
      getGame gameMode = None ->
      undeploy activators gameMode m s
      = Throws (TypeError
                  "Cannot read property 'getModPaths' of undefined")) /\
  (forall discoveryPath game,
      discovered (store s) !! gameMode ≫= discovery_path
      = Some discoveryPath ->
      getGame gameMode = Some game ->
      chosen_activator activators (store s) gameMode
                       (map fst (getModPaths game discoveryPath)) = None ->
      undeploy activators gameMode m s
      = Returns (inr (new_ProcessCanceled "No deployment method active"),
                 s)) /\
  (forall discoveryPath game activator,
      discovered (store s) !! gameMode ≫= discovery_path
      = Some discoveryPath ->
      getGame gameMode = Some game ->
      chosen_activator activators (store s) gameMode
                       (map fst (getModPaths game discoveryPath))
      = Some activator ->
      modPath_of (getModPaths game discoveryPath) (type_or_default m)
      = None ->
      undeploy activators gameMode m s = Returns (inl tt, s)).
Proof.
  unfold undeploy, chosen_activator. cbv zeta.
  destruct (discovered (store s) !! gameMode) as [discovery|]; simpl;
    [|repeat split; intros; discriminate].
  destruct (discovery_path discovery) as [discoveryPath|]; simpl;
    [|repeat split; intros; discriminate].
  split; [discriminate|]. split; [|split].
  - intros ? [= <-] ->. reflexivity.
  - intros ? game [= <-] -> Hact. now rewrite Hact.
  - intros ? game activator [= <-] -> Hact Hdeploy.
    now rewrite Hact, Hdeploy.
Qed.

(** X13. [undeploy] with a registered game, a method and a deploy path.
    When one of the steps up to [deactivate] fails, the method's
    [cancel], if it has one, runs, whatever it answers is dropped, the
    manifest is neither finalized nor saved, and [undeploy] rejects with
    the error of the step. When they succeed, the manifest [finalize]
    returns is the one saved, under the instance id of the application
    and the id of the method. *)
Theorem undeploy_cancels_or_saves (activators : list Method) gameMode m s
        discovery discoveryPath game activator deployPath :
  discovered (store s) !! gameMode = Some discovery ->
  discovery_path discovery = Some discoveryPath ->
  getGame gameMode = Some game ->
  let modPaths := getModPaths game discoveryPath in
  let stagingPath := installPathForGame (store s) gameMode in
  chosen_activator activators (store s) gameMode (map fst modPaths)
  = Some activator ->
  modPath_of modPaths (type_or_default m) = Some deployPath ->
  match deactivate_steps activator game deployPath stagingPath m s with
  | (inr e, s1) =>
      undeploy activators gameMode m s
      = Returns
          (inr e,
           mkSt (store s1)
                (canceled activator gameMode deployPath stagingPath
                          (world s1))
                (trace s1))
  | (inl _, s1) =>
      undeploy activators gameMode m s
      = Returns
          ((let* newActivation :=
              ext (finalize activator gameMode deployPath stagingPath) in
            ext (saveActivation (mod_type m) (app_instanceId (store s))
                                deployPath stagingPath newActivation
                                (act_id activator))) s1)
  end.
Proof.
  intros Hdisc Hpath Hgame modPaths stagingPath Hact Hdeploy.
  assert (Heq : undeploy activators gameMode m s
                = Returns
                    ((let* newActivation :=
                        tapCatch
                          (deactivate_steps activator game deployPath
                                            stagingPath m)
                          (fun _ =>
                             match cancel activator with
                             | Some cancel =>
                                 fun s =>
                                   (inl tt,
                                    mkSt (store s)
                                         (snd (cancel gameMode deployPath
                                                      stagingPath (world s)))
                                         (trace s))
                             | None => resolve tt
                             end) >>
                        ext (finalize activator gameMode deployPath
                                      stagingPath) in
                      ext (saveActivation (mod_type m)
                                          (app_instanceId (store s))
                                          deployPath stagingPath newActivation
                                          (act_id activator))) s)).
  { unfold undeploy. cbv zeta.
    rewrite Hdisc, Hpath, Hgame. unfold chosen_activator in Hact.
    fold modPaths. rewrite Hact. rewrite Hdeploy. reflexivity. }
  rewrite Heq. unfold andThen, tapCatch, canceled.
  destruct (deactivate_steps activator game deployPath stagingPath m s)
    as [[[]|e] s1].
  - reflexivity.
  - destruct (cancel activator) as [cancel|]; [reflexivity|].
    simpl. now destruct s1.
Qed.

(** *** [onRemoveMod] *)

Lemma steps_showDialog type title text actions :
  adds_only is_removal_step (showDialog type title text actions : P string).
Proof.
  intros s. unfold showDialog.
  destruct (showDialog_answer type title text actions (world s)). simpl.
  split; [reflexivity|]. now exists [EvDialog type title text actions].
Qed.

Lemma steps_removeAsync target :
  adds_only is_removal_step (removeAsync target).
Proof.
  intros s. unfold removeAsync. destruct (fs_removeAsync target (world s)).
  simpl. split; [reflexivity|]. now exists [EvRemoveAsync target].
Qed.

Lemma steps_emit_deploy_mods : adds_only is_removal_step emit_deploy_mods.
Proof.
  intros s. unfold emit_deploy_mods. destruct (deploy_mods (world s)).
  simpl. split; [reflexivity|]. now exists [EvEmit "deploy-mods"].
Qed.

Lemma steps_undeployMod (activators : list Method) gameMode m :
  call_adds_only is_removal_step (undeployMod activators gameMode m).
Proof.
  intros s run. unfold undeployMod.
  destruct (installationPath m);
    [|intros [= <-];
      exact (OrchestratorFacts.quiet_resolve is_removal_step tt s)].
  destruct (undeploy activators gameMode m s) as [e|run0] eqn:Hundeploy;
    [discriminate|].
  intros [= <-]. apply OrchestratorFacts.quiet_promised_catchIf.
  - apply (OrchestratorFacts.run_adds_only_weaken nothing); [discriminate|].
    now apply (OrchestratorFacts.quiet_undeploy activators gameMode m).
  - intros _. apply OrchestratorFacts.quiet_andThen;
      [apply steps_showDialog|].
    intros result. destruct (bool_decide (result = "Deploy"));
      [apply steps_emit_deploy_mods | apply OrchestratorFacts.quiet_resolve].
Qed.

Lemma steps_removeModFiles installPath m :
  adds_only is_removal_step (removeModFiles installPath m).
Proof.
  unfold removeModFiles.
  destruct (truthy (installationPath m));
    [|apply OrchestratorFacts.quiet_resolve].
  destruct (installationPath m); [|apply OrchestratorFacts.quiet_reject].
  apply OrchestratorFacts.quiet_catch.
  - apply OrchestratorFacts.quiet_catchIf; [apply steps_removeAsync|].
    intros _. apply steps_removeAsync.
  - intros e. destruct (code_is "ENOENT" e);
      [apply OrchestratorFacts.quiet_resolve
      | apply OrchestratorFacts.quiet_reject].
Qed.

Lemma steps_removal (activators : list Method) gameMode modId m s run :
  removal_steps activators gameMode modId m s = Returns run ->
  run_adds_only is_removal_step (removal_start gameMode modId s) run.
Proof.
  unfold removal_steps. cbv zeta.
  destruct (undeployMod activators gameMode m
              (removal_start gameMode modId s)) as [e|run0] eqn:Hmod;
    [discriminate|].
  intros [= <-]. apply OrchestratorFacts.quiet_promised_andThen.
  - now apply (steps_undeployMod activators gameMode m).
  - intros _. apply steps_removeModFiles.
Qed.

(** [undeploy] throws only for a game that is discovered, with a path,
    and not registered. *)
Lemma undeploy_throws (activators : list Method) gameMode m s e :
  undeploy activators gameMode m s = Throws e ->
  getGame gameMode = None /\
  exists discoveryPath,
    discovered (store s) !! gameMode ≫= discovery_path = Some discoveryPath.
Proof.
  unfold undeploy. cbv zeta.
  destruct (discovered (store s) !! gameMode) as [discovery|];
    [|discriminate]. simpl.
  destruct (discovery_path discovery) as [discoveryPath|]; [|discriminate].
  destruct (getGame gameMode) as [game|]; [|intros _; split; eauto].
  match goal with
  | |- context [match ?a with Some _ => _ | None => Returns (reject _ s) end] =>
      destruct a as [activator|]
  end; [|discriminate].
  destruct (modPath_of _ _); discriminate.
Qed.




(** What a removal adds to the trace, from the first dispatch to the
    last, and where it stops when [undeployMod()] throws. *)
Lemma onRemoveMod_added (activators : list Method)
      gameMode modId callback s m :
  catalog_lookup (store s) gameMode modId = Some m ->
  mod_state m ∈ ["downloaded"; "installed"] ->
  let profileId :=
    match lastActiveProfile (store s) !! gameMode with
    | Some (LastActiveId p) => Some p
    | Some (LastActiveObject p) => p
    | None => None
    end in
  let started :=
    [EvDispatch (setModEnabled profileId modId false);
     EvDispatch (startActivity "mods" ("removing_" ++ modId))] in
  let r := onRemoveMod activators gameMode modId callback s in
  match removal_steps activators gameMode modId m s with
  | Throws e =>
      fst r = inr e /\ added s (snd r) = started /\
      getGame gameMode = None /\
      exists discoveryPath,
        discovered (store s) !! gameMode ≫= discovery_path
        = Some discoveryPath
  | Returns steps =>
      fst r = inl tt /\
      exists evs,
        forallb is_removal_step evs = true /\
        trace (snd steps) = trace (removal_start gameMode modId s) ++ evs /\
        added s (snd r)
        = started
          ++ evs
          ++ match fst steps with
             | inl _ =>
                 EvDispatch (removeMod gameMode (mod_id m))
                 :: (if callback then [EvCallback None] else [])
             | inr e => failure_events callback e
             end
          ++ [EvDispatch (stopActivity "mods" ("removing_" ++ modId))]
  end.
Proof.
  intros Hm Hstate profileId started r. subst r started.
  rewrite (OrchestratorFacts.onRemoveMod_eq _ _ _ _ _ _ Hm Hstate).
  assert (Ht0 : trace (removal_start gameMode modId s)
                = trace s
                  ++ [EvDispatch (setModEnabled profileId modId false);
                      EvDispatch (startActivity "mods"
                                    ("removing_" ++ modId))]).
  { unfold removal_start. simpl. now rewrite <- app_assoc. }
  pose proof (steps_removal activators gameMode modId m s) as Hsteps.
  destruct (removal_steps activators gameMode modId m s) as [e|steps]
    eqn:Hremoval.
  - cbn [fst snd]. split; [reflexivity|].
    split; [now apply OrchestratorFacts.added_app|].
    unfold removal_steps in Hremoval. cbv zeta in Hremoval.
    destruct (undeployMod activators gameMode m
                (removal_start gameMode modId s)) as [e'|run0] eqn:Hmod;
      [|discriminate].
    unfold undeployMod in Hmod.
    destruct (installationPath m); [|discriminate].
    destruct (undeploy activators gameMode m
                (removal_start gameMode modId s)) as [e''|run1] eqn:Hundeploy;
      [|discriminate].
    exact (undeploy_throws _ _ _ _ _ Hundeploy).
  - destruct (Hsteps steps eq_refl) as (_ & evs & Ht & Hq).
    destruct steps as [[[]|e] s2]; cbn [fst snd] in Ht |- *;
      (split; [reflexivity|]); exists evs;
      (split; [exact Hq|]); (split; [exact Ht|]);
      apply OrchestratorFacts.added_app;
      cbn [trace]; rewrite Ht, Ht0, <- !app_assoc; reflexivity.
Qed.


(** X15. A removal is bracketed: for a mod that can be removed, the first
    thing [onRemoveMod] does is to disable it in the last active profile
    of the game, the second to start the activity [removing_<id>], and,
    when [onRemoveMod] returns, the last, whether the removal succeeded
    or failed, was to stop that activity. When [onRemoveMod] throws (see
    X14), the activity was started and nothing came after: it is never
    stopped. *)
Theorem onRemoveMod_brackets (activators : list Method)
        gameMode modId callback s m :
  catalog_lookup (store s) gameMode modId = Some m ->
  mod_state m ∈ ["downloaded"; "installed"] ->
  let profileId :=
    match lastActiveProfile (store s) !! gameMode with
    | Some (LastActiveId p) => Some p
    | Some (LastActiveObject p) => p
    | None => None
    end in
  let r := onRemoveMod activators gameMode modId callback s in
  match fst r with
  | inl _ =>
      exists between,
        added s (snd r)
        = EvDispatch (setModEnabled profileId modId false)
          :: EvDispatch (startActivity "mods" ("removing_" ++ modId))
          :: between
          ++ [EvDispatch (stopActivity "mods" ("removing_" ++ modId))]
  | inr _ =>
      added s (snd r)
      = [EvDispatch (setModEnabled profileId modId false);
         EvDispatch (startActivity "mods" ("removing_" ++ modId))]
  end.
Proof.
  intros Hm Hstate profileId r. subst r.
  pose proof (onRemoveMod_added activators gameMode modId callback s m
                Hm Hstate) as Hadded.
  cbv zeta in Hadded.
  destruct (removal_steps activators gameMode modId m s) as [e|steps].
  - destruct Hadded as (-> & -> & _). reflexivity.
  - destruct Hadded as (-> & evs & _ & _ & ->).
    eexists. simpl. rewrite app_assoc. reflexivity.
Qed.

(** X16. A mod without an installation path (nothing of it is staged) is
    removed without touching the world: nothing is undeployed, no file
    is deleted, no dialog is shown; the mod leaves the catalog and the
    callback gets [null]. *)
Theorem onRemoveMod_without_files (activators : list Method)
        gameMode modId callback s m :
  catalog_lookup (store s) gameMode modId = Some m ->
  mod_state m ∈ ["downloaded"; "installed"] ->
  installationPath m = None ->
  truthy None = false ->
  let s' := snd (onRemoveMod activators gameMode modId callback s) in
  world s' = world s /\
  List.filter is_removal_step (added s s') = [] /\
  EvDispatch (removeMod gameMode (mod_id m)) ∈ added s s' /\
  (callback = true -> EvCallback None ∈ added s s').
Proof.
  intros Hm Hstate Hpath Htruthy s'. subst s'.
  assert (Hsteps : removal_steps activators gameMode modId m s
                   = Returns (inl tt, removal_start gameMode modId s)).
  { unfold removal_steps, undeployMod, removeModFiles, andThen, promised.
    rewrite Hpath, Htruthy. reflexivity. }
  pose proof (onRemoveMod_added activators gameMode modId callback s m
                Hm Hstate) as Hadded.
  cbv zeta in Hadded. rewrite Hsteps in Hadded.
  destruct Hadded as (_ & evs & _ & Ht & Hadded).
  cbn [fst snd] in Ht, Hadded.
  assert (evs = []) as ->.
  { apply (app_inv_head (trace (removal_start gameMode modId s))).
    now rewrite app_nil_r. }
  rewrite Hadded.
  rewrite (OrchestratorFacts.onRemoveMod_eq _ _ _ _ _ _ Hm Hstate), Hsteps.
  split; [reflexivity|]. split; [now destruct callback|]. split.
  - simpl. do 2 apply list_elem_of_further. apply list_elem_of_here.
  - intros ->. simpl. do 3 apply list_elem_of_further.
    apply list_elem_of_here.
Qed.

(** *** The mods that are gone from the staging folder *)

Lemma remove_missing_eq knownMods gameId modNames (s : St W) :
  (forall name, name ∈ modNames -> is_Some (knownMods !! name)) ->
  fst (remove_missing knownMods gameId modNames s) = inl tt /\
  world (snd (remove_missing knownMods gameId modNames s)) = world s /\
  trace (snd (remove_missing knownMods gameId modNames s))
  = trace s ++ map (fun name => EvDispatch (removeMod gameId name))
                   (List.filter (removable knownMods) modNames).
Proof.
  revert s. induction modNames as [|name rest IH]; intros s Hknown.
  - simpl. now rewrite app_nil_r.
  - cbn [remove_missing List.filter].
    destruct (Hknown name (list_elem_of_here _ _)) as [m Hm].
    unfold removable at 1. rewrite Hm.
    assert (Hrest : forall name', name' ∈ rest ->
                                  is_Some (knownMods !! name'))
      by (intros name' Hin; apply Hknown; now apply list_elem_of_further).
    unfold andThen.
    destruct (bool_decide (mod_state m ∈ ["downloaded"; "installed"])).
    + unfold dispatch, effect. cbv beta iota.
      destruct (IH (mkSt (reduce (removeMod gameId name) (store s))
                                (world s)
                                (trace s ++ [EvDispatch
                                               (removeMod gameId name)]))
                          Hrest) as (Hr & Hw & Ht).
      split; [exact Hr|]. split; [exact Hw|].
      rewrite Ht. cbn [trace]. now rewrite <- app_assoc.
    + unfold resolve. cbv beta iota. apply (IH s Hrest).
Qed.

(** X17. Of the mods the refresh reports as gone from the staging folder,
    exactly those in state [downloaded] or [installed] are removed from
    the catalog, in the order reported; a mod in another state (being
    installed, say) is left alone, and nothing else happens. *)
Theorem remove_missing_only_finished knownMods gameId modNames (s : St W) :
  (forall name, name ∈ modNames -> is_Some (knownMods !! name)) ->
  let r := remove_missing knownMods gameId modNames s in
  fst r = inl tt /\
  world (snd r) = world s /\
  added s (snd r)
  = map (fun name => EvDispatch (removeMod gameId name))
        (List.filter (removable knownMods) modNames) /\
  (forall name m,
      knownMods !! name = Some m ->
      mod_state m ∉ ["downloaded"; "installed"] ->
      EvDispatch (removeMod gameId name) ∉ added s (snd r)).
Proof.
  intros Hknown r. subst r.
  destruct (remove_missing_eq knownMods gameId modNames s Hknown)
    as (Hr & Hw & Ht).
  split; [exact Hr|]. split; [exact Hw|].
  rewrite (OrchestratorFacts.added_app _ _ _ Ht).
  split; [reflexivity|].
  intros name m Hm Hstate Hin.
  apply list_elem_of_fmap in Hin as (name' & [= <-] & Hin).
  apply list_elem_of_In, filter_In in Hin as [_ Hrem].
  unfold removable in Hrem. rewrite Hm in Hrem.
  now apply bool_decide_eq_true_1 in Hrem.
Qed.

End Facts.

(** *** In the scripted world *)

Import Script ScriptMore.

Lemma validateStagingTag_own_tag_witness :
  let tag := "/mods/__vortex_staging_folder" in
  let s := start "installed" (tagged "instance-A" []) in
  (fs_readFileAsync tag (world s) = (inl "instance=instance-A", world s) /\
   JSON_parse "instance=instance-A"
   = Some (TagValue (Some (app_instanceId (store s))))) /\
  validateStagingTag tag s = (inl tt, mkSt (store s) (world s) (trace s)).
Proof.
  intros tag s.
  assert (H1 : fs_readFileAsync tag (world s)
               = (inl "instance=instance-A", world s))
    by (vm_compute; reflexivity).
  assert (H2 : JSON_parse "instance=instance-A"
               = Some (TagValue (Some (app_instanceId (store s)))))
    by (vm_compute; reflexivity).
  split; [now split|].
  exact (validateStagingTag_own_tag tag s _ _ H1 H2).
Defined.

Lemma validateStagingTag_untagged_witness :
  let tag := "/mods/__vortex_staging_folder" in
  let s := start "installed" (mkScriptW ["I'm sure"] ∅ [] None None) in
  match fs_readFileAsync tag (world s) with
  | (inr _, _) => True
  | (inl data, _) => JSON_parse data = None \/ JSON_parse data = Some TagNull
  end /\
  let w1 := snd (fs_readFileAsync tag (world s)) in
  let answer := showDialog_answer "question" "Confirm" NOT_MARKED
                                  ["Cancel"; "I'm sure"] w1 in
  validateStagingTag tag s
  = (if bool_decide (fst answer = "Cancel")
     then inr new_UserCanceled else inl tt,
     mkSt (store s) (snd answer)
          (trace s ++ [EvDialog "question" "Confirm" NOT_MARKED
                                ["Cancel"; "I'm sure"]])).
Proof.
  intros tag s.
  assert (H1 : match fs_readFileAsync tag (world s) with
               | (inr _, _) => True
               | (inl data, _) =>
                   JSON_parse data = None \/ JSON_parse data = Some TagNull
               end)
    by (vm_compute; exact I).
  split; [exact H1|].
  exact (validateStagingTag_untagged tag s H1).
Defined.

Lemma validateStagingTag_foreign_continue_witness :
  let tag := "/mods/__vortex_staging_folder" in
  let s := start "installed" (tagged "instance-B" ["Continue"]) in
  let w := tagged "instance-B" [] in
  (fs_readFileAsync tag (world s) = (inl "instance=instance-B", world s) /\
   JSON_parse "instance=instance-B" = Some (TagValue (Some "instance-B")) /\
   Some "instance-B" <> Some (app_instanceId (store s)) /\
   showDialog_answer "question" "Confirm" DIFFERENT_INSTANCE
                     ["Cancel"; "Continue"] (world s) = ("Continue", w) /\
   "Continue" <> "Cancel") /\
  validateStagingTag tag s
  = (inl tt,
     mkSt (store s) w
          (trace s ++ [EvDialog "question" "Confirm" DIFFERENT_INSTANCE
                                ["Cancel"; "Continue"]])).
Proof.
  intros tag s w.
  assert (H1 : fs_readFileAsync tag (world s)
               = (inl "instance=instance-B", world s))
    by (vm_compute; reflexivity).
  assert (H2 : JSON_parse "instance=instance-B"
               = Some (TagValue (Some "instance-B")))
    by (vm_compute; reflexivity).
  assert (H3 : Some "instance-B" <> Some (app_instanceId (store s)))
    by discriminate.
  assert (H4 : showDialog_answer "question" "Confirm" DIFFERENT_INSTANCE
                                 ["Cancel"; "Continue"] (world s)
               = ("Continue", w))
    by (vm_compute; reflexivity).
  assert (H5 : "Continue" <> "Cancel") by discriminate.
  split; [now repeat split|].
  exact (validateStagingTag_foreign_continue tag s _ _ _ _ _
           H1 H2 H3 H4 H5).
Defined.

Lemma purge_failure_not_fatal_witness :
  let oldInit : M (St ScriptW) unit := resolve tt in
  let method := scripted_method "symlink" in
  ((forall s, fulfilled_or_canceled (fst (oldInit s)) = true) /\
   (forall w, fulfilled_or_canceled
                (fst (prePurge method "/staging/game1" w)) = true) /\
   (forall w, fst (postPurge method w) = inl tt)) /\
  fst (initProm_purge oldInit method "/staging/game1" [("", "/game/Data")]
         (start "installed" (mkScriptW [] ∅ [] (Some "EPERM") None)))
  = inl tt.
Proof.
  intros oldInit method.
  assert (H1 : forall s, fulfilled_or_canceled (fst (oldInit s)) = true)
    by reflexivity.
  assert (H2 : forall w, fulfilled_or_canceled
                           (fst (prePurge method "/staging/game1" w)) = true)
    by reflexivity.
  assert (H3 : forall w, fst (postPurge method w) = inl tt) by reflexivity.
  split; [now repeat split|].
  exact (purge_failure_not_fatal oldInit method "/staging/game1"
           [("", "/game/Data")] H1 H2 H3 _).
Defined.

Lemma purge_chain_notifies_witness :
  let oldInit : M (St ScriptW) unit := resolve tt in
  let method := scripted_method "symlink" in
  let s := start "installed" (mkScriptW [] ∅ [] (Some "EPERM") None) in
  (oldInit s = (inl tt, s) /\
   prePurge method "/staging/game1" (world s) = (inl tt, world s)) /\
  let purged :=
    purge_all method "/staging/game1" [("", "/game/Data")]
              (mkSt (store s) (world s) (trace s)) in
  let post := postPurge method (world (snd purged)) in
  initProm_purge oldInit method "/staging/game1" [("", "/game/Data")] s
  = (fst post,
     mkSt (store (snd purged)) (snd post)
          (trace (snd purged)
           ++ match fst purged with
              | inl _ => []
              | inr e => purge_notification e
              end)).
Proof.
  intros oldInit method s.
  assert (H1 : oldInit s = (inl tt, s)) by reflexivity.
  assert (H2 : prePurge method "/staging/game1" (world s)
               = (inl tt, world s)) by reflexivity.
  split; [now split|].
  exact (purge_chain_notifies oldInit method "/staging/game1"
           [("", "/game/Data")] s s (world s) H1 H2).
Defined.

(** A purge that fails with a [TemporaryError] is shown as such, and is
    not to be reported. *)
Example purge_temporary_error :
  let failing : IDeploymentMethod ScriptW (list string) unit := {|
    act_id := "symlink";
    prepare _ _ _ _ w := (inl tt, w);
    deactivate _ _ w := (inl tt, w);
    finalize _ _ _ w := (inl [], w);
    cancel := None;
    prePurge _ w := (inl tt, w);
    purge _ _ w := (inr (mkError TemporaryError None "locked"), w);
    postPurge w := (inl tt, w);
  |} in
  trace (snd (initProm_purge (resolve tt) failing "/staging/game1"
                [("", "/game/Data")] (start "installed" world0)))
  = [EvErrorNotification "Purge failed, please try again"
                         (DetailMessage "locked") (Some false)].
Proof. vm_compute. reflexivity. Qed.

Lemma undeploy_without_target_witness :
  let activators := [scripted_method "symlink"] in
  let s := start "installed" world0 in
  let ghost := Orchestrator.mkSt unregistered_state world0 [] in
  let game : IGame := {| getModPaths p := [("", (p ++ "/Data")%string)] |} in
  (discovered (store s) !! "game2" ≫= discovery_path = None /\
   undeploy activators "game2" (m1 "installed") s = Returns (inl tt, s)) /\
  ((discovered (store ghost) !! "game3" ≫= discovery_path = Some "/game3" /\
    getGame "game3" = None) /\
   undeploy activators "game3" (m1 "installed") ghost
   = Throws (TypeError "Cannot read property 'getModPaths' of undefined")) /\
  ((discovered (store s) !! "game1" ≫= discovery_path = Some "/game" /\
    getGame "game1" = Some game /\
    chosen_activator [] (store s) "game1"
                     (map fst (getModPaths game "/game")) = None) /\
   undeploy [] "game1" (m1 "installed") s
   = Returns (inr (new_ProcessCanceled "No deployment method active"), s)) /\
  ((discovered (store s) !! "game1" ≫= discovery_path = Some "/game" /\
    getGame "game1" = Some game /\
    chosen_activator activators (store s) "game1"
                     (map fst (getModPaths game "/game"))
    = Some (scripted_method "symlink") /\
    modPath_of (getModPaths game "/game") (type_or_default enb_mod) = None) /\
   undeploy activators "game1" enb_mod s = Returns (inl tt, s)).
Proof.
  intros activators s ghost game.
  assert (H1 : discovered (store s) !! "game2" ≫= discovery_path = None)
    by (vm_compute; reflexivity).
  assert (H2 : discovered (store ghost) !! "game3" ≫= discovery_path
               = Some "/game3") by (vm_compute; reflexivity).
  assert (H3 : getGame "game3" = None) by (vm_compute; reflexivity).
  assert (H4 : discovered (store s) !! "game1" ≫= discovery_path
               = Some "/game") by (vm_compute; reflexivity).
  assert (H5 : getGame "game1" = Some game) by (vm_compute; reflexivity).
  assert (H6 : chosen_activator [] (store s) "game1"
                 (map fst (getModPaths game "/game")) = None)
    by (vm_compute; reflexivity).
  assert (H7 : chosen_activator activators (store s) "game1"
                 (map fst (getModPaths game "/game"))
               = Some (scripted_method "symlink"))
    by (vm_compute; reflexivity).
  assert (H8 : modPath_of (getModPaths game "/game")
                          (type_or_default enb_mod) = None)
    by (vm_compute; reflexivity).
  split; [split; [exact H1|]|split; [split; [now split|]|split]].
  - exact (proj1 (undeploy_without_target activators "game2"
                    (m1 "installed") s) H1).
  - exact (proj1 (proj2 (undeploy_without_target activators "game3"
                           (m1 "installed") ghost)) _ H2 H3).
  - split; [now repeat split|].
    exact (proj1 (proj2 (proj2 (undeploy_without_target [] "game1"
                                  (m1 "installed") s))) _ _ H4 H5 H6).
  - split; [now repeat split|].
    exact (proj2 (proj2 (proj2 (undeploy_without_target activators "game1"
                                  enb_mod s))) _ _ _ H4 H5 H7 H8).
Defined.

Lemma undeploy_cancels_or_saves_witness :
  let activators := [scripted_method "symlink"] in
  let s := start "installed" (mkScriptW [] ∅ [] (Some "EBUSY") None) in
  let m := m1 "installed" in
  let discovery := {| discovery_path := Some "/game" |} in
  let game : IGame := {| getModPaths p := [("", (p ++ "/Data")%string)] |} in
  (discovered (store s) !! "game1" = Some discovery /\
   discovery_path discovery = Some "/game" /\
   getGame "game1" = Some game /\
   chosen_activator activators (store s) "game1"
                    (map fst (getModPaths game "/game"))
   = Some (scripted_method "symlink") /\
   modPath_of (getModPaths game "/game") (type_or_default m)
   = Some "/game/Data") /\
  let stagingPath := installPathForGame (store s) "game1" in
  match deactivate_steps (scripted_method "symlink") game "/game/Data"
                         stagingPath m s with
  | (inr e, s1) =>
      undeploy activators "game1" m s
      = Returns
          (inr e,
           mkSt (store s1)
                (canceled (scripted_method "symlink") "game1" "/game/Data"
                          stagingPath (world s1))
                (trace s1))
  | (inl _, s1) =>
      undeploy activators "game1" m s
      = Returns
          ((let* newActivation :=
              ext (finalize (scripted_method "symlink") "game1" "/game/Data"
                            stagingPath) in
            ext (saveActivation (mod_type m) (app_instanceId (store s))
                                "/game/Data" stagingPath newActivation
                                (act_id (scripted_method "symlink")))) s1)
  end.
Proof.
  intros activators s m discovery game.
  assert (H1 : discovered (store s) !! "game1" = Some discovery)
    by (vm_compute; reflexivity).
  assert (H2 : discovery_path discovery = Some "/game") by reflexivity.
  assert (H3 : getGame "game1" = Some game) by (vm_compute; reflexivity).
  assert (H4 : chosen_activator activators (store s) "game1"
                 (map fst (getModPaths game "/game"))
               = Some (scripted_method "symlink"))
    by (vm_compute; reflexivity).
  assert (H5 : modPath_of (getModPaths game "/game")
                          (type_or_default m) = Some "/game/Data")
    by (vm_compute; reflexivity).
  split; [now repeat split|].
  exact (undeploy_cancels_or_saves activators "game1" m s discovery "/game"
           game (scripted_method "symlink") "/game/Data" H1 H2 H3 H4 H5).
Defined.

(** [onRemoveMod] for a game that is discovered but not registered: the
    mod is disabled, the activity is started, and the call throws; no
    callback is called, the activity is not stopped, the mod stays in the
    catalog. *)
Example onRemoveMod_unregistered_game :
  let s := Orchestrator.mkSt unregistered_state world0 [] in
  let r := onRemoveMod [scripted_method "symlink"] "game3" "m1" true s in
  fst r = inr (TypeError "Cannot read property 'getModPaths' of undefined") /\
  trace (snd r)
  = [EvDispatch (setModEnabled (Some "profile1") "m1" false);
     EvDispatch (startActivity "mods" "removing_m1")] /\
  catalog_lookup (store (snd r)) "game3" "m1" = Some (m1 "installed").
Proof. repeat split; vm_compute; reflexivity. Qed.

Lemma onRemoveMod_brackets_witness :
  let activators := [scripted_method "symlink"] in
  let s := start "installed" (mkScriptW [] ∅ [Some "EPERM"] None None) in
  let m := m1 "installed" in
  (catalog_lookup (store s) "game1" "m1" = Some m /\
   mod_state m ∈ ["downloaded"; "installed"]) /\
  let profileId :=
    match lastActiveProfile (store s) !! "game1" with
    | Some (LastActiveId p) => Some p
    | Some (LastActiveObject p) => p
    | None => None
    end in
  let r := onRemoveMod activators "game1" "m1" true s in
  match fst r with
  | inl _ =>
      exists between,
        added s (snd r)
        = EvDispatch (setModEnabled profileId "m1" false)
          :: EvDispatch (startActivity "mods" ("removing_" ++ "m1"))
          :: between
          ++ [EvDispatch (stopActivity "mods" ("removing_" ++ "m1"))]
  | inr _ =>
      added s (snd r)
      = [EvDispatch (setModEnabled profileId "m1" false);
         EvDispatch (startActivity "mods" ("removing_" ++ "m1"))]
  end.
Proof.
  intros activators s m.
  assert (H1 : catalog_lookup (store s) "game1" "m1" = Some m)
    by (vm_compute; reflexivity).
  assert (H2 : mod_state m ∈ ["downloaded"; "installed"])
    by (apply list_elem_of_further, list_elem_of_here).
  split; [now split|].
  exact (onRemoveMod_brackets activators "game1" "m1" true s m H1 H2).
Defined.

Lemma onRemoveMod_without_files_witness :
  let activators := [scripted_method "symlink"] in
  let s := Orchestrator.mkSt bare_state world0 [] in
  (catalog_lookup (store s) "game1" "m1" = Some bare_mod /\
   mod_state bare_mod ∈ ["downloaded"; "installed"] /\
   installationPath bare_mod = None /\
   truthy None = false) /\
  let s' := snd (onRemoveMod activators "game1" "m1" true s) in
  world s' = world s /\
  List.filter is_removal_step (added s s') = [] /\
  EvDispatch (removeMod "game1" (mod_id bare_mod)) ∈ added s s' /\
  (true = true -> EvCallback None ∈ added s s').
Proof.
  intros activators s.
  assert (H1 : catalog_lookup (store s) "game1" "m1" = Some bare_mod)
    by (vm_compute; reflexivity).
  assert (H2 : mod_state bare_mod ∈ ["downloaded"; "installed"])
    by (apply list_elem_of_further, list_elem_of_here).
  assert (H3 : installationPath bare_mod = None) by reflexivity.
  assert (H4 : truthy None = false) by reflexivity.
  split; [now repeat split|].
  exact (onRemoveMod_without_files activators "game1" "m1" true s bare_mod
           H1 H2 H3 H4).
Defined.

Lemma remove_missing_only_finished_witness :
  let s := start "installed" world0 in
  let modNames := ["busy"; "old"; "fresh"] in
  (forall name, name ∈ modNames -> is_Some (known_mods !! name)) /\
  let r := remove_missing known_mods "game1" modNames s in
  fst r = inl tt /\
  world (snd r) = world s /\
  added s (snd r)
  = map (fun name => EvDispatch (removeMod "game1" name))
        (List.filter (removable known_mods) modNames) /\
  (forall name m,
      known_mods !! name = Some m ->
      mod_state m ∉ ["downloaded"; "installed"] ->
      EvDispatch (removeMod "game1" name) ∉ added s (snd r)).
Proof.
  intros s modNames.
  assert (H1 : forall name, name ∈ modNames -> is_Some (known_mods !! name)).
  { intros name Hin.
    repeat (apply elem_of_cons in Hin as [->|Hin];
            [vm_compute; eauto|]).
    now apply elem_of_nil in Hin. }
  split; [exact H1|].
  exact (remove_missing_only_finished known_mods "game1" modNames s H1).
Defined.

(** Of a busy, an old and a fresh mod gone from the staging folder, the
    old and the fresh one are removed. *)
Example remove_missing_run :
  trace (snd (remove_missing known_mods "game1" ["busy"; "old"; "fresh"]
                (start "installed" world0)))
  = [EvDispatch (removeMod "game1" "old");
     EvDispatch (removeMod "game1" "fresh")].
Proof. vm_compute. reflexivity. Qed.

End OrchestratorMoreFacts.

(** ** The assembly of a downloaded file *)

Module AssemblerFacts.
Import Assembler.

Section Facts.
Context {W : Type} `{Env W}.

Local Abbreviation P := (M (St W)).

Lemma assembler_added_app (s s' : St W) evs :
  trace s' = trace s ++ evs -> added s s' = evs.
Proof. intros Ht. unfold added. rewrite Ht. apply drop_app_length. Qed.

(** X18. [create] opens a file that is there, and is no directory, with
    ['r+'] and takes its size for the total size. In every other case,
    the directory of the file cannot be made, the file cannot be
    examined, or it is a directory, it opens the file with ['w'] and a
    total size of 0: the error 'Download target is a directory' never
    comes out, and [create] fails only with the error of [open]. *)
Theorem create_cases fileName sys :
  let dir := path_dirname fileName in
  let ensured := fs_ensureDirAsync dir (sys_world sys) in
  let examined := fs_statAsync fileName (snd ensured) in
  let existing :=
    match fst ensured, fst examined with
    | inl _, inl stats =>
        if isDirectory stats then None else Some (size stats)
    | _, _ => None
    end in
  let flags := match existing with Some _ => "r+" | None => "w" end in
  let size := match existing with Some size => size | None => 0%Z end in
  let probed :=
    match fst ensured with
    | inl _ => mkSys (snd examined)
                     (sys_trace sys ++ [EvFs (CEnsureDir dir);
                                        EvFs (CStat fileName)])
    | inr _ => mkSys (snd ensured) (sys_trace sys ++ [EvFs (CEnsureDir dir)])
    end in
  let opened := fs_openAsync fileName flags (sys_world probed) in
  create fileName sys
  = (match fst opened with
     | inl fd => inl (new_FileAssembler fileName size fd)
     | inr e => inr e
     end,
     mkSys (snd opened)
           (sys_trace probed ++ [EvFs (COpen fileName flags)])).
Proof.
  intros dir ensured examined existing flags size probed opened.
  subst opened probed size flags existing examined ensured.
  unfold create, probe, catch, andThen, sysCall, reject, resolve. fold dir.
  destruct (fs_ensureDirAsync dir (sys_world sys)) as [[[]|e] w1];
    cbn [fst snd sys_world sys_trace].
  - destruct (fs_statAsync fileName w1) as [[stats|e] w2];
      cbn [fst snd sys_world sys_trace].
    + destruct (isDirectory stats); cbn [fst snd sys_world sys_trace];
        rewrite <- ?app_assoc; cbn [app];
        match goal with
        | |- context [fs_openAsync ?f ?g ?w] =>
            destruct (fs_openAsync f g w) as [[fd|e] w3]
        end; reflexivity.
    + rewrite <- ?app_assoc. cbn [app].
      destruct (fs_openAsync fileName "w" w2) as [[fd|e'] w3]; reflexivity.
  - destruct (fs_openAsync fileName "w" w1) as [[fd|e'] w3]; reflexivity.
Qed.

(** *** The queue *)

Lemma set_mWork_same a : set_mWork (mWork a) a = a.
Proof. now destruct a. Qed.

Lemma queue_rejected {A} (chain : P A) s e :
  mWork (this s) = Some e ->
  queue (work >> chain) s = (inr e, s).
Proof.
  intros Hwork. unfold queue, work, andThen. rewrite Hwork.
  rewrite <- Hwork, set_mWork_same. now destruct s.
Qed.

(** X19. Once a step of the queue has failed, [setTotalSize], [rename]
    and [close] do nothing at all, no call and no change of a field, and
    [close] is rejected with the error of that step: the file stays
    open. *)
Theorem rejected_queue_skips s e size newName :
  mWork (this s) = Some e ->
  setTotalSize size s = (inr e, s) /\
  rename newName s = (inr e, s) /\
  close s = (inr e, s).
Proof.
  intros Hwork. repeat split; now apply queue_rejected.
Qed.

(** What [close] does to an assembler whose queue is fulfilled. *)
Lemma close_eq s :
  mWork (this s) = None ->
  close s
  = match mFD (this s) with
    | None => (inl tt, s)
    | Some fd =>
        let synced := fs_fsyncAsync (Some fd) (world s) in
        let tolerated :=
          match fst synced with
          | inl _ => true
          | inr e => code_is "EBADF" e || code_is "ENOENT" e
          end in
        let closed := fs_closeAsync (Some fd) (snd synced) in
        if tolerated
        then (fst closed,
              mkSt (set_mWork (match fst closed with
                               | inl _ => None
                               | inr e => Some e
                               end) (set_mFD None (this s)))
                   (snd closed)
                   (trace s ++ [EvFs (CFsync (Some fd));
                                EvFs (CClose (Some fd))]))
        else (fst synced,
              mkSt (set_mWork (match fst synced with
                               | inl _ => None
                               | inr e => Some e
                               end) (set_mFD None (this s)))
                   (snd synced)
                   (trace s ++ [EvFs (CFsync (Some fd))]))
    end.
Proof.
  intros Hwork. unfold close, queue, work, andThen, gets. rewrite Hwork.
  destruct (mFD (this s)) as [fd|] eqn:Hfd.
  - unfold update, effect, catchIf, catch, fsCall, resolve, reject.
    cbn [this world trace fst snd].
    destruct (fs_fsyncAsync (Some fd) (world s)) as [[[]|e] w1];
      cbn [fst snd this world trace].
    + destruct (fs_closeAsync (Some fd) w1) as [[[]|e'] w2];
        cbn [fst snd this world trace]; rewrite <- !app_assoc; reflexivity.
    + destruct (code_is "EBADF" e) eqn:Hbadf;
        cbn [orb fst snd this world trace].
      * destruct (fs_closeAsync (Some fd) w1) as [[[]|e'] w2];
          cbn [fst snd this world trace]; rewrite <- !app_assoc;
          reflexivity.
      * destruct (code_is "ENOENT" e) eqn:Hnoent;
          cbn [fst snd this world trace].
        -- destruct (fs_closeAsync (Some fd) w1) as [[[]|e'] w2];
             cbn [fst snd this world trace]; rewrite <- !app_assoc;
             reflexivity.
        -- reflexivity.
  - unfold resolve. rewrite <- Hwork, set_mWork_same. now destruct s.
Qed.

(** X20. After [close], on an assembler whose queue is fulfilled, the
    assembler is closed whatever the file system answered. The file is
    flushed first; a flush failing with [EBADF] or [ENOENT] is ignored
    and the descriptor is closed all the same; a flush failing with
    another error is the error of [close], and the descriptor is not
    closed though the assembler counts as closed. *)
Theorem close_marks_closed s fd :
  mWork (this s) = None ->
  mFD (this s) = Some fd ->
  let synced := fs_fsyncAsync (Some fd) (world s) in
  isClosed (this (snd (close s))) = true /\
  match fst synced with
  | inr e =>
      if code_is "EBADF" e || code_is "ENOENT" e
      then added s (snd (close s))
           = [EvFs (CFsync (Some fd)); EvFs (CClose (Some fd))] /\
           fst (close s) = fst (fs_closeAsync (Some fd) (snd synced))
      else added s (snd (close s)) = [EvFs (CFsync (Some fd))] /\
           fst (close s) = inr e
  | inl _ =>
      added s (snd (close s))
      = [EvFs (CFsync (Some fd)); EvFs (CClose (Some fd))] /\
      fst (close s) = fst (fs_closeAsync (Some fd) (snd synced))
  end.
Proof.
  intros Hwork Hfd synced. subst synced.
  rewrite (close_eq s Hwork), Hfd. cbv zeta.
  destruct (fs_fsyncAsync (Some fd) (world s)) as [[[]|e] w1];
    cbn [fst snd].
  - split; [reflexivity|]. split; [now apply assembler_added_app | reflexivity].
  - destruct (code_is "EBADF" e || code_is "ENOENT" e);
      (split; [reflexivity|]); (split; [now apply assembler_added_app | reflexivity]).
Qed.

(** X21. [close] is idempotent: a second [close] after one that was
    fulfilled calls nothing, changes nothing and is fulfilled. *)
Theorem close_twice s :
  mWork (this s) = None ->
  fst (close s) = inl tt ->
  close (snd (close s)) = (inl tt, snd (close s)).
Proof.
  intros Hwork Hok.
  assert (Hstate : mWork (this (snd (close s))) = None /\
                   mFD (this (snd (close s))) = None).
  { rewrite (close_eq s Hwork) in Hok |- *.
    destruct (mFD (this s)) as [fd|] eqn:Hfd; [|now split].
    cbv zeta in Hok |- *.
    destruct (match fst (fs_fsyncAsync (Some fd) (world s)) with
              | inl _ => true
              | inr e => code_is "EBADF" e || code_is "ENOENT" e
              end); cbn [fst snd this] in Hok |- *; rewrite Hok; now split. }
  destruct Hstate as [Hwork' Hfd'].
  now rewrite (close_eq _ Hwork'), Hfd'.
Qed.

(** *** [addChunk] *)

Ltac chain_unfold :=
  unfold queue, addChunk_chain, count_and_flush, catchIf;
  unfold catch, andThen, work, gets, fsCall, update, effect, resolve, reject;
  cbv beta.

Ltac chain_step :=
  cbv beta iota;
  cbn [fst snd this world trace mWork mFD mWritten mLastFlushedSize
       mLastFlushedTime set_mWritten set_flushed].

(** X22. An error waiting in the queue, from a [rename] or a [close] that
    failed, comes out of the next [addChunk] when its code is not
    [ENOSPC]: the promise [addChunk] returns is rejected with that error,
    nothing is written, and the queue is fulfilled again. A waiting error
    with the code [ENOSPC] is taken for a full disk though nothing was
    written: the message box is shown, and with 'Retry' the chunk is
    attempted on the queue, now fulfilled; with anything else the promise
    is rejected with [UserCanceled]. With a fulfilled queue and the
    assembler closed, [addChunk] is rejected with [ProcessCanceled] and
    nothing is written. *)
Theorem addChunk_nothing_written fuel offset data s :
  (forall e,
      mWork (this s) = Some e ->
      code_is "ENOSPC" e = false ->
      addChunk (S fuel) offset data s
      = Some (inr e, mkSt (set_mWork None (this s)) (world s) (trace s))) /\
  (forall e,
      mWork (this s) = Some e ->
      code_is "ENOSPC" e = true ->
      let asked :=
        mkSt (set_mWork None (this s)) (snd (showMessageBox (world s)))
             (trace s ++ [EvMessageBox "Disk is full" ["Cancel"; "Retry"]]) in
      addChunk (S fuel) offset data s
      = if (fst (showMessageBox (world s)) =? 1)%Z
        then addChunk fuel offset data asked
        else Some (inr new_UserCanceled, asked)) /\
  (mWork (this s) = None ->
   mFD (this s) = None ->
   addChunk (S fuel) offset data s
   = Some (inr (new_ProcessCanceled "file already closed"), s)).
Proof.
  cbn [addChunk]. chain_unfold.
  split; [|split].
  - intros e Hwork Hcode. rewrite Hwork. cbv beta iota. rewrite Hcode.
    reflexivity.
  - intros e Hwork Hcode. rewrite Hwork. cbv beta iota. rewrite Hcode.
    cbv beta iota.
    destruct (showMessageBox (world s)) as [button w1].
    cbn [fst snd this world trace].
    destruct (button =? 1)%Z; reflexivity.
  - intros Hwork Hfd. rewrite Hwork. cbv beta iota. rewrite Hfd.
    cbv beta iota.
    change (code_is "ENOSPC" (new_ProcessCanceled "file already closed"))
      with false.
    cbv beta iota. rewrite <- Hwork, set_mWork_same. now destruct s.
Qed.

(** One attempt at a chunk never rejects the queue: whatever happens, the
    chain ends fulfilled, with the settlement of the promise [addChunk]
    returned or with the order to retry. *)
Lemma addChunk_chain_fulfilled offset data s :
  exists v s1,
    queue (addChunk_chain offset data) s = (inl v, s1) /\
    mWork (this s1) = None.
Proof.
  unfold queue.
  assert (Hnever : exists v s1, addChunk_chain offset data s = (inl v, s1)).
  { unfold addChunk_chain, catchIf. unfold catch. cbv beta.
    match goal with
    | |- context [andThen work ?k s] => destruct (andThen work k s)
                                        as [[v|e] s1]
    end; [now eexists _, _|].
    destruct (code_is "ENOSPC" e); [|now eexists _, _].
    destruct (showMessageBox (world s1)). now eexists _, _. }
  destruct Hnever as (v & s1 & ->). now eexists _, _.
Qed.

(** [addChunk] is without a result after [fuel] attempts exactly when
    each of them ended in a retry. *)
Lemma addChunk_out_of_fuel fuel offset data s :
  addChunk fuel offset data s = None <->
  forall k, k < fuel ->
    fst (queue (addChunk_chain offset data) (after_attempts k offset data s))
    = inl Retry.
Proof.
  revert s. induction fuel as [|fuel IH]; intros s.
  - split; [intros _ k Hk; lia | reflexivity].
  - cbn [addChunk].
    destruct (queue (addChunk_chain offset data) s) as [[[r1|]|e] s1]
      eqn:Hq.
    + split; [discriminate|]. intros Hall.
      specialize (Hall 0 ltac:(lia)). cbn [after_attempts] in Hall.
      rewrite Hq in Hall. discriminate.
    + rewrite IH. split.
      * intros Hall [|k] Hk; cbn [after_attempts]; rewrite Hq;
          [reflexivity|]. apply Hall. lia.
      * intros Hall k Hk. specialize (Hall (S k) ltac:(lia)).
        cbn [after_attempts] in Hall. now rewrite Hq in Hall.
    + split; [discriminate|]. intros Hall.
      specialize (Hall 0 ltac:(lia)). cbn [after_attempts] in Hall.
      rewrite Hq in Hall. discriminate.
Qed.

(** X23. Whatever happens to a chunk, the queue is fulfilled after
    [addChunk]. One attempt always ends with the queue fulfilled, and
    [addChunk] settles as that attempt says unless the attempt ends in a
    retry, after the message box: it has no result after a number of
    attempts exactly when each of them ended in a retry, and every result
    it gives leaves the queue fulfilled. In particular a write that
    fails, with a code other than [ENOSPC], rejects the promise
    [addChunk] returns with the error of the write and does not block the
    work queued after it: a [setTotalSize] that follows takes effect. *)
Theorem addChunk_leaves_queue_fulfilled fuel offset data s :
  (exists v s1,
      queue (addChunk_chain offset data) s = (inl v, s1) /\
      mWork (this s1) = None /\
      addChunk (S fuel) offset data s
      = match v with
        | Settled r => Some (r, s1)
        | Retry => addChunk fuel offset data s1
        end /\
      (v = Retry ->
       exists before,
         trace s1
         = before ++ [EvMessageBox "Disk is full" ["Cancel"; "Retry"]])) /\
  (addChunk fuel offset data s = None <->
   forall k, k < fuel ->
     fst (queue (addChunk_chain offset data)
                (after_attempts k offset data s)) = inl Retry) /\
  (forall r s', addChunk fuel offset data s = Some (r, s') ->
                mWork (this s') = None) /\
  (forall fd e w1 size,
      mWork (this s) = None ->
      mFD (this s) = Some fd ->
      fsFast_write fd data offset (world s) = (inr e, w1) ->
      code_is "ENOSPC" e = false ->
      let s' := mkSt (this s) w1
                     (trace s ++ [EvFs (CWrite fd data offset)]) in
      addChunk (S fuel) offset data s = Some (inr e, s') /\
      fst (setTotalSize size s') = inl tt /\
      mTotalSize (this (snd (setTotalSize size s'))) = size).
Proof.
  split; [|split; [apply addChunk_out_of_fuel|split]].
  - destruct (addChunk_chain_fulfilled offset data s)
      as (v & s1 & Hq & Hwork).
    exists v, s1. split; [exact Hq|]. split; [exact Hwork|].
    split; [cbn [addChunk]; rewrite Hq; now destruct v|].
    intros ->. revert Hq. chain_unfold.
    destruct (mWork (this s)) as [e|]; cbv beta iota.
    + destruct (code_is "ENOSPC" e); cbv beta iota; [|discriminate].
      destruct (showMessageBox (world s)) as [button w1].
      intros [= _ <-]. now eexists.
    + destruct (mFD (this s)) as [fd|]; cbv beta iota.
      * destruct (fsFast_write fd data offset (world s)) as [[n|e] w1];
          chain_step.
        -- destruct (Date_now w1) as [now w2]. chain_step.
           destruct ((MIN_FLUSH_SIZE <? mWritten (this s) + n
                                        - mLastFlushedSize (this s))%Z
                     || (MIN_FLUSH_TIME <? now - mLastFlushedTime (this s))%Z);
             chain_step.
           ++ destruct (fs_fsyncAsync (mFD (this s)) w2) as [[[]|e] w3];
                chain_step.
              ** destruct (n =? Z.of_nat (length data))%Z; discriminate.
              ** destruct (code_is "ENOSPC" e); chain_step;
                   [|discriminate].
                 destruct (showMessageBox w3) as [button w4].
                 intros [= _ <-]. now eexists.
           ++ destruct (n =? Z.of_nat (length data))%Z; discriminate.
        -- destruct (code_is "ENOSPC" e); chain_step; [|discriminate].
           destruct (showMessageBox w1) as [button w2].
           intros [= _ <-]. now eexists.
      * change (code_is "ENOSPC" (new_ProcessCanceled "file already closed"))
          with false.
        discriminate.
  - revert s. induction fuel as [|fuel IH]; intros s r s'; [discriminate|].
    cbn [addChunk].
    destruct (addChunk_chain_fulfilled offset data s)
      as (v & s1 & -> & Hwork).
    destruct v as [r1|].
    + intros [= <- <-]. exact Hwork.
    + apply IH.
  - intros fd e w1 size Hwork Hfd Hwrite Hcode s'. subst s'.
    split; [|split].
    + cbn [addChunk]. chain_unfold. rewrite Hwork, Hfd.
      cbn [fst snd this world trace]. rewrite Hwrite.
      cbn [fst snd this world trace]. rewrite Hcode.
      cbn [fst snd this world trace].
      rewrite <- Hwork, set_mWork_same. reflexivity.
    + unfold setTotalSize, queue, work, andThen, update, effect.
      cbn [this]. now rewrite Hwork.
    + unfold setTotalSize, queue, work, andThen, update, effect.
      cbn [this]. now rewrite Hwork.
Qed.

(** X24. A chunk written in full, on an open assembler with a fulfilled
    queue: the bytes are added to [mWritten]; the file is flushed, and
    [addChunk] answers [true], exactly when more than [MIN_FLUSH_SIZE]
    bytes were written since the last flush or more than [MIN_FLUSH_TIME]
    ms have passed since it, and then the flush is recorded; otherwise
    [addChunk] answers [false] and the record of the last flush stays. A
    chunk written in part is counted too, and rejected as an incomplete
    write. *)
Theorem addChunk_flush_policy fuel offset data s fd n w1 :
  mWork (this s) = None ->
  mFD (this s) = Some fd ->
  fsFast_write fd data offset (world s) = (inl n, w1) ->
  let a := this s in
  let written := (mWritten a + n)%Z in
  let now := fst (Date_now w1) in
  let result (synced : bool) : Outcome bool :=
    if (n =? Z.of_nat (length data))%Z then inl synced
    else inr (incomplete_write n (Z.of_nat (length data))) in
  if (MIN_FLUSH_SIZE <? written - mLastFlushedSize a)%Z
     || (MIN_FLUSH_TIME <? now - mLastFlushedTime a)%Z
  then
    forall w3,
      fs_fsyncAsync (Some fd) (snd (Date_now w1)) = (inl tt, w3) ->
      addChunk (S fuel) offset data s
      = Some (result true,
              mkSt (set_flushed written now (set_mWritten written a)) w3
                   (trace s ++ [EvFs (CWrite fd data offset);
                                EvFs (CFsync (Some fd))]))
  else
    addChunk (S fuel) offset data s
    = Some (result false,
            mkSt (set_mWritten written a) (snd (Date_now w1))
                 (trace s ++ [EvFs (CWrite fd data offset)])).
Proof.
  intros Hwork Hfd Hwrite a written now result.
  subst a written now result.
  cbn [addChunk]. chain_unfold. rewrite Hwork, Hfd.
  cbn [fst snd this world trace]. rewrite Hwrite.
  cbn [fst snd this world trace mWritten mLastFlushedSize mLastFlushedTime
       set_mWritten].
  destruct (Date_now w1) as [now w2]. cbn [fst snd this world trace].
  destruct ((MIN_FLUSH_SIZE <? mWritten (this s) + n
                               - mLastFlushedSize (this s))%Z
            || (MIN_FLUSH_TIME <? now - mLastFlushedTime (this s))%Z).
  - intros w3 Hsync.
    cbn [fst snd this world trace mFD set_mWritten set_flushed].
    rewrite Hfd, Hsync. cbn [fst snd this world trace].
    destruct (n =? Z.of_nat (length data))%Z;
      cbn [negb fst snd this world trace]; rewrite <- !app_assoc;
      destruct (this s); cbn in Hwork |- *; subst; reflexivity.
  - cbn [fst snd this world trace].
    destruct (n =? Z.of_nat (length data))%Z;
      cbn [negb fst snd this world trace];
      destruct (this s); cbn in Hwork |- *; subst; reflexivity.
Qed.

(** X25. When the disk is full ([ENOSPC] from the write), the user is
    asked once: with 'Retry' (button 1) the same chunk is attempted
    again, from the state the failed write left, and the promise settles
    as that attempt does; with anything else the promise is rejected
    with [UserCanceled]. *)
Theorem addChunk_disk_full fuel offset data s fd e w1 :
  mWork (this s) = None ->
  mFD (this s) = Some fd ->
  fsFast_write fd data offset (world s) = (inr e, w1) ->
  code_is "ENOSPC" e = true ->
  let asked :=
    mkSt (this s) (snd (showMessageBox w1))
         (trace s ++ [EvFs (CWrite fd data offset);
                      EvMessageBox "Disk is full" ["Cancel"; "Retry"]]) in
  addChunk (S fuel) offset data s
  = if (fst (showMessageBox w1) =? 1)%Z
    then addChunk fuel offset data asked
    else Some (inr new_UserCanceled, asked).
Proof.
  intros Hwork Hfd Hwrite Hcode asked. subst asked.
  cbn [addChunk]. chain_unfold. rewrite Hwork, Hfd.
  cbn [fst snd this world trace]. rewrite Hwrite.
  cbn [fst snd this world trace]. rewrite Hcode.
  cbn [fst snd this world trace].
  destruct (showMessageBox w1) as [button w2].
  cbn [fst snd this world trace]. rewrite <- !app_assoc. cbn [app].
  rewrite <- Hwork, set_mWork_same.
  destruct (button =? 1)%Z; reflexivity.
Qed.

Lemma chain_counts offset data s :
  (forall fd data offset w n w',
      fsFast_write fd data offset w = (inl n, w') -> (0 <= n)%Z) ->
  let s' := snd (queue (addChunk_chain offset data) s) in
  (mWritten (this s) <= mWritten (this s'))%Z /\
  ((mLastFlushedSize (this s) <= mWritten (this s))%Z ->
   (mLastFlushedSize (this s') <= mWritten (this s'))%Z) /\
  mFD (this s') = mFD (this s) /\
  mFileName (this s') = mFileName (this s) /\
  mTotalSize (this s') = mTotalSize (this s).
Proof.
  intros Hwrite s'. subst s'. chain_unfold.
  destruct s as [[fd name total wk written ltime lsize] w tr].
  chain_step.
  destruct wk as [e|]; chain_step.
  - destruct (code_is "ENOSPC" e); chain_step.
    + destruct (showMessageBox w). cbn. repeat split; try reflexivity; lia.
    + cbn. repeat split; try reflexivity; lia.
  - destruct fd as [fd|]; chain_step.
    + destruct (fsFast_write fd data offset w) as [[n|e] w1] eqn:Hw;
        chain_step.
      * apply Hwrite in Hw.
        destruct (Date_now w1) as [now w2]. chain_step.
        destruct ((MIN_FLUSH_SIZE <? written + n - lsize)%Z
                  || (MIN_FLUSH_TIME <? now - ltime)%Z); chain_step.
        -- destruct (fs_fsyncAsync (Some fd) w2) as [[[]|e] w3]; chain_step.
           ++ destruct (n =? Z.of_nat (length data))%Z; cbn;
                repeat split; try reflexivity; lia.
           ++ destruct (code_is "ENOSPC" e); chain_step.
              ** destruct (showMessageBox w3). cbn.
                 repeat split; try reflexivity; lia.
              ** cbn. repeat split; try reflexivity; lia.
        -- destruct (n =? Z.of_nat (length data))%Z; cbn;
             repeat split; try reflexivity; lia.
      * destruct (code_is "ENOSPC" e); chain_step.
        -- destruct (showMessageBox w1). cbn.
           repeat split; try reflexivity; lia.
        -- cbn. repeat split; try reflexivity; lia.
    + change (code_is "ENOSPC" (new_ProcessCanceled "file already closed"))
        with false.
      cbn. repeat split; try reflexivity; lia.
Qed.

(** X26. [addChunk] only counts: it never changes the descriptor, the
    name or the total size of the assembler; as long as the file system
    reports no negative number of bytes written, [mWritten] never
    decreases and the size recorded at the last flush never exceeds
    it. *)
Theorem addChunk_counts fuel offset data s r s' :
  (forall fd data offset w n w',
      fsFast_write fd data offset w = (inl n, w') -> (0 <= n)%Z) ->
  addChunk fuel offset data s = Some (r, s') ->
  (mWritten (this s) <= mWritten (this s'))%Z /\
  ((mLastFlushedSize (this s) <= mWritten (this s))%Z ->
   (mLastFlushedSize (this s') <= mWritten (this s'))%Z) /\
  mFD (this s') = mFD (this s) /\
  mFileName (this s') = mFileName (this s) /\
  mTotalSize (this s') = mTotalSize (this s).
Proof.
  intros Hwrite. revert s.
  induction fuel as [|fuel IH]; intros s; [discriminate|].
  cbn [addChunk].
  pose proof (chain_counts offset data s Hwrite) as Hchain.
  destruct (queue (addChunk_chain offset data) s) as [[[r1|]|e] s1];
    cbn [snd] in Hchain.
  - intros [= <- <-]. exact Hchain.
  - intros Hretry. specialize (IH s1 Hretry).
    destruct Hchain as (Hc1 & Hc2 & Hc3 & Hc4 & Hc5).
    destruct IH as (Hi1 & Hi2 & Hi3 & Hi4 & Hi5).
    repeat split; try congruence; lia.
  - intros [= <- <-]. exact Hchain.
Qed.

(** X27. [rename] with a fulfilled queue closes the descriptor, renames
    the file and opens it again with ['r+'], in this order, and stops at
    the first step that fails. Only when the renaming succeeded does the
    assembler take the new name, and only when the file was opened again
    the new descriptor; when a step fails the queue is rejected with its
    error and the assembler is left holding the descriptor that was
    closed. When the promise of the name is rejected, nothing is
    called. *)
Theorem rename_cases newName s :
  mWork (this s) = None ->
  let a := this s in
  let failed e (a' : FileAssembler) w evs :=
    (inr e : Outcome unit, mkSt (set_mWork (Some e) a') w (trace s ++ evs)) in
  rename newName s
  = match newName with
    | inr e => failed e a (world s) []
    | inl name =>
        let c1 := CClose (mFD a) in
        let c2 := CRename (mFileName a) name in
        let c3 := COpen name "r+" in
        match fs_closeAsync (mFD a) (world s) with
        | (inr e, w1) => failed e a w1 [EvFs c1]
        | (inl _, w1) =>
            match fs_renameAsync (mFileName a) name w1 with
            | (inr e, w2) => failed e a w2 [EvFs c1; EvFs c2]
            | (inl _, w2) =>
                match fs_openAsync name "r+" w2 with
                | (inr e, w3) =>
                    failed e (set_mFileName name a) w3
                           [EvFs c1; EvFs c2; EvFs c3]
                | (inl fd, w3) =>
                    (inl tt,
                     mkSt (set_mFD (Some fd) (set_mFileName name a)) w3
                          (trace s ++ [EvFs c1; EvFs c2; EvFs c3]))
                end
            end
        end
    end.
Proof.
  intros Hwork a failed. subst a failed.
  unfold rename, queue, andThen, work, gets, fsCall, update, effect.
  rewrite Hwork. destruct s as [a w tr].
  cbn [this world trace] in *.
  destruct newName as [name|e]; [|now rewrite app_nil_r].
  destruct (fs_closeAsync (mFD a) w) as [[[]|e] w1];
    cbn [this world trace fst snd]; [|reflexivity].
  destruct (fs_renameAsync (mFileName a) name w1) as [[[]|e] w2];
    cbn [this world trace fst snd]; [|now rewrite <- !app_assoc].
  destruct (fs_openAsync name "r+" w2) as [[fd|e] w3];
    cbn [this world trace fst snd]; rewrite <- !app_assoc;
    destruct a; cbn in Hwork |- *; subst; reflexivity.
Qed.

End Facts.

(** *** On the scripted disk *)

Import Disk.

(** A file that is there is opened for update; a directory in the way is
    treated as a file that is not there, and it is [open] that fails. *)
Example create_runs :
  fst (create "/downloads/mod.7z" (mkSys (disk [] []) []))
  = inl (new_FileAssembler "/downloads/mod.7z" 4096 3) /\
  fst (create "/downloads/new.7z" (mkSys (disk [] []) []))
  = inl (new_FileAssembler "/downloads/new.7z" 0 3) /\
  create "/downloads/dir" (mkSys (disk [] []) [])
  = (inr (fs_error "EISDIR"),
     mkSys (disk [] [])
           [EvFs (CEnsureDir "/downloads"); EvFs (CStat "/downloads/dir");
            EvFs (COpen "/downloads/dir" "w")]).
Proof. repeat split; vm_compute; reflexivity. Qed.

Lemma rejected_queue_skips_witness :
  let e := fs_error "EPERM" in
  let s := snd (rename (inl "/downloads/final.7z")
                       (opened [None; Some "EPERM"] [])) in
  mWork (this s) = Some e /\
  setTotalSize 10 s = (inr e, s) /\
  rename (inl "/downloads/other.7z") s = (inr e, s) /\
  close s = (inr e, s).
Proof.
  intros e s.
  assert (H1 : mWork (this s) = Some e) by (vm_compute; reflexivity).
  split; [exact H1|].
  exact (rejected_queue_skips s e 10 (inl "/downloads/other.7z") H1).
Defined.

Lemma close_marks_closed_witness :
  let s := opened [Some "EBADF"] [] in
  (mWork (this s) = None /\ mFD (this s) = Some 3%Z) /\
  let synced := fs_fsyncAsync (Some 3%Z) (world s) in
  isClosed (this (snd (close s))) = true /\
  match fst synced with
  | inr e =>
      if code_is "EBADF" e || code_is "ENOENT" e
      then added s (snd (close s))
           = [EvFs (CFsync (Some 3%Z)); EvFs (CClose (Some 3%Z))] /\
           fst (close s) = fst (fs_closeAsync (Some 3%Z) (snd synced))
      else added s (snd (close s)) = [EvFs (CFsync (Some 3%Z))] /\
           fst (close s) = inr e
  | inl _ =>
      added s (snd (close s))
      = [EvFs (CFsync (Some 3%Z)); EvFs (CClose (Some 3%Z))] /\
      fst (close s) = fst (fs_closeAsync (Some 3%Z) (snd synced))
  end.
Proof.
  intros s.
  assert (H1 : mWork (this s) = None) by reflexivity.
  assert (H2 : mFD (this s) = Some 3%Z) by reflexivity.
  split; [now split|].
  exact (close_marks_closed s 3%Z H1 H2).
Defined.

Lemma close_twice_witness :
  let s := opened [] [] in
  (mWork (this s) = None /\ fst (close s) = inl tt) /\
  close (snd (close s)) = (inl tt, snd (close s)).
Proof.
  intros s.
  assert (H1 : mWork (this s) = None) by reflexivity.
  assert (H2 : fst (close s) = inl tt) by (vm_compute; reflexivity).
  split; [now split|].
  exact (close_twice s H1 H2).
Defined.

Lemma addChunk_nothing_written_witness :
  let renamed code :=
    snd (rename (inl "/downloads/final.7z")
                (opened [None; Some code] [1%Z])) in
  let closed := snd (close (opened [] [])) in
  ((mWork (this (renamed "EPERM")) = Some (fs_error "EPERM") /\
    code_is "ENOSPC" (fs_error "EPERM") = false) /\
   addChunk 1 0 chunk (renamed "EPERM")
   = Some (inr (fs_error "EPERM"),
           mkSt (set_mWork None (this (renamed "EPERM")))
                (world (renamed "EPERM")) (trace (renamed "EPERM")))) /\
  ((mWork (this (renamed "ENOSPC")) = Some (fs_error "ENOSPC") /\
    code_is "ENOSPC" (fs_error "ENOSPC") = true) /\
   let s := renamed "ENOSPC" in
   let asked :=
     mkSt (set_mWork None (this s)) (snd (showMessageBox (world s)))
          (trace s ++ [EvMessageBox "Disk is full" ["Cancel"; "Retry"]]) in
   addChunk 2 0 chunk s
   = if (fst (showMessageBox (world s)) =? 1)%Z
     then addChunk 1 0 chunk asked
     else Some (inr new_UserCanceled, asked)) /\
  ((mWork (this closed) = None /\ mFD (this closed) = None) /\
   addChunk 1 0 chunk closed
   = Some (inr (new_ProcessCanceled "file already closed"), closed)).
Proof.
  intros renamed closed.
  assert (H1 : mWork (this (renamed "EPERM")) = Some (fs_error "EPERM"))
    by (vm_compute; reflexivity).
  assert (H2 : code_is "ENOSPC" (fs_error "EPERM") = false) by reflexivity.
  assert (H3 : mWork (this (renamed "ENOSPC")) = Some (fs_error "ENOSPC"))
    by (vm_compute; reflexivity).
  assert (H4 : code_is "ENOSPC" (fs_error "ENOSPC") = true) by reflexivity.
  assert (H5 : mWork (this closed) = None) by (vm_compute; reflexivity).
  assert (H6 : mFD (this closed) = None) by (vm_compute; reflexivity).
  split; [|split].
  - split; [now split|].
    exact (proj1 (addChunk_nothing_written 0 0%Z chunk (renamed "EPERM"))
                 _ H1 H2).
  - split; [now split|].
    exact (proj1 (proj2 (addChunk_nothing_written 1 0%Z chunk
                           (renamed "ENOSPC"))) _ H3 H4).
  - split; [now split|].
    exact (proj2 (proj2 (addChunk_nothing_written 0 0%Z chunk closed))
                 H5 H6).
Defined.

(** An [ENOSPC] left in the queue by a failed [rename], and the user
    choosing 'Retry': the message box is shown and the chunk is
    written. *)
Example addChunk_after_ENOSPC_in_queue :
  let s := snd (rename (inl "/downloads/final.7z")
                       (opened [None; Some "ENOSPC"] [1%Z])) in
  match addChunk 2 0 chunk s with
  | Some (r, s') =>
      r = inl true /\
      added s s' = [EvMessageBox "Disk is full" ["Cancel"; "Retry"];
                    EvFs (CWrite 3 chunk 0); EvFs (CFsync (Some 3%Z))]
  | None => False
  end.
Proof. vm_compute. repeat split. Qed.

Lemma addChunk_leaves_queue_fulfilled_witness :
  let s := opened [Some "EIO"] [] in
  let e := fs_error "EIO" in
  let w1 := disk [] [] in
  let s' := mkSt (this s) w1 (trace s ++ [EvFs (CWrite 3 chunk 0)]) in
  let full := opened [Some "ENOSPC"] [1%Z] in
  ((forall k, k < 1 ->
      fst (queue (addChunk_chain 0 chunk) (after_attempts k 0 chunk full))
      = inl Retry) /\
   addChunk 1 0 chunk full = None) /\
  (addChunk 1 0 chunk s = Some (inr e, s') /\ mWork (this s') = None) /\
  (mWork (this s) = None /\ mFD (this s) = Some 3%Z /\
   fsFast_write 3 chunk 0 (world s) = (inr e, w1) /\
   code_is "ENOSPC" e = false) /\
  addChunk 2 0 chunk s = Some (inr e, s') /\
  fst (setTotalSize 10 s') = inl tt /\
  mTotalSize (this (snd (setTotalSize 10 s'))) = 10%Z.
Proof.
  intros s e w1 s' full.
  assert (Hretry : forall k, k < 1 ->
             fst (queue (addChunk_chain 0 chunk)
                        (after_attempts k 0 chunk full)) = inl Retry)
    by (intros [|k] Hk; [vm_compute; reflexivity | lia]).
  assert (H0 : addChunk 1 0 chunk s = Some (inr e, s'))
    by (vm_compute; reflexivity).
  assert (H1 : mWork (this s) = None) by reflexivity.
  assert (H2 : mFD (this s) = Some 3%Z) by reflexivity.
  assert (H3 : fsFast_write 3 chunk 0 (world s) = (inr e, w1))
    by reflexivity.
  assert (H4 : code_is "ENOSPC" e = false) by reflexivity.
  split; [split; [exact Hretry|]
         |split; [split; [exact H0|]|split; [now repeat split|]]].
  - exact (proj2 (proj1 (proj2 (addChunk_leaves_queue_fulfilled
                                  1 0%Z chunk full))) Hretry).
  - exact (proj1 (proj2 (proj2 (addChunk_leaves_queue_fulfilled
                                  1 0%Z chunk s))) _ _ H0).
  - exact (proj2 (proj2 (proj2 (addChunk_leaves_queue_fulfilled
                                  1 0%Z chunk s)))
                 3%Z e w1 10%Z H1 H2 H3 H4).
Defined.

Lemma addChunk_flush_policy_witness :
  let s := opened [] [] in
  (mWork (this s) = None /\ mFD (this s) = Some 3%Z /\
   fsFast_write 3 chunk 0 (world s) = (inl 3%Z, world s) /\
   fs_fsyncAsync (Some 3%Z) (world s) = (inl tt, world s)) /\
  addChunk 1 0 chunk s
  = Some (inl true,
          mkSt (set_flushed 3 1600000000000
                            (set_mWritten 3 (this s)))
               (world s)
               [EvFs (CWrite 3 chunk 0); EvFs (CFsync (Some 3%Z))]).
Proof.
  intros s.
  assert (H1 : mWork (this s) = None) by reflexivity.
  assert (H2 : mFD (this s) = Some 3%Z) by reflexivity.
  assert (H3 : fsFast_write 3 chunk 0 (world s) = (inl 3%Z, world s))
    by reflexivity.
  assert (H4 : fs_fsyncAsync (Some 3%Z) (world s) = (inl tt, world s))
    by reflexivity.
  split; [now repeat split|].
  exact (addChunk_flush_policy 0 0%Z chunk s 3%Z 3%Z (world s) H1 H2 H3
           (world s) H4).
Defined.

Lemma addChunk_disk_full_witness :
  let s := opened [Some "ENOSPC"] [1%Z] in
  let e := fs_error "ENOSPC" in
  let w1 := disk [] [1%Z] in
  (mWork (this s) = None /\ mFD (this s) = Some 3%Z /\
   fsFast_write 3 chunk 0 (world s) = (inr e, w1) /\
   code_is "ENOSPC" e = true) /\
  let asked :=
    mkSt (this s) (snd (showMessageBox w1))
         (trace s ++ [EvFs (CWrite 3 chunk 0);
                      EvMessageBox "Disk is full" ["Cancel"; "Retry"]]) in
  addChunk 2 0 chunk s
  = if (fst (showMessageBox w1) =? 1)%Z
    then addChunk 1 0 chunk asked
    else Some (inr new_UserCanceled, asked).
Proof.
  intros s e w1.
  assert (H1 : mWork (this s) = None) by reflexivity.
  assert (H2 : mFD (this s) = Some 3%Z) by reflexivity.
  assert (H3 : fsFast_write 3 chunk 0 (world s) = (inr e, w1))
    by reflexivity.
  assert (H4 : code_is "ENOSPC" e = true) by reflexivity.
  split; [now repeat split|].
  exact (addChunk_disk_full 1 0%Z chunk s 3%Z e w1 H1 H2 H3 H4).
Defined.

(** The disk full, the user retrying once: the chunk is written at the
    second attempt, after one message box. *)
Example addChunk_retry_run :
  let s := opened [Some "ENOSPC"] [1%Z] in
  match addChunk 2 0 chunk s with
  | Some (r, s') =>
      r = inl true /\
      trace s' = [EvFs (CWrite 3 chunk 0);
                  EvMessageBox "Disk is full" ["Cancel"; "Retry"];
                  EvFs (CWrite 3 chunk 0); EvFs (CFsync (Some 3%Z))] /\
      mWritten (this s') = 3%Z
  | None => False
  end.
Proof. vm_compute. repeat split. Qed.

Lemma addChunk_counts_witness :
  let s := opened [] [] in
  let s' := mkSt (set_flushed 3 1600000000000 (set_mWritten 3 (this s)))
                 (world s)
                 [EvFs (CWrite 3 chunk 0); EvFs (CFsync (Some 3%Z))] in
  ((forall fd data offset w n w',
       fsFast_write fd data offset w = (inl n, w') -> (0 <= n)%Z) /\
   addChunk 1 0 chunk s = Some (inl true, s')) /\
  (mWritten (this s) <= mWritten (this s'))%Z /\
  ((mLastFlushedSize (this s) <= mWritten (this s))%Z ->
   (mLastFlushedSize (this s') <= mWritten (this s'))%Z) /\
  mFD (this s') = mFD (this s) /\
  mFileName (this s') = mFileName (this s) /\
  mTotalSize (this s') = mTotalSize (this s).
Proof.
  intros s s'.
  assert (H1 : forall fd data offset w n w',
             fsFast_write fd data offset w = (inl n, w') -> (0 <= n)%Z).
  { intros fd data offset w n w'. unfold fsFast_write, DiskEnv, with_fault.
    destruct (faults w) as [|[code|] rest]; intros [= <- _]; lia. }
  assert (H2 : addChunk 1 0 chunk s = Some (inl true, s'))
    by (vm_compute; reflexivity).
  split; [now split|].
  exact (addChunk_counts 1 0%Z chunk s (inl true) s' H1 H2).
Defined.

Lemma rename_cases_witness :
  let s := opened [] [] in
  let newName : Outcome string := inl "/downloads/final.7z" in
  mWork (this s) = None /\
  fst (rename newName s) = inl tt /\
  mFileName (this (snd (rename newName s))) = "/downloads/final.7z" /\
  mFD (this (snd (rename newName s))) = Some 3%Z /\
  trace (snd (rename newName s))
  = [EvFs (CClose (Some 3%Z));
     EvFs (CRename "/downloads/mod.7z" "/downloads/final.7z");
     EvFs (COpen "/downloads/final.7z" "r+")].
Proof.
  intros s newName.
  assert (H1 : mWork (this s) = None) by reflexivity.
  split; [exact H1|].
  rewrite (rename_cases newName s H1).
  repeat split; vm_compute; reflexivity.
Defined.

End AssemblerFacts.

(** ** The session reducer and changes of the mod table *)

Module SessionFacts.
Import Session.

Section Facts.
Context {Pos V : Type}.

(** X28. A target with an id is not displaced by a position over nothing:
    while the connection has a target whose id is a value, [setTarget]
    with the id [null] leaves the state as it is, with or without a
    position. *)
Theorem setTarget_keeps_real_target (payload : Endpoint Pos)
        (state : State Pos V) tid :
  target_id state = IdValue tid ->
  ep_id payload = IdNull ->
  setTarget payload state = state.
Proof.
  intros Htarget Hnull. unfold setTarget. rewrite Hnull, Htarget.
  assert (Hreal : no_real_target state = false).
  { unfold target_id in Htarget. unfold no_real_target.
    destruct (connection state) as [c|]; [|discriminate].
    destruct (target c) as [e|]; [|discriminate].
    now rewrite Htarget. }
  rewrite Hreal. now destruct (ep_pos payload).
Qed.

Lemma setSource_pos (payload : Endpoint Pos) (state : State Pos V) pos :
  ep_pos payload = Some pos ->
  setSource payload state = set_source (Some payload) state.
Proof. intros Hpos. unfold setSource. now rewrite Hpos. Qed.

(** X29. A source that was set with a position is cleared again by
    [setSource] with the same id and no position, and only by that: with
    another id and no position the state stays as it is. Neither touches
    the target or the dialog. *)
Theorem setSource_roundtrip (payload : Endpoint Pos) (state : State Pos V)
        pos :
  ep_pos payload = Some pos ->
  let set := setSource payload state in
  state_source set = Some payload /\
  state_target set = state_target state /\
  dialog set = dialog state /\
  (forall id,
      let cleared := setSource (mkEndpoint id None) set in
      if bool_decide (id = ep_id payload)
      then state_source cleared = None /\
           state_target cleared = state_target state /\
           dialog cleared = dialog state
      else cleared = set).
Proof.
  intros Hpos set. subst set. rewrite (setSource_pos _ _ _ Hpos).
  repeat split.
  intros id. unfold setSource. cbn [ep_pos ep_id].
  change (source_id (set_source (Some payload) state)) with (ep_id payload).
  destruct (bool_decide (id = ep_id payload)); [|reflexivity].
  now repeat split.
Qed.

End Facts.

Lemma setTarget_keeps_real_target_witness :
  let real : Endpoint nat := mkEndpoint (IdValue "mod-b") (Some 7) in
  let state : State nat nat :=
    mkState (Some (mkConnection None (Some real))) None in
  let payload : Endpoint nat := mkEndpoint IdNull (Some 9) in
  (target_id state = IdValue "mod-b" /\ ep_id payload = IdNull) /\
  setTarget payload state = state.
Proof.
  intros real state payload.
  assert (H1 : target_id state = IdValue "mod-b") by reflexivity.
  assert (H2 : ep_id payload = IdNull) by reflexivity.
  split; [now split|].
  exact (setTarget_keeps_real_target payload state "mod-b" H1 H2).
Defined.

Lemma setSource_roundtrip_witness :
  let payload : Endpoint nat := mkEndpoint (IdValue "mod-a") (Some 3) in
  let state : State nat nat := defaults in
  ep_pos payload = Some 3 /\
  let set := setSource payload state in
  state_source set = Some payload /\
  state_target set = state_target state /\
  dialog set = dialog state /\
  (forall id,
      let cleared := setSource (mkEndpoint id None) set in
      if bool_decide (id = ep_id payload)
      then state_source cleared = None /\
           state_target cleared = state_target state /\
           dialog cleared = dialog state
      else cleared = set).
Proof.
  intros payload state.
  assert (H1 : ep_pos payload = Some 3) by reflexivity.
  split; [exact H1|].
  exact (setSource_roundtrip payload state 3 H1).
Defined.

End SessionFacts.

Module ModsChangedFacts.
Import ModsChanged.

Lemma different_empty lhs rhs :
  empty lhs = true -> empty rhs = true -> different lhs rhs = false.
Proof. intros Hl Hr. unfold different. now rewrite Hl, Hr. Qed.

(** X30. [onModsChanged] asks for no deployment and throws nothing when
    the game is already marked for deployment or its mod table is the
    same object as before. When the table did change, mods whose rules
    and file overrides are empty before and after, [undefined] or an
    array without entries, ask for none either, whatever arrays they
    are; nor do mods that are new. *)
Theorem onModsChanged_quiet previous current needToDeploy gameMode :
  (tables_differ (previous !! gameMode) (current !! gameMode)
   && negb needToDeploy = false ->
   onModsChanged previous current needToDeploy gameMode = inl false) /\
  (forall c,
      current !! gameMode = Some c ->
      (forall modId pm cm,
          previous !! gameMode ≫= (fun p => table_mods p !! modId) = Some pm ->
          table_mods c !! modId = Some cm ->
          empty (rules pm) = true /\ empty (rules cm) = true /\
          empty (fileOverrides pm) = true /\
          empty (fileOverrides cm) = true) ->
      onModsChanged previous current needToDeploy gameMode = inl false).
Proof.
  split.
  - intros Hsame. unfold onModsChanged. now rewrite Hsame.
  - intros c Hc Hempty. unfold onModsChanged. rewrite Hc.
    destruct (tables_differ (previous !! gameMode) (Some c)
              && negb needToDeploy); [|reflexivity].
    f_equal. apply not_true_is_false. intros Hex.
    apply existsb_exists in Hex as (modId & _ & Hchanged).
    unfold rulesOrOverridesChanged in Hchanged.
    destruct (previous !! gameMode ≫= (fun p => table_mods p !! modId))
      as [pm|] eqn:Hpm; [|discriminate].
    destruct (table_mods c !! modId) as [cm|] eqn:Hcm; [|discriminate].
    destruct (Hempty modId pm cm Hpm Hcm) as (H1 & H2 & H3 & H4).
    rewrite (different_empty _ _ H1 H2), (different_empty _ _ H3 H4)
      in Hchanged.
    discriminate.
Qed.

(** A mod whose rules changed makes the deployment necessary; the same
    change on a game already marked does not. *)
Example onModsChanged_runs :
  let before : gmap string GameMods :=
    {[ "game1" := mkGameMods 1 {[ "m1" := mkAttributes None None ]} ]} in
  let after : gmap string GameMods :=
    {[ "game1" := mkGameMods 2
                    {[ "m1" := mkAttributes (Some (mkArray 5 1)) None;
                       "m2" := mkAttributes (Some (mkArray 6 2)) None ]} ]} in
  onModsChanged before after false "game1" = inl true /\
  onModsChanged before after true "game1" = inl false /\
  onModsChanged after before false "game1" = inl true /\
  onModsChanged before ∅ false "game1"
  = inr (Orchestrator.TypeError
           "Cannot convert undefined or null to object").
Proof. repeat split; vm_compute; reflexivity. Qed.

(** The theorem where the game is marked already, and where the table
    changed with [m1] going from no rules to an array without entries and
    [m2] being new, with rules. *)
Lemma onModsChanged_quiet_witness :
  let before : gmap string GameMods :=
    {[ "game1" := mkGameMods 1 {[ "m1" := mkAttributes None None ]} ]} in
  let c : GameMods :=
    mkGameMods 2 {[ "m1" := mkAttributes (Some (mkArray 5 0)) None;
                    "m2" := mkAttributes (Some (mkArray 6 2)) None ]} in
  let after : gmap string GameMods := {[ "game1" := c ]} in
  (tables_differ (before !! "game1") (after !! "game1") && negb true = false /\
   onModsChanged before after true "game1" = inl false) /\
  ((tables_differ (before !! "game1") (after !! "game1") = true /\
    after !! "game1" = Some c /\
    (forall modId pm cm,
        before !! "game1" ≫= (fun p => table_mods p !! modId) = Some pm ->
        table_mods c !! modId = Some cm ->
        empty (rules pm) = true /\ empty (rules cm) = true /\
        empty (fileOverrides pm) = true /\
        empty (fileOverrides cm) = true)) /\
   onModsChanged before after false "game1" = inl false).
Proof.
  intros before c after.
  assert (H1 : tables_differ (before !! "game1") (after !! "game1")
               && negb true = false) by (vm_compute; reflexivity).
  assert (H2 : tables_differ (before !! "game1") (after !! "game1") = true)
    by (vm_compute; reflexivity).
  assert (H3 : after !! "game1" = Some c) by (vm_compute; reflexivity).
  assert (H4 : forall modId pm cm,
             before !! "game1" ≫= (fun p => table_mods p !! modId) = Some pm ->
             table_mods c !! modId = Some cm ->
             empty (rules pm) = true /\ empty (rules cm) = true /\
             empty (fileOverrides pm) = true /\
             empty (fileOverrides cm) = true).
  { intros modId pm cm Hpm Hcm.
    assert (Hbefore : before !! "game1"
                      = Some (mkGameMods 1
                                {[ "m1" := mkAttributes None None ]}))
      by (vm_compute; reflexivity).
    rewrite Hbefore in Hpm. cbn [mbind option_bind table_mods] in Hpm.
    apply lookup_singleton_Some in Hpm as [<- <-].
    assert (Hm1 : table_mods c !! "m1"
                  = Some (mkAttributes (Some (mkArray 5 0)) None))
      by (vm_compute; reflexivity).
    rewrite Hm1 in Hcm. injection Hcm as <-. now repeat split. }
  split; [split; [exact H1|]
         |split; [split; [exact H2 | split; [exact H3 | exact H4]]|]].
  - exact (proj1 (onModsChanged_quiet before after true "game1") H1).
  - exact (proj2 (onModsChanged_quiet before after false "game1") c H3 H4).
Defined.

End ModsChangedFacts.
